(** * Response clean-up and score normalisation of the AI writing service

    A shallow embedding of three pieces of the service module that talks to
    the text-generation API:

    - [cleanJsonResponse]: strips markdown fences and surrounding prose from
      a model response believed to hold JSON;
    - [tryRepairTruncatedJson]: closes dangling quotes and brackets of a
      response that was cut off;
    - the score normalisation block of [gradeEssay]: clamping, half-point
      rounding, total, and the calibration bonus.

    JavaScript strings are sequences of UTF-16 code units, JavaScript numbers
    are IEEE doubles.  Both are modelled explicitly below, together with the
    built-ins the code calls ([trim], the regular expressions,
    [JSON.parse], [Number], [Math.round], [Array.prototype.sort]). *)

From Stdlib Require Import List NArith ZArith QArith Qround Qabs Bool Lia Lqa.
From Stdlib Require String Ascii.
Import ListNotations.
Import String.StringSyntax.
Delimit Scope string_scope with string.

Set Implicit Arguments.

(* ===================================================================== *)
(** * JavaScript strings                                                  *)
(* ===================================================================== *)

Module JsStr.

(** One UTF-16 code unit. *)
Definition jschar := N.

(** A JavaScript string value: the sequence of its code units. *)
Definition jsstring := list jschar.

Definition ch_tab : jschar := 9%N.
Definition ch_lf : jschar := 10%N.
Definition ch_cr : jschar := 13%N.
Definition ch_space : jschar := 32%N.
Definition ch_quote : jschar := 34%N.       (* the double quote *)
Definition ch_plus : jschar := 43%N.
Definition ch_comma : jschar := 44%N.
Definition ch_minus : jschar := 45%N.
Definition ch_dot : jschar := 46%N.
Definition ch_slash : jschar := 47%N.
Definition ch_colon : jschar := 58%N.
Definition ch_lbracket : jschar := 91%N.    (* [ *)
Definition ch_backslash : jschar := 92%N.
Definition ch_rbracket : jschar := 93%N.    (* ] *)
Definition ch_backtick : jschar := 96%N.
Definition ch_lbrace : jschar := 123%N.     (* { *)
Definition ch_rbrace : jschar := 125%N.     (* } *)

(** Literals.  [js] turns a Rocq string into a JavaScript string, byte by
    byte, except that the apostrophe stands for the double quote (code unit
    34), so that JSON text can be written down: [js "{'a': 1}"] is the
    eight-unit string whose second unit is a double quote. *)
Definition js_unit (a : Ascii.ascii) : jschar :=
  let n := Ascii.N_of_ascii a in
  if (n =? 39)%N then ch_quote else n.

Fixpoint js (s : String.string) : jsstring :=
  match s with
  | String.EmptyString => []
  | String.String a r => js_unit a :: js r
  end.

Arguments js s%_string.

(** The line feed, for the places where the source writes [\n]. *)
Definition LF : jsstring := [ch_lf].

(** ** White space

    [String.prototype.trim] and the regular-expression class [\s] use the
    same set: the WhiteSpace and LineTerminator code points. *)
Definition is_space (c : jschar) : bool :=
  ((9 <=? c) && (c <=? 13) || (c =? 32) || (c =? 160) || (c =? 5760)
   || (8192 <=? c) && (c <=? 8202) || (c =? 8232) || (c =? 8233)
   || (c =? 8239) || (c =? 8287) || (c =? 12288) || (c =? 65279))%N.

Fixpoint dropWhile (p : jschar -> bool) (s : jsstring) : jsstring :=
  match s with
  | [] => []
  | c :: r => if p c then dropWhile p r else s
  end.

Definition trimStart (s : jsstring) : jsstring := dropWhile is_space s.
Definition trimEnd (s : jsstring) : jsstring := rev (dropWhile is_space (rev s)).

(** [s.trim()] *)
Definition trim (s : jsstring) : jsstring := trimEnd (trimStart s).

(** ** Searching *)

(** [s.startsWith(c)] for a one-unit string [c] *)
Definition startsWith (s : jsstring) (c : jschar) : bool :=
  match s with
  | [] => false
  | c' :: _ => (c' =? c)%N
  end.

(** [s.endsWith(c)] for a one-unit string [c] *)
Definition endsWith (s : jsstring) (c : jschar) : bool :=
  match rev s with
  | [] => false
  | c' :: _ => (c' =? c)%N
  end.

(** Index of the first unit satisfying [p], or [-1]: what [s.search(/[...]/)]
    returns for a one-character class. *)
Fixpoint search (p : jschar -> bool) (s : jsstring) : Z :=
  match s with
  | [] => -1
  | c :: r =>
      if p c then 0
      else match search p r with
           | Zneg _ => -1
           | i => i + 1
           end
  end.

(** [s.lastIndexOf(c)] for a one-unit string [c]: index of the last
    occurrence, or [-1]. *)
Fixpoint lastIndexOf (s : jsstring) (c : jschar) : Z :=
  match s with
  | [] => -1
  | c' :: r =>
      match lastIndexOf r c with
      | Zneg _ => if (c' =? c)%N then 0 else -1
      | i => i + 1
      end
  end.

(** [s.substring(a)] and [s.substring(0, b)]; a negative argument counts
    as [0], one beyond the length as the length. *)
Definition substring_from (s : jsstring) (a : Z) : jsstring := skipn (Z.to_nat a) s.
Definition substring_to (s : jsstring) (b : Z) : jsstring := firstn (Z.to_nat b) s.

(** [pre] is a prefix of [s]. *)
Definition is_prefix (pre s : jsstring) : Prop := exists rest, s = pre ++ rest.

(** Whether [s] begins with the units of [pat]; on success, what follows. *)
Fixpoint strip_prefix (pat s : jsstring) : option jsstring :=
  match pat with
  | [] => Some s
  | p :: pat' =>
      match s with
      | [] => None
      | c :: r => if (c =? p)%N then strip_prefix pat' r else None
      end
  end.

(** Whether the units of [pat] occur in [s] as a contiguous block. *)
Fixpoint contains (pat s : jsstring) : bool :=
  match strip_prefix pat s with
  | Some _ => true
  | None => match s with
            | [] => false
            | _ :: r => contains pat r
            end
  end.

End JsStr.

(* ===================================================================== *)
(** * Completions: a value or a thrown exception                          *)
(* ===================================================================== *)

Inductive error : Type := SyntaxError | TypeError.

Inductive completion (A : Type) : Type :=
| Normal (a : A)
| Throw (e : error).

Arguments Normal {A} a.
Arguments Throw {A} e.

Definition bind {A B : Type} (c : completion A) (k : A -> completion B) : completion B :=
  match c with
  | Normal a => k a
  | Throw e => Throw e
  end.

Notation "'do' x <- c ;; k" := (bind c (fun x => k))
  (at level 10, x name, c at level 100, k at level 200).

(** [try { body } catch { handler }] *)
Definition try_catch {A : Type} (body : completion A) (handler : completion A) : completion A :=
  match body with
  | Normal a => Normal a
  | Throw _ => handler
  end.

(* ===================================================================== *)
(** * JSON.parse                                                          *)
(* ===================================================================== *)

Module Json.
Import JsStr.

(** A parsed JSON text.  An object keeps its members in source order; a
    number keeps the exact value of its literal (the engine then rounds it
    to the nearest double, which no function below depends on). *)
#[warnings="-register-all"]
Inductive json : Type :=
| JNull
| JBool (b : bool)
| JNumber (q : Q)
| JString (s : jsstring)
| JArray (items : list json)
| JObject (members : list (jsstring * json)).

(** JSON white space: space, tab, line feed, carriage return. *)
Definition is_json_ws (c : jschar) : bool :=
  ((c =? 32) || (c =? 9) || (c =? 10) || (c =? 13))%N.

Definition skip_ws (s : jsstring) : jsstring := dropWhile is_json_ws s.

Definition is_digit (c : jschar) : bool := ((48 <=? c) && (c <=? 57))%N.

Fixpoint take_digits (s : jsstring) : jsstring * jsstring :=
  match s with
  | [] => ([], [])
  | c :: r =>
      if is_digit c
      then let (ds, rest) := take_digits r in (c :: ds, rest)
      else ([], s)
  end.

Definition digits_value (ds : jsstring) : Z :=
  fold_left (fun acc c => 10 * acc + (Z.of_N c - 48))%Z ds 0%Z.

(** [m * 10^e] as a reduced fraction. *)
Definition decimal (m e : Z) : Q :=
  Qred (if (0 <=? e)%Z then inject_Z (m * 10 ^ e)
        else Qmake m (Z.to_pos (10 ^ (- e)))).

(** A number literal: an optional minus sign; an integer part that is
    either a single zero or a non-zero digit followed by digits; an optional
    fraction (a dot and at least one digit); an optional exponent (e or E,
    an optional sign, at least one digit). *)
Definition number_sign (s : jsstring) : bool * jsstring :=
  match s with
  | c :: r => if (c =? ch_minus)%N then (true, r) else (false, s)
  | [] => (false, s)
  end.

Definition number_int (s : jsstring) : option (jsstring * jsstring) :=
  match s with
  | c :: r =>
      if (c =? 48)%N then Some ([c], r)
      else if is_digit c then Some (take_digits s)
      else None
  | [] => None
  end.

Definition number_frac (s : jsstring) : option (jsstring * jsstring) :=
  match s with
  | c :: r =>
      if (c =? ch_dot)%N
      then match take_digits r with
           | ([], _) => None
           | (fds, r') => Some (fds, r')
           end
      else Some ([], s)
  | [] => Some ([], s)
  end.

Definition exponent_sign (s : jsstring) : bool * jsstring :=
  match s with
  | c :: r =>
      if (c =? ch_minus)%N then (true, r)
      else if (c =? ch_plus)%N then (false, r)
      else (false, s)
  | [] => (false, s)
  end.

Definition number_exp (s : jsstring) : option (Z * jsstring) :=
  match s with
  | c :: r =>
      if ((c =? 101) || (c =? 69))%N
      then
        let (eneg, r1) := exponent_sign r in
        match take_digits r1 with
        | ([], _) => None
        | (eds, r2) =>
            Some ((if eneg then - digits_value eds else digits_value eds)%Z, r2)
        end
      else Some (0%Z, s)
  | [] => Some (0%Z, s)
  end.

Definition parse_number (s : jsstring) : option (Q * jsstring) :=
  let (neg, s1) := number_sign s in
  match number_int s1 with
  | None => None
  | Some (ids, s2) =>
      match number_frac s2 with
      | None => None
      | Some (fds, s3) =>
          match number_exp s3 with
          | None => None
          | Some (e, s4) =>
              let m := digits_value (ids ++ fds) in
              Some (decimal (if neg then - m else m)%Z (e - Z.of_nat (length fds)), s4)
          end
      end
  end.

Definition hex_value (c : jschar) : option N :=
  if is_digit c then Some (c - 48)%N
  else if ((97 <=? c) && (c <=? 102))%N then Some (c - 87)%N
  else if ((65 <=? c) && (c <=? 70))%N then Some (c - 55)%N
  else None.

Definition hex4 (a b c d : jschar) : option jschar :=
  match hex_value a, hex_value b, hex_value c, hex_value d with
  | Some x, Some y, Some z, Some w => Some (((x * 16 + y) * 16 + z) * 16 + w)%N
  | _, _, _, _ => None
  end.

(** The one-letter escapes: quote, backslash, slash, b, f, n, r, t. *)
Definition simple_escape (c : jschar) : option jschar :=
  if (c =? ch_quote)%N then Some ch_quote
  else if (c =? ch_backslash)%N then Some ch_backslash
  else if (c =? ch_slash)%N then Some ch_slash
  else if (c =? 98)%N then Some 8%N
  else if (c =? 102)%N then Some 12%N
  else if (c =? 110)%N then Some 10%N
  else if (c =? 114)%N then Some 13%N
  else if (c =? 116)%N then Some 9%N
  else None.

(** The rest of a string literal, after its opening quote: the decoded
    units and what follows the closing quote. *)
Fixpoint parse_string (s : jsstring) : option (jsstring * jsstring) :=
  match s with
  | [] => None
  | c :: r =>
      if (c =? ch_quote)%N then Some ([], r)
      else if (c =? ch_backslash)%N then
        match r with
        | [] => None
        | e :: r1 =>
            if (e =? 117)%N then
              match r1 with
              | h1 :: h2 :: h3 :: h4 :: r2 =>
                  match hex4 h1 h2 h3 h4, parse_string r2 with
                  | Some u, Some (str, rest) => Some (u :: str, rest)
                  | _, _ => None
                  end
              | _ => None
              end
            else
              match simple_escape e, parse_string r1 with
              | Some u, Some (str, rest) => Some (u :: str, rest)
              | _, _ => None
              end
        end
      else if (c <? 32)%N then None
      else match parse_string r with
           | Some (str, rest) => Some (c :: str, rest)
           | None => None
           end
  end.

(** Outcome of a parsing function: a value and the unread input, a syntax
    error, or recursion budget exhausted (shown below never to happen with
    the budget [JSON_parse] gives). *)
Inductive pres (A : Type) : Type :=
| POk (a : A) (rest : jsstring)
| PSyntax
| PFuel.

Arguments POk {A} a rest.
Arguments PSyntax {A}.
Arguments PFuel {A}.

Definition literal (word : jsstring) (v : json) (s : jsstring) : pres json :=
  match strip_prefix word s with
  | Some rest => POk v rest
  | None => PSyntax
  end.

(** [parse_value] reads one value at the head of [s] (no leading white
    space); [parse_elements] reads [value (, value)* ]] after an opening
    bracket; [parse_members] reads [string : value (, string : value)* }]
    after an opening brace. *)
Fixpoint parse_value (fuel : nat) (s : jsstring) {struct fuel} : pres json :=
  match fuel with
  | O => PFuel
  | S f =>
      match s with
      | [] => PSyntax
      | c :: r =>
          if (c =? ch_lbrace)%N then
            match skip_ws r with
            | c' :: r' =>
                if (c' =? ch_rbrace)%N then POk (JObject []) r'
                else match parse_members f (c' :: r') with
                     | POk ms rest => POk (JObject ms) rest
                     | PSyntax => PSyntax
                     | PFuel => PFuel
                     end
            | [] => PSyntax
            end
          else if (c =? ch_lbracket)%N then
            match skip_ws r with
            | c' :: r' =>
                if (c' =? ch_rbracket)%N then POk (JArray []) r'
                else match parse_elements f (c' :: r') with
                     | POk vs rest => POk (JArray vs) rest
                     | PSyntax => PSyntax
                     | PFuel => PFuel
                     end
            | [] => PSyntax
            end
          else if (c =? ch_quote)%N then
            match parse_string r with
            | Some (str, rest) => POk (JString str) rest
            | None => PSyntax
            end
          else if (c =? ch_minus)%N || is_digit c then
            match parse_number s with
            | Some (q, rest) => POk (JNumber q) rest
            | None => PSyntax
            end
          else if (c =? 116)%N then literal (js "true") (JBool true) s
          else if (c =? 102)%N then literal (js "false") (JBool false) s
          else if (c =? 110)%N then literal (js "null") JNull s
          else PSyntax
      end
  end

with parse_elements (fuel : nat) (s : jsstring) {struct fuel} : pres (list json) :=
  match fuel with
  | O => PFuel
  | S f =>
      match parse_value f (skip_ws s) with
      | POk v rest =>
          match skip_ws rest with
          | c :: r =>
              if (c =? ch_comma)%N then
                match parse_elements f r with
                | POk vs rest' => POk (v :: vs) rest'
                | PSyntax => PSyntax
                | PFuel => PFuel
                end
              else if (c =? ch_rbracket)%N then POk [v] r
              else PSyntax
          | [] => PSyntax
          end
      | PSyntax => PSyntax
      | PFuel => PFuel
      end
  end

with parse_members (fuel : nat) (s : jsstring) {struct fuel} : pres (list (jsstring * json)) :=
  match fuel with
  | O => PFuel
  | S f =>
      match skip_ws s with
      | c :: r =>
          if (c =? ch_quote)%N then
            match parse_string r with
            | Some (key, rest) =>
                match skip_ws rest with
                | c1 :: r1 =>
                    if (c1 =? ch_colon)%N then
                      match parse_value f (skip_ws r1) with
                      | POk v rest1 =>
                          match skip_ws rest1 with
                          | c2 :: r2 =>
                              if (c2 =? ch_comma)%N then
                                match parse_members f r2 with
                                | POk ms rest2 => POk ((key, v) :: ms) rest2
                                | PSyntax => PSyntax
                                | PFuel => PFuel
                                end
                              else if (c2 =? ch_rbrace)%N then POk [(key, v)] r2
                              else PSyntax
                          | [] => PSyntax
                          end
                      | PSyntax => PSyntax
                      | PFuel => PFuel
                      end
                    else PSyntax
                | [] => PSyntax
                end
            | None => PSyntax
            end
          else PSyntax
      | [] => PSyntax
      end
  end.

(** Budget for a text of the given length: [parse_elements] and
    [parse_members] spend one unit before reading anything, [parse_value]
    one per unit read. *)
Definition budget (s : jsstring) : nat := S (S (2 * length s)).

(** [JSON.parse(text)]: the value, or a thrown [SyntaxError]. *)
Definition JSON_parse (text : jsstring) : completion json :=
  match parse_value (budget text) (skip_ws text) with
  | POk v rest =>
      match skip_ws rest with
      | [] => Normal v
      | _ :: _ => Throw SyntaxError
      end
  | PSyntax => Throw SyntaxError
  | PFuel => Throw SyntaxError
  end.

(** [text] is valid JSON. *)
Definition valid_json (text : jsstring) : Prop :=
  exists v, JSON_parse text = Normal v.

(** [rest] is what is left of [s] after a non-empty part was read. *)
Definition consumed (s rest : jsstring) : Prop :=
  exists pre, pre <> [] /\ s = pre ++ rest.

(** [rest] is what is left of [s] after a part ending in [c] was read. *)
Definition closed_by (c : jschar) (s rest : jsstring) : Prop :=
  exists pre, s = pre ++ c :: rest.

(** What a successful parse has read: a value that opens with a brace
    ends with the matching brace, one that opens with a bracket ends with
    the matching bracket. *)
Definition value_shape (s rest : jsstring) : Prop :=
  consumed s rest
  /\ (startsWith s ch_lbrace = true -> closed_by ch_rbrace s rest)
  /\ (startsWith s ch_lbracket = true -> closed_by ch_rbracket s rest).

End Json.

(* ===================================================================== *)
(** * The response sanitizer and the truncation repairer                  *)
(* ===================================================================== *)

Module Sanitizer.
Import JsStr Json.

(** ** The fence expression

    [cleaned.match(/```(?:json)?\s*\n?([\s\S]*?)\n?```/)].  The expression
    is not global, so the match is the leftmost one.  After the opening
    fence the optional tag and [\s*] are greedy, and neither can hold a
    backtick, so giving characters back never uncovers a closing fence that
    the greedy choice misses; [\n?] after [\s*] is then empty.  The group is
    lazy: it ends at the first position where a line feed and a fence, or a
    fence, begin.  When the leftmost opening fence has no closing fence, no
    later one has, and the match fails. *)

Definition fence : jsstring := [ch_backtick; ch_backtick; ch_backtick].

(** What follows the leftmost fence of [s]. *)
Fixpoint after_fence (s : jsstring) : option jsstring :=
  match strip_prefix fence s with
  | Some r => Some r
  | None => match s with
            | [] => None
            | _ :: r => after_fence r
            end
  end.

(** [(?:json)?] *)
Definition skip_tag (s : jsstring) : jsstring :=
  match strip_prefix (js "json") s with
  | Some r => r
  | None => s
  end.

(** [([\s\S]*?)\n?```]: the group. *)
Fixpoint capture_until_close (s : jsstring) : option jsstring :=
  match strip_prefix (ch_lf :: fence) s with
  | Some _ => Some []
  | None =>
      match strip_prefix fence s with
      | Some _ => Some []
      | None =>
          match s with
          | [] => None
          | c :: r => option_map (cons c) (capture_until_close r)
          end
      end
  end.

(** Group 1 of the match, or [None] when the expression does not match. *)
Definition codeBlockMatch (cleaned : jsstring) : option jsstring :=
  match after_fence cleaned with
  | None => None
  | Some r => capture_until_close (dropWhile is_space (skip_tag r))
  end.

(** ** tryRepairTruncatedJson *)

(** Step 1, the loop over [repaired[i]]: [inString] flips on every quote
    whose predecessor is not a backslash.  [lastCharBeforeEnd] starts as the
    empty string, here [None]. *)
Fixpoint scan_quotes (s : jsstring) (inString : bool) (lastCharBeforeEnd : option jschar) : bool :=
  match s with
  | [] => inString
  | ch :: r =>
      let not_escaped :=
        match lastCharBeforeEnd with
        | Some l => negb (l =? ch_backslash)%N
        | None => true
        end in
      scan_quotes r
        (if (ch =? ch_quote)%N && not_escaped then negb inString else inString)
        (Some ch)
  end.

Definition not_quote (c : jschar) : bool := negb (c =? ch_quote)%N.

(** A run of units other than the quote, then a quote: what follows it. *)
Fixpoint after_next_quote (s : jsstring) : option jsstring :=
  match s with
  | [] => None
  | c :: r => if (c =? ch_quote)%N then Some r else after_next_quote r
  end.

(** Whether [r], in full, is: white space, a quoted key (a quote, units
    other than the quote, a quote), white space, a colon, white space, and
    then either nothing or a quote followed by units other than the quote.
    This is the part after the comma of the first expression of step 2.
    Every starred class there is followed by a character outside the class,
    so only its longest match can succeed. *)
Definition dangling_tail (r : jsstring) : bool :=
  match dropWhile is_space r with
  | c :: r1 =>
      (c =? ch_quote)%N &&
      match after_next_quote r1 with
      | Some r2 =>
          match dropWhile is_space r2 with
          | c2 :: r3 =>
              (c2 =? ch_colon)%N &&
              match dropWhile is_space r3 with
              | [] => true
              | c3 :: r4 => (c3 =? ch_quote)%N && forallb not_quote r4
              end
          | [] => false
          end
      | None => false
      end
  | [] => false
  end.

(** [s.replace(re, '')] for an expression [re] made of a comma and a tail
    anchored at the end of the string: the leftmost comma whose remainder
    matches the tail is cut off together with the remainder. *)
Fixpoint cut_at_comma (tail : jsstring -> bool) (s : jsstring) : jsstring :=
  match s with
  | [] => []
  | c :: r =>
      if (c =? ch_comma)%N && tail r then []
      else c :: cut_at_comma tail r
  end.

(** Step 3, the loop [for (const ch of repaired)]. *)
Record scan : Type := mkScan {
  stack : list jschar;    (* top of the stack first *)
  inStr : bool;
  escape : bool
}.

Definition scan_step (st : scan) (ch : jschar) : scan :=
  if escape st then mkScan (stack st) (inStr st) false
  else if (ch =? ch_backslash)%N && inStr st then mkScan (stack st) (inStr st) true
  else if (ch =? ch_quote)%N then mkScan (stack st) (negb (inStr st)) (escape st)
  else if inStr st then st
  else if (ch =? ch_lbrace)%N then mkScan (ch_rbrace :: stack st) (inStr st) (escape st)
  else if (ch =? ch_lbracket)%N then mkScan (ch_rbracket :: stack st) (inStr st) (escape st)
  else if (ch =? ch_rbrace)%N || (ch =? ch_rbracket)%N then
    match stack st with
    | top :: below =>
        if (top =? ch)%N then mkScan below (inStr st) (escape st) else st
    | [] => st
    end
  else st.

Definition unclosed (repaired : jsstring) : list jschar :=
  stack (fold_left scan_step repaired (mkScan [] false false)).

Definition tryRepairTruncatedJson (text : jsstring) : jsstring :=
  let repaired := text in
  let inString := scan_quotes repaired false None in
  let repaired := if inString then repaired ++ [ch_quote] else repaired in
  let repaired := cut_at_comma dangling_tail repaired in
  let repaired := cut_at_comma (forallb is_space) repaired in
  (* popping the stack until it is empty appends it top first *)
  repaired ++ unclosed repaired.

(** ** cleanJsonResponse *)

Definition is_open (c : jschar) : bool := ((c =? ch_lbracket) || (c =? ch_lbrace))%N.

Definition strip_fence (cleaned : jsstring) : jsstring :=
  match codeBlockMatch cleaned with
  | Some inner => trim inner
  | None => cleaned
  end.

Definition drop_leading_prose (cleaned : jsstring) : jsstring :=
  if negb (startsWith cleaned ch_lbrace) && negb (startsWith cleaned ch_lbracket) then
    let jsonStart := search is_open cleaned in
    if negb (jsonStart =? -1)%Z then substring_from cleaned jsonStart else cleaned
  else cleaned.

Definition drop_trailing_prose (cleaned : jsstring) : jsstring :=
  if negb (endsWith cleaned ch_rbrace) && negb (endsWith cleaned ch_rbracket) then
    let lastBrace := Z.max (lastIndexOf cleaned ch_rbrace) (lastIndexOf cleaned ch_rbracket) in
    if negb (lastBrace =? -1)%Z then substring_to cleaned (lastBrace + 1) else cleaned
  else cleaned.

Definition cleanJsonResponse (text : jsstring) : completion jsstring :=
  let cleaned := trim text in
  let cleaned := strip_fence cleaned in
  let cleaned := drop_leading_prose cleaned in
  let cleaned := drop_trailing_prose cleaned in
  try_catch
    (do _ <- JSON_parse cleaned ;; Normal cleaned)
    (Normal (tryRepairTruncatedJson cleaned)).

(** A closing character: the quote, the right brace or the right bracket. *)
Definition is_closer (c : jschar) : Prop :=
  c = ch_quote \/ c = ch_rbrace \/ c = ch_rbracket.

Definition is_close (c : jschar) : bool := ((c =? ch_rbrace) || (c =? ch_rbracket))%N.

(** No brace and no bracket anywhere in [s]. *)
Definition bracket_free (s : jsstring) : bool :=
  forallb (fun c => negb (is_open c || is_close c)) s.

End Sanitizer.

(* ===================================================================== *)
(** * JavaScript numbers                                                  *)
(* ===================================================================== *)

Module JsNum.
Import JsStr.

(** A Number value.  [Fin q] is the double whose value is the rational
    [q]; the two zeros are not told apart (no operation used below
    separates them once [Math.max(0, _)] has been applied, and before that
    both are falsy).  Arithmetic on [Fin] is exact.  The code below
    multiplies by two and halves doubles between 0 and 5, and adds and
    subtracts multiples of one half no larger than 15: on those the IEEE
    operations are exact too. *)
Inductive num : Type :=
| NaN
| PosInf
| NegInf
| Fin (q : Q).

Definition zero : num := Fin 0.

(** Same Number value (what [Object.is] tests, up to the sign of zero). *)
Definition same (a b : num) : Prop :=
  match a, b with
  | NaN, NaN => True
  | PosInf, PosInf => True
  | NegInf, NegInf => True
  | Fin p, Fin q => p == q
  | _, _ => False
  end.

Definition sameb (a b : num) : bool :=
  match a, b with
  | NaN, NaN => true
  | PosInf, PosInf => true
  | NegInf, NegInf => true
  | Fin p, Fin q => Qeq_bool p q
  | _, _ => false
  end.

Definition is_finite (a : num) : bool :=
  match a with
  | Fin _ => true
  | _ => false
  end.

(** [a + b] *)
Definition add (a b : num) : num :=
  match a, b with
  | NaN, _ | _, NaN => NaN
  | PosInf, NegInf | NegInf, PosInf => NaN
  | PosInf, _ | _, PosInf => PosInf
  | NegInf, _ | _, NegInf => NegInf
  | Fin p, Fin q => Fin (p + q)
  end.

Definition neg (a : num) : num :=
  match a with
  | NaN => NaN
  | PosInf => NegInf
  | NegInf => PosInf
  | Fin p => Fin (- p)
  end.

(** [a - b] *)
Definition sub (a b : num) : num := add a (neg b).

(** [a * k] and [a / k] for a positive finite constant [k]. *)
Definition scale (a : num) (k : Q) : num :=
  match a with
  | Fin p => Fin (p * k)
  | other => other
  end.

Definition unscale (a : num) (k : Q) : num :=
  match a with
  | Fin p => Fin (p / k)
  | other => other
  end.

(** [Math.round(a)]: the nearest integer, a tie going up. *)
Definition Math_round (a : num) : num :=
  match a with
  | Fin p => Fin (inject_Z (Qfloor (p + (1 # 2))))
  | other => other
  end.

(** [a < b], [a <= b], [a > b], [a >= b]: false as soon as one side is NaN. *)
Definition lt (a b : num) : bool :=
  match a, b with
  | NaN, _ | _, NaN => false
  | _, NegInf => false
  | NegInf, _ => true
  | PosInf, _ => false
  | _, PosInf => true
  | Fin p, Fin q => negb (Qle_bool q p)
  end.

Definition le (a b : num) : bool :=
  match a, b with
  | NaN, _ | _, NaN => false
  | NegInf, _ => true
  | _, NegInf => false
  | _, PosInf => true
  | PosInf, _ => false
  | Fin p, Fin q => Qle_bool p q
  end.

Definition gt (a b : num) : bool := lt b a.
Definition ge (a b : num) : bool := le b a.

(** [a !== b] on Numbers: true as soon as one side is NaN. *)
Definition strict_ne (a b : num) : bool :=
  match a, b with
  | NaN, _ | _, NaN => true
  | _, _ => negb (sameb a b)
  end.

(** [Math.min(a, b)] and [Math.max(a, b)]: NaN as soon as one side is. *)
Definition Math_min (a b : num) : num :=
  match a, b with
  | NaN, _ | _, NaN => NaN
  | _, _ => if le a b then a else b
  end.

Definition Math_max (a b : num) : num :=
  match a, b with
  | NaN, _ | _, NaN => NaN
  | _, _ => if le b a then a else b
  end.

(** ** Reading a Number from a string

    [Number(s)] on a string: white space is stripped from both ends; the
    empty string is 0; then a hexadecimal, octal or binary integer with its
    0x, 0o or 0b prefix, or a signed decimal literal or Infinity; anything
    else is NaN.  The value of the literal is rounded to the nearest
    double, a tie going to the even significand. *)

Definition round_half_even (x : Q) : Z :=
  let f := Qfloor x in
  let r := x - inject_Z f in
  if Qle_bool r (1 # 2)
  then if Qle_bool (1 # 2) r
       then (if Z.even f then f else f + 1)%Z
       else f
  else (f + 1)%Z.

Definition pow2 (e : Z) : Q := Qpower 2 e.

Definition round_double (q : Q) : num :=
  if Qeq_bool q 0 then Fin 0
  else
    let a := Qabs q in
    let k := (Z.log2 (Qnum a) - Z.log2 (Zpos (Qden a)))%Z in
    let e := if Qle_bool (pow2 k) a then k else (k - 1)%Z in
    let ulp := pow2 (Z.max (e - 52) (-1074)) in
    let r := Qred (inject_Z (round_half_even (a / ulp)) * ulp) in
    if Qle_bool (pow2 1024) r
    then (if Qle_bool 0 q then PosInf else NegInf)
    else Fin (if Qle_bool 0 q then r else - r).

Definition is_digit (c : jschar) : bool := ((48 <=? c) && (c <=? 57))%N.

Definition digit_in_base (base : N) (c : jschar) : option N :=
  let v :=
    if is_digit c then Some (c - 48)%N
    else if ((97 <=? c) && (c <=? 102))%N then Some (c - 87)%N
    else if ((65 <=? c) && (c <=? 70))%N then Some (c - 55)%N
    else None in
  match v with
  | Some d => if (d <? base)%N then Some d else None
  | None => None
  end.

(** The value of a non-empty run of digits of the base that makes up all of
    [s]. *)
Fixpoint digits_in_base (base : N) (acc : N) (s : jsstring) : option N :=
  match s with
  | [] => Some acc
  | c :: r =>
      match digit_in_base base c with
      | Some d => digits_in_base base (acc * base + d)%N r
      | None => None
      end
  end.

Definition non_decimal (s : jsstring) : option N :=
  match s with
  | z :: x :: d :: r =>
      if (z =? 48)%N then
        if ((x =? 120) || (x =? 88))%N then digits_in_base 16 0 (d :: r)
        else if ((x =? 111) || (x =? 79))%N then digits_in_base 8 0 (d :: r)
        else if ((x =? 98) || (x =? 66))%N then digits_in_base 2 0 (d :: r)
        else None
      else None
  | _ => None
  end.

Fixpoint take_digits (s : jsstring) : jsstring * jsstring :=
  match s with
  | [] => ([], [])
  | c :: r =>
      if is_digit c
      then let (ds, rest) := take_digits r in (c :: ds, rest)
      else ([], s)
  end.

Definition digits_value (ds : jsstring) : Z :=
  fold_left (fun acc c => 10 * acc + (Z.of_N c - 48))%Z ds 0%Z.

Definition pow10 (m e : Z) : Q :=
  if (0 <=? e)%Z then inject_Z (m * 10 ^ e)
  else Qmake m (Z.to_pos (10 ^ (- e))).

(** An unsigned decimal literal that makes up all of [s]: digits with an
    optional fraction, or a dot and digits, then an optional exponent. *)
Definition unsigned_decimal (s : jsstring) : option Q :=
  let (ids, s1) := take_digits s in
  let (fds, s2) :=
    match s1 with
    | c :: r => if (c =? ch_dot)%N then take_digits r else ([], s1)
    | [] => ([], s1)
    end in
  match ids, fds with
  | [], [] => None
  | _, _ =>
      let mantissa := digits_value (ids ++ fds) in
      let shift := Z.of_nat (length fds) in
      match s2 with
      | [] => Some (pow10 mantissa (- shift))
      | c :: r =>
          if ((c =? 101) || (c =? 69))%N then
            let (eneg, r1) :=
              match r with
              | c' :: r' =>
                  if (c' =? ch_minus)%N then (true, r')
                  else if (c' =? ch_plus)%N then (false, r')
                  else (false, r)
              | [] => (false, r)
              end in
            match take_digits r1 with
            | ((_ :: _) as eds, []) =>
                let e := digits_value eds in
                Some (pow10 mantissa ((if eneg then - e else e) - shift))
            | _ => None
            end
          else None
      end
  end.

Definition signed_decimal (s : jsstring) : num :=
  let (negative, body) :=
    match s with
    | c :: r =>
        if (c =? ch_minus)%N then (true, r)
        else if (c =? ch_plus)%N then (false, r)
        else (false, s)
    | [] => (false, s)
    end in
  match strip_prefix (js "Infinity") body with
  | Some [] => if negative then NegInf else PosInf
  | _ =>
      match unsigned_decimal body with
      | Some q => round_double (if negative then - q else q)
      | None => NaN
      end
  end.

Definition StringToNumber (s : jsstring) : num :=
  match trim s with
  | [] => Fin 0
  | t =>
      match non_decimal t with
      | Some n => round_double (inject_Z (Z.of_N n))
      | None => signed_decimal t
      end
  end.

End JsNum.

(* ===================================================================== *)
(** * The score normalisation block of gradeEssay                         *)
(* ===================================================================== *)

Module Normalizer.
Import JsStr JsNum.

(** ** The values a parsed response can hold

    [step1Data] is the result of [JSON.parse]; a field of it is any JSON
    value, or [undefined] when it is missing. *)
#[warnings="-register-all"]
Inductive value : Type :=
| VUndefined
| VNull
| VBool (b : bool)
| VNumber (n : num)
| VString (s : jsstring)
| VArray (items : list value)
| VObject (members : list (jsstring * value)).

(** Truthiness, for [x || 0]. *)
Definition truthy (v : value) : bool :=
  match v with
  | VUndefined | VNull => false
  | VBool b => b
  | VNumber NaN => false
  | VNumber (Fin q) => negb (Qeq_bool q 0)
  | VNumber _ => true
  | VString [] => false
  | VString _ => true
  | VArray _ | VObject _ => true
  end.

(** [a || b] *)
Definition or_else (a b : value) : value := if truthy a then a else b.

Fixpoint jsstring_eqb (a b : jsstring) : bool :=
  match a, b with
  | [], [] => true
  | x :: a', y :: b' => (x =? y)%N && jsstring_eqb a' b'
  | _, _ => false
  end.

Definition has_own (key : jsstring) (members : list (jsstring * value)) : bool :=
  existsb (fun kv => jsstring_eqb (fst kv) key) members.

(** Whether converting [v] to a string throws.  A parsed object inherits
    [toString] from [Object.prototype] unless it has an own member of that
    name; an own member is a JSON value, never a function, and then no
    conversion method is left and a [TypeError] is thrown.  An array joins
    the strings of its items. *)
Fixpoint ToString_throws (v : value) : bool :=
  match v with
  | VObject members => has_own (js "toString") members
  | VArray items => existsb ToString_throws items
  | _ => false
  end.

(** The Number read back from the string of an array item: the item of a
    one-item array contributes its own string, where [null] and
    [undefined] give the empty string, a Number gives a literal that reads
    back as itself, and a plain object gives [[object Object]]. *)
Fixpoint item_number (v : value) : num :=
  match v with
  | VUndefined | VNull => Fin 0
  | VBool _ => NaN
  | VNumber n => n
  | VString s => StringToNumber s
  | VArray [] => Fin 0
  | VArray [x] => item_number x
  | VArray _ => NaN              (* the joined string holds a comma *)
  | VObject _ => NaN
  end.

(** [Number(v)] *)
Definition Number (v : value) : completion num :=
  match v with
  | VUndefined => Normal NaN
  | VNull => Normal (Fin 0)
  | VBool b => Normal (Fin (if b then 1 else 0))
  | VNumber n => Normal n
  | VString s => Normal (StringToNumber s)
  | VArray _ | VObject _ =>
      if ToString_throws v then Throw TypeError else Normal (item_number v)
  end.

(** ** The block itself *)

Definition clamp (v min max : num) : num := Math_max min (Math_min max v).

Definition roundHalf (v : num) : num := unscale (Math_round (scale v 2)) 2.

Inductive dim : Type := Content | Organization | Proficiency | Clarity.

Definition dims : list dim := [Content; Organization; Proficiency; Clarity].

(** The table [max]. *)
Definition max (d : dim) : num :=
  match d with
  | Content => Fin 4
  | Organization => Fin 3
  | Proficiency => Fin 5
  | Clarity => Fin 3
  end.

Record SubScores : Type := mkSubScores {
  content : num;
  organization : num;
  proficiency : num;
  clarity : num
}.

(** [subScores[d]] and [subScores[d] = v] *)
Definition get (s : SubScores) (d : dim) : num :=
  match d with
  | Content => content s
  | Organization => organization s
  | Proficiency => proficiency s
  | Clarity => clarity s
  end.

Definition set (s : SubScores) (d : dim) (v : num) : SubScores :=
  match d with
  | Content => mkSubScores v (organization s) (proficiency s) (clarity s)
  | Organization => mkSubScores (content s) v (proficiency s) (clarity s)
  | Proficiency => mkSubScores (content s) (organization s) v (clarity s)
  | Clarity => mkSubScores (content s) (organization s) (proficiency s) v
  end.

(** What the block reads of [step1Data]: the four members of [subScores]
    and [issueOverview.critical]. *)
Record Step1Data : Type := mkStep1Data {
  raw_content : value;
  raw_organization : value;
  raw_proficiency : value;
  raw_clarity : value;
  critical : value
}.

(** What the block leaves in [step1Data]. *)
Record Graded : Type := mkGraded {
  subScores : SubScores;
  totalScore : num
}.

Definition sum4 (s : SubScores) : num :=
  add (add (add (content s) (organization s)) (proficiency s)) (clarity s).

(** The clamped and rounded scores and their total. *)
Definition base_scores (d : Step1Data) : completion Graded :=
  do nc <- Number (or_else (raw_content d) (VNumber (Fin 0))) ;;
  let c := roundHalf (clamp nc (Fin 0) (Fin 4)) in
  do no <- Number (or_else (raw_organization d) (VNumber (Fin 0))) ;;
  let o := roundHalf (clamp no (Fin 0) (Fin 3)) in
  do np <- Number (or_else (raw_proficiency d) (VNumber (Fin 0))) ;;
  let p := roundHalf (clamp np (Fin 0) (Fin 5)) in
  do ncl <- Number (or_else (raw_clarity d) (VNumber (Fin 0))) ;;
  let cl := roundHalf (clamp ncl (Fin 0) (Fin 3)) in
  Normal (mkGraded (mkSubScores c o p cl)
                   (roundHalf (add (add (add c o) p) cl))).

(** [Array.isArray(critical) ? critical.length : 0] *)
Definition criticalCount (d : Step1Data) : nat :=
  match critical d with
  | VArray items => length items
  | _ => 0%nat
  end.

(** The comparison function handed to [sort]. *)
Definition compare_dims (s : SubScores) (a b : dim) : num :=
  let roomA := sub (max a) (get s a) in
  let roomB := sub (max b) (get s b) in
  if strict_ne roomB roomA then sub roomB roomA
  else sub (get s a) (get s b).

(** [Array.prototype.sort] is stable, and with a consistent comparison
    function its result is the one stable arrangement: an item stays in
    front of a later one unless the function, called on the two, is
    positive.  Insertion gives that arrangement. *)
Fixpoint insert (cmp : dim -> dim -> num) (x : dim) (sorted : list dim) : list dim :=
  match sorted with
  | [] => [x]
  | y :: rest =>
      if gt (cmp x y) (Fin 0) then y :: insert cmp x rest
      else x :: sorted
  end.

Fixpoint sort (cmp : dim -> dim -> num) (l : list dim) : list dim :=
  match l with
  | [] => []
  | x :: rest => insert cmp x (sort cmp rest)
  end.

Definition Math_min3 (a b c : num) : num := Math_min (Math_min a b) c.

(** One [for (const d of order)] loop: the scores and what is left of the
    bonus. *)
Fixpoint distribute (order : list dim) (s : SubScores) (bonus : num) : SubScores * num :=
  match order with
  | [] => (s, bonus)
  | d :: rest =>
      if le bonus (Fin 0) then (s, bonus)
      else
        let room := roundHalf (sub (max d) (get s d)) in
        let add_ := Math_min3 room bonus (Fin (1 # 2)) in
        if gt add_ (Fin 0)
        then distribute rest (set s d (roundHalf (add (get s d) add_)))
                        (roundHalf (sub bonus add_))
        else distribute rest s bonus
  end.

(** The calibration: lines from [criticalCount] to the second total. *)
Definition calibrate (count : nat) (g : Graded) : Graded :=
  if ge (totalScore g) (Fin 6) && le (totalScore g) (Fin 14) && (count <=? 2)%nat then
    let bonus := Fin 1 in
    let order := sort (compare_dims (subScores g)) dims in
    let (s1, bonus1) := distribute order (subScores g) bonus in
    let (s2, _) :=
      if gt bonus1 (Fin 0) then distribute order s1 bonus1 else (s1, bonus1) in
    mkGraded s2 (roundHalf (sum4 s2))
  else g.

Definition normalize (d : Step1Data) : completion Graded :=
  do g <- base_scores d ;;
  Normal (calibrate (criticalCount d) g).

End Normalizer.

(* ===================================================================== *)
(** * Half points: the finite space of normalised scores                  *)
(* ===================================================================== *)

Module Grid.
Import JsStr JsNum Normalizer.

(** [k] half points. *)
Definition half (k : Z) : num := Fin (k # 2).

(** The number of half points in the maximum of a dimension. *)
Definition max_halves (d : dim) : Z :=
  match d with
  | Content => 8
  | Organization => 6
  | Proficiency => 10
  | Clarity => 6
  end.

Definition grid_scores (kc ko kp kcl : Z) : SubScores :=
  mkSubScores (half kc) (half ko) (half kp) (half kcl).

(** What [base_scores] returns when the four rounded scores are
    [kc], [ko], [kp] and [kcl] half points. *)
Definition grid_base (kc ko kp kcl : Z) : Graded :=
  mkGraded (grid_scores kc ko kp kcl) (roundHalf (sum4 (grid_scores kc ko kp kcl))).

(** [0, 1, ..., n] *)
Definition upto (n : nat) : list Z := map Z.of_nat (seq 0 (S n)).

(** A check run on every point of the grid of base scores. *)
Definition on_grid (P : Z -> Z -> Z -> Z -> bool) : bool :=
  forallb (fun kc =>
    forallb (fun ko =>
      forallb (fun kp =>
        forallb (fun kcl => P kc ko kp kcl) (upto 6))
      (upto 10))
    (upto 6))
  (upto 8).

Definition dim_eqb (a b : dim) : bool :=
  match a, b with
  | Content, Content | Organization, Organization
  | Proficiency, Proficiency | Clarity, Clarity => true
  | _, _ => false
  end.

(** Whether the calibration fires, as the code tests it. *)
Definition bonus_due (count : nat) (g : Graded) : bool :=
  ge (totalScore g) (Fin 6) && le (totalScore g) (Fin 14) && (count <=? 2)%nat.

(** A score is a whole number of half points within its dimension. *)
Definition on_scale (d : dim) (v : num) : bool :=
  match v with
  | Fin (Qmake n 2) => (0 <=? n)%Z && (n <=? max_halves d)%Z
  | _ => false
  end.

(** What a dimension gained, and the headroom it had. *)
Definition gain (g0 g : Graded) (x : dim) : num :=
  sub (get (subScores g) x) (get (subScores g0) x).

Definition room (g0 : Graded) (x : dim) : num :=
  sub (max x) (get (subScores g0) x).

(** The checks, per grid point, behind the theorems on the calibration. *)
Definition check_scale (count : nat) (kc ko kp kcl : Z) : bool :=
  let g := calibrate count (grid_base kc ko kp kcl) in
  forallb (fun x => on_scale x (get (subScores g) x)) dims
  && sameb (totalScore g) (sum4 (subScores g)).

Definition check_total (kc ko kp kcl : Z) : bool :=
  let g0 := grid_base kc ko kp kcl in
  implb (bonus_due 0 g0)
        (sameb (totalScore (calibrate 0 g0)) (add (totalScore g0) (Fin 1))).

Definition check_gain (kc ko kp kcl : Z) : bool :=
  let g0 := grid_base kc ko kp kcl in
  let g := calibrate 0 g0 in
  implb (bonus_due 0 g0)
    (forallb (fun x =>
       (sameb (gain g0 g x) (Fin 0) || sameb (gain g0 g x) (Fin (1 # 2))
        || sameb (gain g0 g x) (Fin 1))
       && le (get (subScores g) x) (max x)
       && forallb (fun y =>
            implb (sameb (gain g0 g x) (Fin 1) && negb (dim_eqb y x))
                  (sameb (get (subScores g0) y) (max y))
            && implb (gt (gain g0 g x) (Fin 0) && sameb (gain g0 g y) (Fin 0))
                 (le (room g0 y) (room g0 x)
                  && implb (sameb (room g0 x) (room g0 y))
                       (le (get (subScores g0) x) (get (subScores g0) y))))
          dims)
     dims).

(** An input with four numeric scores and [n] critical issues. *)
Definition scored (c o p cl : Q) (n : nat) : Step1Data :=
  mkStep1Data (VNumber (Fin c)) (VNumber (Fin o)) (VNumber (Fin p)) (VNumber (Fin cl))
              (VArray (repeat VNull n)).

End Grid.

(* ===================================================================== *)
(** * More notions for the sanitizer                                     *)
(* ===================================================================== *)

Module SanitizerMore.
Import JsStr Json Sanitizer.

(** [mid] occurs in [text] as a contiguous block. *)
Definition is_substring (mid text : jsstring) : Prop :=
  exists pre post, text = pre ++ mid ++ post.

(** The state in which the loop of step 3 leaves [s]. *)
Definition scan_of (s : jsstring) : scan :=
  fold_left scan_step s (mkScan [] false false).

(** A bracket closer: the right brace or the right bracket. *)
Definition is_bracket_closer (c : jschar) : Prop := c = ch_rbrace \/ c = ch_rbracket.

(** What the loop of step 3 keeps true: the escape flag is only ever set
    inside a string, and the stack holds bracket closers only. *)
Definition scan_ok (st : scan) : Prop :=
  (escape st = true -> inStr st = true) /\ Forall is_bracket_closer (stack st).

Definition not_open (c : jschar) : bool := negb (is_open c).
Definition not_close (c : jschar) : bool := negb (is_close c).
Definition not_backtick (c : jschar) : bool := negb (c =? ch_backtick)%N.

(** No unit of [s] is a backtick. *)
Definition tick_free (s : jsstring) : bool := forallb not_backtick s.

End SanitizerMore.

(* ===================================================================== *)
(** * The request URL of callOpenAICompatible                             *)
(* ===================================================================== *)

Module Client.
Import JsStr.

Definition is_slash (c : jschar) : bool := (c =? ch_slash)%N.

(** [baseUrl.replace(re, '')] where [re] is one or more slashes anchored
    at the end of the string: the leftmost position from which only
    slashes follow is where the run of trailing slashes begins. *)
Fixpoint strip_trailing_slashes (s : jsstring) : jsstring :=
  match s with
  | [] => []
  | c :: r =>
      if is_slash c && forallb is_slash r then []
      else c :: strip_trailing_slashes r
  end.

(** The template literal that builds [url]. *)
Definition chat_completions_url (baseUrl : jsstring) : jsstring :=
  strip_trailing_slashes baseUrl ++ js "/chat/completions".

End Client.

(* ===================================================================== *)
(** * More checks on the grid of normalised scores                        *)
(* ===================================================================== *)

Module GridMore.
Import JsStr JsNum Normalizer Grid.

(** A total is a whole number of half points between 0 and 15. *)
Definition on_total_scale (v : num) : bool :=
  match v with
  | Fin (Qmake n 2) => (0 <=? n)%Z && (n <=? 30)%Z
  | _ => false
  end.

Definition check_total_scale (count : nat) (kc ko kp kcl : Z) : bool :=
  on_total_scale (totalScore (calibrate count (grid_base kc ko kp kcl))).

(** The calibration lowers nothing. *)
Definition check_raises (kc ko kp kcl : Z) : bool :=
  let g0 := grid_base kc ko kp kcl in
  let g := calibrate 0 g0 in
  forallb (fun x => le (get (subScores g0) x) (get (subScores g) x)) dims
  && le (totalScore g0) (totalScore g).

(** The input [d] with another list of critical issues. *)
Definition with_critical (d : Step1Data) (issues : value) : Step1Data :=
  mkStep1Data (raw_content d) (raw_organization d) (raw_proficiency d) (raw_clarity d)
              issues.

End GridMore.

(* ===================================================================== *)
(** * The score bands of the teacher dashboard                            *)
(* ===================================================================== *)

Module Dashboard.
Import JsStr JsNum Normalizer.

(** The band an essay row falls in: [const s = e.total_score || 0] and
    the chain of comparisons [s <= 5], [s <= 8], [s <= 11].  A comparison
    with a Number coerces [s] the way [Number] does. *)
Definition band_of (total_score : value) : completion nat :=
  let s := or_else total_score (VNumber (Fin 0)) in
  do n <- Number s ;;
  Normal (if le n (Fin 5) then 0%nat
          else if le n (Fin 8) then 1%nat
          else if le n (Fin 11) then 2%nat
          else 3%nat).

(** The colour of a total in the essay gallery, as an index into the same
    four colours: emerald from 12, blue from 9, amber from 6, rose below. *)
Definition tier_of (total_score : value) : completion nat :=
  let s := or_else total_score (VNumber (Fin 0)) in
  do n <- Number s ;;
  Normal (if ge n (Fin 12) then 3%nat
          else if ge n (Fin 9) then 2%nat
          else if ge n (Fin 6) then 1%nat
          else 0%nat).

(** Strictly between two neighbouring whole numbers where a band ends. *)
Definition between_bands (n : num) : bool :=
  (lt (Fin 5) n && lt n (Fin 6)) || (lt (Fin 8) n && lt n (Fin 9))
  || (lt (Fin 11) n && lt n (Fin 12)).

(** The band of a total of [k] half points. *)
Definition band_of_halves (k : Z) : nat :=
  if (k <=? 10)%Z then 0%nat
  else if (k <=? 16)%Z then 1%nat
  else if (k <=? 22)%Z then 2%nat
  else 3%nat.

(** The four counters, in the order of the array [bands]. *)
Record Bands : Type := mkBands {
  band_0_5 : nat;
  band_6_8 : nat;
  band_9_11 : nat;
  band_12_15 : nat
}.

(** [bands[i].count++] *)
Definition bump (b : Bands) (i : nat) : Bands :=
  match i with
  | 0%nat => mkBands (S (band_0_5 b)) (band_6_8 b) (band_9_11 b) (band_12_15 b)
  | 1%nat => mkBands (band_0_5 b) (S (band_6_8 b)) (band_9_11 b) (band_12_15 b)
  | 2%nat => mkBands (band_0_5 b) (band_6_8 b) (S (band_9_11 b)) (band_12_15 b)
  | _ => mkBands (band_0_5 b) (band_6_8 b) (band_9_11 b) (S (band_12_15 b))
  end.

(** The [essays.forEach] loop over the [total_score] of each row. *)
Fixpoint count_bands (scores : list value) (b : Bands) : completion Bands :=
  match scores with
  | [] => Normal b
  | s :: rest =>
      do i <- band_of s ;;
      count_bands rest (bump b i)
  end.

Definition score_distribution (scores : list value) : completion Bands :=
  count_bands scores (mkBands 0 0 0 0).

Definition counted (b : Bands) : nat :=
  (band_0_5 b + band_6_8 b + band_9_11 b + band_12_15 b)%nat.

(** What the database holds in a numeric column: a Number or null. *)
Definition is_numeric_cell (v : value) : bool :=
  match v with
  | VNumber _ | VNull => true
  | _ => false
  end.

End Dashboard.

(* ===================================================================== *)
(** * The JSON example of a response schema                               *)
(* ===================================================================== *)

Module SchemaExample.
Import JsStr Json.

(** The enumeration [Type] of the SDK. *)
Inductive SchemaType : Type :=
| TYPE_UNSPECIFIED | STRING | NUMBER | INTEGER | BOOLEAN | ARRAY | OBJECT | NULL.

(** The fields of a [Schema] that the function reads, each optional.
    [properties] lists the entries in the order [Object.entries] gives
    them.  A schema without a type takes the last branch of the function,
    as [TYPE_UNSPECIFIED] does. *)
#[warnings="-register-all"]
Inductive Schema : Type := mkSchema {
  type : SchemaType;
  description : option jsstring;
  enum : option (list jsstring);
  items : option Schema;
  properties : option (list (jsstring * Schema))
}.

(** ['  '.repeat(depth)] *)
Definition indent_of (depth : nat) : jsstring := concat (repeat (js "  ") depth).

(** [parts.join(sep)] *)
Fixpoint join (sep : jsstring) (parts : list jsstring) : jsstring :=
  match parts with
  | [] => []
  | [x] => x
  | x :: rest => x ++ sep ++ join sep rest
  end.

(** The comment that follows a described value; an empty description is
    falsy and gives none. *)
Definition desc_of (schema : Schema) : jsstring :=
  match description schema with
  | Some (c :: d) => js " // " ++ c :: d
  | _ => []
  end.

(** The body of the try block.  On fields of the declared types none of
    its steps throws, so the handler, which returns an empty object, is
    never entered. *)
Fixpoint schemaToJsonExample (schema : Schema) (depth : nat) : jsstring :=
  let indent := indent_of depth in
  let innerIndent := indent_of (S depth) in
  match type schema with
  | STRING =>
      match enum schema with
      | Some enumVals =>
          js "'one of: " ++ join (js " | ") enumVals ++ js "'" ++ desc_of schema
      | None => js "'string'" ++ desc_of schema
      end
  | NUMBER => js "0" ++ desc_of schema
  | BOOLEAN => js "false"
  | ARRAY =>
      match items schema with
      | Some it =>
          js "[" ++ LF ++ innerIndent ++ schemaToJsonExample it (S depth)
          ++ LF ++ indent ++ js "]"
      | None => js "[]"
      end
  | OBJECT =>
      match properties schema with
      | None => js "{}"
      | Some props =>
          let entries :=
            map (fun kv : jsstring * Schema =>
                   let (key, val) := kv in
                   innerIndent ++ js "'" ++ key ++ js "': "
                   ++ schemaToJsonExample val (S depth))
                props in
          js "{" ++ LF ++ join (js "," ++ LF) entries ++ LF ++ indent ++ js "}"
      end
  | _ => js "'unknown'"
  end.

(** The value the example stands for. *)
Fixpoint example_of (schema : Schema) : json :=
  match type schema with
  | STRING =>
      match enum schema with
      | Some enumVals => JString (js "one of: " ++ join (js " | ") enumVals)
      | None => JString (js "string")
      end
  | NUMBER => JNumber 0
  | BOOLEAN => JBool false
  | ARRAY =>
      match items schema with
      | Some it => JArray [example_of it]
      | None => JArray []
      end
  | OBJECT =>
      match properties schema with
      | None => JObject []
      | Some props =>
          JObject (map (fun kv : jsstring * Schema =>
                          let (key, val) := kv in (key, example_of val)) props)
      end
  | _ => JString (js "unknown")
  end.

(** A character that stands for itself inside a JSON string literal. *)
Definition plain_char (c : jschar) : bool :=
  (32 <=? c)%N && negb (c =? ch_quote)%N && negb (c =? ch_backslash)%N.

Definition plain_string (s : jsstring) : bool := forallb plain_char s.

Definition no_description (schema : Schema) : bool :=
  match description schema with
  | Some (_ :: _) => false
  | _ => true
  end.

(** No value of the example carries a comment, and every enum value and
    property name is made of plain characters. *)
Fixpoint plain (schema : Schema) : bool :=
  match type schema with
  | STRING =>
      no_description schema
      && match enum schema with
         | Some enumVals => forallb plain_string enumVals
         | None => true
         end
  | NUMBER => no_description schema
  | ARRAY =>
      match items schema with
      | Some it => plain it
      | None => true
      end
  | OBJECT =>
      match properties schema with
      | Some props =>
          forallb (fun kv : jsstring * Schema =>
                     let (key, val) := kv in plain_string key && plain val)
                  props
      | None => true
      end
  | _ => true
  end.

(** A string or number schema that carries a comment. *)
Definition described_scalar (schema : Schema) : bool :=
  negb (no_description schema)
  && match type schema with
     | STRING =>
         match enum schema with
         | Some enumVals => forallb plain_string enumVals
         | None => true
         end
     | NUMBER => true
     | _ => false
     end.

(** What can follow a value of the example: nothing, a line feed or a
    comma. *)
Definition follows_value (rest : jsstring) : bool :=
  match rest with
  | [] => true
  | c :: _ => (c =? ch_lf)%N || (c =? ch_comma)%N
  end.

(** [text], in front of anything that can follow a value, is read as [v]
    by the JSON reader, given enough budget. *)
Definition reads (text : jsstring) (v : json) : Prop :=
  forall rest, follows_value rest = true ->
    exists f0, forall f, (f0 <= f)%nat -> parse_value f (text ++ rest) = POk v rest.

(** A text that opens a value: its first unit is no white space and
    closes nothing. *)
Definition opens_value (text : jsstring) : Prop :=
  exists c r, text = c :: r /\ is_json_ws c = false
              /\ (c =? ch_rbracket)%N = false /\ (c =? ch_rbrace)%N = false.

(** One entry of an object of the example, and the member it stands for. *)
Definition entry_of (depth : nat) (kv : jsstring * Schema) : jsstring :=
  let (key, val) := kv in
  indent_of (S depth) ++ js "'" ++ key ++ js "': " ++ schemaToJsonExample val (S depth).

Definition member_of (kv : jsstring * Schema) : jsstring * json :=
  let (key, val) := kv in (key, example_of val).

Definition plain_entry (kv : jsstring * Schema) : bool :=
  let (key, val) := kv in plain_string key && plain val.

End SchemaExample.

(* ===================================================================== *)
(** * The second step of gradeEssay                                       *)
(* ===================================================================== *)

Module Retraining.
Import JsStr Json JsNum Normalizer.

(** The value [JSON.parse] hands to the program: a number literal is
    rounded to the nearest double. *)
Fixpoint of_json (j : json) : value :=
  match j with
  | JNull => VNull
  | JBool b => VBool b
  | JNumber q => VNumber (round_double q)
  | JString s => VString s
  | JArray l => VArray (map of_json l)
  | JObject ms => VObject (map (fun kv : jsstring * json =>
                                  let (k, v) := kv in (k, of_json v)) ms)
  end.

(** The own member of a parsed object: of two members of one name the
    later wins. *)
Fixpoint lookup (key : jsstring) (ms : list (jsstring * value)) : option value :=
  match ms with
  | [] => None
  | (k, v) :: rest =>
      match lookup key rest with
      | Some x => Some x
      | None => if jsstring_eqb k key then Some v else None
      end
  end.

(** [v.key], for the names read below ([retraining], [exercises],
    [materials]), which no prototype defines: a TypeError on [null] and
    [undefined], the own member of an object, [undefined] on anything
    else. *)
Definition member (v : value) (key : jsstring) : completion value :=
  match v with
  | VUndefined | VNull => Throw TypeError
  | VObject ms =>
      Normal (match lookup key ms with Some x => x | None => VUndefined end)
  | _ => Normal VUndefined
  end.

(** Whether [v] can take a new property; the module is strict code, so
    the assignment [v.key = x] throws a TypeError on a primitive. *)
Definition is_object (v : value) : bool :=
  match v with
  | VArray _ | VObject _ => true
  | _ => false
  end.

(** [Array.isArray(x) ? x : []] *)
Definition array_or_empty (v : value) : list value :=
  match v with
  | VArray l => l
  | _ => []
  end.

(** What the function keeps of [retraining]. *)
Record Retraining : Type := mkRetraining {
  exercises : list value;
  materials : list value
}.

(** [{ exercises: [], materials: [] }] *)
Definition empty_retraining : value :=
  VObject [(js "exercises", VArray []); (js "materials", VArray [])].

(** The lines after the try block, on the parsed [step2Data]. *)
Definition complete_retraining (step2Data : value) : completion Retraining :=
  do r <- member step2Data (js "retraining") ;;
  let retraining := or_else r empty_retraining in
  do e <- member retraining (js "exercises") ;;
  if is_object retraining then
    do m <- member retraining (js "materials") ;;
    Normal (mkRetraining (array_or_empty e) (array_or_empty m))
  else Throw TypeError.

(** From [JSON.parse(step2Json)] to the value of [retraining] that is
    returned. *)
Definition step2 (step2Json : jsstring) : completion Retraining :=
  complete_retraining
    match JSON_parse step2Json with
    | Normal j => of_json j
    | Throw _ => VObject [(js "retraining", empty_retraining)]
    end.

(** The parsed replies on which the step throws: [null], or an object
    whose [retraining] is a truthy primitive. *)
Definition blocks_step2 (step2Data : value) : bool :=
  match step2Data with
  | VUndefined | VNull => true
  | VObject ms =>
      match lookup (js "retraining") ms with
      | Some r => truthy r && negb (is_object r)
      | None => false
      end
  | _ => false
  end.

End Retraining.

(* ===================================================================== *)
(** * Facts about the JSON reader                                         *)
(* ===================================================================== *)

Module JsonFacts.
Import JsStr Json.

(** ** The reader on small inputs *)

Example parse_nested :
  JSON_parse (js " {'a': [1.5e2, -0.25, true, null, 'x\ny'], 'b': {}} ")
  = Normal (JObject [(js "a", JArray [JNumber 150; JNumber (-1 # 4); JBool true; JNull;
                                       JString (js "x" ++ LF ++ js "y")]);
                     (js "b", JObject [])]).
Proof. vm_compute. reflexivity. Qed.

Example parse_rejects :
  JSON_parse (js "[1,]") = Throw SyntaxError
  /\ JSON_parse (js "01") = Throw SyntaxError
  /\ JSON_parse (js "{'a': 1} x") = Throw SyntaxError
  /\ JSON_parse (js "[.5]") = Throw SyntaxError
  /\ JSON_parse (js "") = Throw SyntaxError.
Proof. repeat split; vm_compute; reflexivity. Qed.

(** ** What a parse has read *)

Lemma closed_by_consumed (c : jschar) (s rest : jsstring) :
  closed_by c s rest -> consumed s rest.
Proof.
  intros [pre ->]. exists (pre ++ [c]). split.
  - destruct pre; discriminate.
  - now rewrite <- app_assoc.
Qed.

Lemma consumed_length (s rest : jsstring) :
  consumed s rest -> (length rest < length s)%nat.
Proof.
  intros (pre & Hne & ->). rewrite length_app.
  destruct pre; [congruence | simpl; lia].
Qed.

Lemma closed_by_cons (x c : jschar) (s rest : jsstring) :
  closed_by c s rest -> closed_by c (x :: s) rest.
Proof. intros [pre ->]. now exists (x :: pre). Qed.

Lemma closed_by_app (p : jsstring) (c : jschar) (s rest : jsstring) :
  closed_by c s rest -> closed_by c (p ++ s) rest.
Proof. intros [pre ->]. exists (p ++ pre). now rewrite app_assoc. Qed.

Lemma dropWhile_split (p : jschar -> bool) (s : jsstring) :
  exists pre, s = pre ++ dropWhile p s /\ forallb p pre = true.
Proof.
  induction s as [| c r (pre & E & F)]; simpl.
  - now exists [].
  - destruct (p c) eqn:Pc.
    + exists (c :: pre). simpl. rewrite Pc, F. split; [now f_equal | reflexivity].
    + now exists [].
Qed.

Lemma dropWhile_head (p : jschar -> bool) (s : jsstring) (c : jschar) (r : jsstring) :
  dropWhile p s = c :: r -> p c = false.
Proof.
  induction s as [| x s IH]; simpl; [discriminate |].
  destruct (p x) eqn:Px; [exact IH |].
  intros E. injection E as -> _. exact Px.
Qed.

Lemma dropWhile_length (p : jschar -> bool) (s : jsstring) :
  (length (dropWhile p s) <= length s)%nat.
Proof.
  destruct (dropWhile_split p s) as (pre & E & _).
  rewrite E at 2. rewrite length_app. lia.
Qed.

Lemma closed_by_skip (c : jschar) (s rest : jsstring) :
  closed_by c (skip_ws s) rest -> closed_by c s rest.
Proof.
  unfold skip_ws. destruct (dropWhile_split is_json_ws s) as (pre & E & _).
  intros H. rewrite E. now apply closed_by_app.
Qed.

Lemma strip_prefix_app (pat s rest : jsstring) :
  strip_prefix pat s = Some rest -> s = pat ++ rest.
Proof.
  revert s. induction pat as [| p pat IH]; intros s; simpl.
  - now intros [= ->].
  - destruct s as [| c r]; [discriminate |].
    destruct (N.eqb_spec c p) as [-> |]; [| discriminate].
    intros H. now rewrite (IH _ H).
Qed.

Lemma take_digits_app (s ds rest : jsstring) :
  take_digits s = (ds, rest) -> s = ds ++ rest.
Proof.
  revert ds rest. induction s as [| c r IH]; intros ds rest; simpl.
  - now intros [= <- <-].
  - destruct (is_digit c).
    + destruct (take_digits r) as [ds' rest'] eqn:E. intros [= <- <-].
      simpl. f_equal. now apply IH.
    + now intros [= <- <-].
Qed.

Lemma number_sign_app (s : jsstring) (b : bool) (rest : jsstring) :
  number_sign s = (b, rest) -> exists pre, s = pre ++ rest.
Proof.
  unfold number_sign. destruct s as [| c r].
  - intros [= _ <-]. now exists [].
  - destruct (c =? ch_minus)%N; intros [= _ <-]; [now exists [c] | now exists []].
Qed.

Lemma number_int_app (s ids rest : jsstring) :
  number_int s = Some (ids, rest) -> exists pre, pre <> [] /\ s = pre ++ rest.
Proof.
  unfold number_int. destruct s as [| c r]; [discriminate |].
  destruct (c =? 48)%N.
  - intros [= _ <-]. exists [c]. split; [discriminate | reflexivity].
  - destruct (is_digit c) eqn:D; [| discriminate].
    intros H. assert (E : take_digits (c :: r) = (ids, rest)) by congruence.
    exists ids. split; [| exact (take_digits_app _ E)].
    simpl in E. rewrite D in E. destruct (take_digits r). injection E as <- _. discriminate.
Qed.

Lemma number_frac_app (s fds rest : jsstring) :
  number_frac s = Some (fds, rest) -> exists pre, s = pre ++ rest.
Proof.
  unfold number_frac. destruct s as [| c r].
  - intros [= _ <-]. now exists [].
  - destruct (c =? ch_dot)%N.
    + destruct (take_digits r) as [ds r'] eqn:E. destruct ds as [| d ds]; [discriminate |].
      intros [= _ <-]. exists (c :: d :: ds). simpl. f_equal.
      exact (take_digits_app _ E).
    + intros [= _ <-]. now exists [].
Qed.

Lemma exponent_sign_app (s : jsstring) (b : bool) (rest : jsstring) :
  exponent_sign s = (b, rest) -> exists pre, s = pre ++ rest.
Proof.
  unfold exponent_sign. destruct s as [| c r].
  - intros [= _ <-]. now exists [].
  - destruct (c =? ch_minus)%N; [intros [= _ <-]; now exists [c] |].
    destruct (c =? ch_plus)%N; intros [= _ <-]; [now exists [c] | now exists []].
Qed.

Lemma number_exp_app (s : jsstring) (e : Z) (rest : jsstring) :
  number_exp s = Some (e, rest) -> exists pre, s = pre ++ rest.
Proof.
  unfold number_exp. destruct s as [| c r].
  - intros [= _ <-]. now exists [].
  - destruct ((c =? 101) || (c =? 69))%N.
    + destruct (exponent_sign r) as [eneg r1] eqn:S1.
      destruct (take_digits r1) as [ds r2] eqn:E. destruct ds as [| d ds]; [discriminate |].
      intros [= _ <-]. destruct (exponent_sign_app _ S1) as [p1 ->].
      exists (c :: p1 ++ d :: ds). simpl. f_equal. rewrite <- app_assoc. f_equal.
      exact (take_digits_app _ E).
    + intros [= _ <-]. now exists [].
Qed.

Lemma parse_number_consumed (s : jsstring) (q : Q) (rest : jsstring) :
  parse_number s = Some (q, rest) -> consumed s rest.
Proof.
  unfold parse_number.
  destruct (number_sign s) as [neg s1] eqn:S1.
  destruct (number_int s1) as [[ids s2] |] eqn:S2; [| discriminate].
  destruct (number_frac s2) as [[fds s3] |] eqn:S3; [| discriminate].
  destruct (number_exp s3) as [[e s4] |] eqn:S4; [| discriminate].
  intros [= _ <-].
  destruct (number_sign_app _ S1) as [p1 ->].
  destruct (number_int_app _ S2) as (p2 & Hne & ->).
  destruct (number_frac_app _ S3) as [p3 ->].
  destruct (number_exp_app _ S4) as [p4 ->].
  exists (p1 ++ p2 ++ p3 ++ p4). split.
  - destruct p1; [destruct p2; [congruence | discriminate] | discriminate].
  - now rewrite <- !app_assoc.
Qed.

Lemma parse_string_closed (n : nat) (s str rest : jsstring) :
  (length s <= n)%nat ->
  parse_string s = Some (str, rest) -> closed_by ch_quote s rest.
Proof.
  revert s str rest. induction n as [| n IH]; intros s str rest Hn.
  - destruct s; [discriminate | simpl in Hn; lia].
  - destruct s as [| c r]; [discriminate |]. simpl in Hn. simpl.
    destruct (N.eqb_spec c ch_quote) as [-> |].
    { intros [= _ <-]. now exists []. }
    destruct (c =? ch_backslash)%N.
    + destruct r as [| e r1]; [discriminate |].
      destruct (e =? 117)%N.
      * destruct r1 as [| h1 [| h2 [| h3 [| h4 r2]]]]; try discriminate.
        destruct (hex4 h1 h2 h3 h4); [| discriminate].
        destruct (parse_string r2) as [[str' rest'] |] eqn:E; [| discriminate].
        intros [= _ <-]. simpl in Hn.
        apply (@closed_by_app [c; e; h1; h2; h3; h4]).
        apply (IH r2 str'); [lia | exact E].
      * destruct (simple_escape e); [| discriminate].
        destruct (parse_string r1) as [[str' rest'] |] eqn:E; [| discriminate].
        intros [= _ <-]. simpl in Hn.
        apply (@closed_by_app [c; e]).
        apply (IH r1 str'); [lia | exact E].
    + destruct (c <? 32)%N; [discriminate |].
      destruct (parse_string r) as [[str' rest'] |] eqn:E; [| discriminate].
      intros [= _ <-]. apply closed_by_cons.
      apply (IH r str'); [lia | exact E].
Qed.

Lemma literal_consumed (word : jsstring) (v : json) (s : jsstring) (v' : json) (rest : jsstring) :
  word <> [] -> literal word v s = POk v' rest -> consumed s rest.
Proof.
  unfold literal. intros Hw. destruct (strip_prefix word s) as [r |] eqn:E; [| discriminate].
  intros [= _ <-]. exists word. split; [exact Hw | exact (strip_prefix_app _ _ E)].
Qed.

Lemma startsWith_other (c x y : jschar) (r : jsstring) :
  (c =? x)%N = true -> x <> y -> startsWith (c :: r) y = true -> False.
Proof.
  simpl. intros H1 Hxy H2. apply N.eqb_eq in H1, H2. congruence.
Qed.

Lemma startsWith_false (c y : jschar) (r : jsstring) :
  (c =? y)%N = false -> startsWith (c :: r) y = true -> False.
Proof. simpl. congruence. Qed.

Lemma scalar_shape (c : jschar) (r rest : jsstring) :
  (c =? ch_lbrace)%N = false -> (c =? ch_lbracket)%N = false ->
  consumed (c :: r) rest -> value_shape (c :: r) rest.
Proof.
  intros H1 H2 H. split; [exact H |].
  split; intros F; exfalso; revert F; simpl; congruence.
Qed.

Lemma parse_shape (fuel : nat) :
  (forall s v rest, parse_value fuel s = POk v rest -> value_shape s rest)
  /\ (forall s vs rest, parse_elements fuel s = POk vs rest -> closed_by ch_rbracket s rest)
  /\ (forall s ms rest, parse_members fuel s = POk ms rest -> closed_by ch_rbrace s rest).
Proof.
  induction fuel as [| f (IHv & IHe & IHm)].
  { repeat split; intros; discriminate. }
  split; [| split].
  - (* parse_value *)
    intros s v rest. destruct s as [| c r]; [discriminate |].
    cbn [parse_value].
    destruct (c =? ch_lbrace)%N eqn:Eb.
    { destruct (dropWhile_split is_json_ws r) as (ws & Er & _). fold (skip_ws r) in Er.
      destruct (skip_ws r) as [| c' r'] eqn:Es; [discriminate |].
      intros H.
      assert (C : closed_by ch_rbrace (c :: r) rest).
      { destruct (N.eqb_spec c' ch_rbrace) as [-> |].
        - injection H as _ <-. exists (c :: ws). rewrite Er. reflexivity.
        - destruct (parse_members f (c' :: r')) as [ms rest' | |] eqn:Em; try discriminate.
          injection H as _ <-. apply closed_by_cons. rewrite Er. apply closed_by_app.
          exact (IHm _ _ _ Em). }
      split; [now apply closed_by_consumed with ch_rbrace |].
      split; [intros _; exact C |].
      intros F. exfalso. apply (@startsWith_other c ch_lbrace ch_lbracket r Eb); [discriminate | exact F]. }
    destruct (c =? ch_lbracket)%N eqn:Ek.
    { destruct (dropWhile_split is_json_ws r) as (ws & Er & _). fold (skip_ws r) in Er.
      destruct (skip_ws r) as [| c' r'] eqn:Es; [discriminate |].
      intros H.
      assert (C : closed_by ch_rbracket (c :: r) rest).
      { destruct (N.eqb_spec c' ch_rbracket) as [-> |].
        - injection H as _ <-. exists (c :: ws). rewrite Er. reflexivity.
        - destruct (parse_elements f (c' :: r')) as [vs rest' | |] eqn:Em; try discriminate.
          injection H as _ <-. apply closed_by_cons. rewrite Er. apply closed_by_app.
          exact (IHe _ _ _ Em). }
      split; [now apply closed_by_consumed with ch_rbracket |].
      split; [| intros _; exact C].
      intros F. exfalso. exact (@startsWith_false c ch_lbrace r Eb F). }
    destruct (c =? ch_quote)%N.
    { destruct (parse_string r) as [[str rest'] |] eqn:E; [| discriminate].
      intros [= _ <-]. apply scalar_shape; trivial.
      apply closed_by_consumed with ch_quote. apply closed_by_cons.
      exact (@parse_string_closed (length r) r str rest' (Nat.le_refl _) E). }
    destruct ((c =? ch_minus)%N || is_digit c).
    { destruct (parse_number (c :: r)) as [[q rest'] |] eqn:E; [| discriminate].
      intros [= _ <-]. apply scalar_shape; trivial.
      exact (parse_number_consumed _ E). }
    destruct (c =? 116)%N.
    { intros H. apply scalar_shape; trivial.
      apply (@literal_consumed (js "true") (JBool true) _ v rest); [discriminate | exact H]. }
    destruct (c =? 102)%N.
    { intros H. apply scalar_shape; trivial.
      apply (@literal_consumed (js "false") (JBool false) _ v rest); [discriminate | exact H]. }
    destruct (c =? 110)%N; [| discriminate].
    intros H. apply scalar_shape; trivial.
    apply (@literal_consumed (js "null") JNull _ v rest); [discriminate | exact H].
  - (* parse_elements *)
    intros s vs rest. cbn [parse_elements].
    destruct (parse_value f (skip_ws s)) as [v rest1 | |] eqn:Ev; try discriminate.
    destruct (IHv _ _ _ Ev) as ((p1 & _ & E1) & _).
    destruct (dropWhile_split is_json_ws rest1) as (ws & Er & _). fold (skip_ws rest1) in Er.
    destruct (skip_ws rest1) as [| c r] eqn:Es; [discriminate |].
    intros H. apply closed_by_skip. rewrite E1, Er.
    apply closed_by_app. apply closed_by_app.
    destruct (c =? ch_comma)%N.
    + destruct (parse_elements f r) as [vs' rest' | |] eqn:Ee; try discriminate.
      injection H as _ <-. apply closed_by_cons. exact (IHe _ _ _ Ee).
    + destruct (N.eqb_spec c ch_rbracket) as [-> |]; [| discriminate].
      injection H as _ <-. now exists [].
  - (* parse_members *)
    intros s ms rest. cbn [parse_members].
    destruct (skip_ws s) as [| c r] eqn:Es; [discriminate |].
    destruct (c =? ch_quote)%N; [| discriminate].
    destruct (parse_string r) as [[key rest0] |] eqn:Ek; [| discriminate].
    pose proof (@parse_string_closed (length r) r key rest0 (Nat.le_refl _) Ek) as [p0 E0].
    destruct (dropWhile_split is_json_ws rest0) as (ws0 & Er0 & _). fold (skip_ws rest0) in Er0.
    destruct (skip_ws rest0) as [| c1 r1] eqn:Es0; [discriminate |].
    destruct (c1 =? ch_colon)%N; [| discriminate].
    destruct (parse_value f (skip_ws r1)) as [v rest1 | |] eqn:Ev; try discriminate.
    destruct (IHv _ _ _ Ev) as ((p1 & _ & E1) & _).
    destruct (dropWhile_split is_json_ws r1) as (ws1 & Er1 & _). fold (skip_ws r1) in Er1.
    destruct (dropWhile_split is_json_ws rest1) as (ws2 & Er2 & _). fold (skip_ws rest1) in Er2.
    destruct (skip_ws rest1) as [| c2 r2] eqn:Es2; [discriminate |].
    intros H. apply closed_by_skip. rewrite Es.
    apply closed_by_cons. rewrite E0. apply closed_by_app. apply closed_by_cons.
    rewrite Er0. apply closed_by_app. apply closed_by_cons.
    rewrite Er1, E1. apply closed_by_app. apply closed_by_app.
    rewrite Er2. apply closed_by_app.
    destruct (c2 =? ch_comma)%N.
    + destruct (parse_members f r2) as [ms' rest' | |] eqn:Em; try discriminate.
      injection H as _ <-. apply closed_by_cons. exact (IHm _ _ _ Em).
    + destruct (N.eqb_spec c2 ch_rbrace) as [-> |]; [| discriminate].
      injection H as _ <-. now exists [].
Qed.

Lemma skip_ws_cons_length (s : jsstring) (c : jschar) (r : jsstring) :
  skip_ws s = c :: r -> (length r < length s)%nat.
Proof.
  intros E. pose proof (dropWhile_length is_json_ws s) as L.
  fold (skip_ws s) in L. rewrite E in L. simpl in L. lia.
Qed.

Lemma skip_ws_length (s : jsstring) : (length (skip_ws s) <= length s)%nat.
Proof. apply dropWhile_length. Qed.

Lemma parse_value_length (f : nat) (s : jsstring) (v : json) (rest : jsstring) :
  parse_value f s = POk v rest -> (length rest < length s)%nat.
Proof.
  intros H. apply consumed_length. exact (proj1 (proj1 (parse_shape f) _ _ _ H)).
Qed.

Lemma parse_string_length (s str rest : jsstring) :
  parse_string s = Some (str, rest) -> (length rest < length s)%nat.
Proof.
  intros H. apply consumed_length. apply closed_by_consumed with ch_quote.
  exact (@parse_string_closed (length s) s str rest (Nat.le_refl _) H).
Qed.

(** The recursion budget is never the reason a parse stops. *)
Lemma parse_budget (fuel : nat) :
  (forall s, (2 * length s < fuel)%nat -> parse_value fuel s <> PFuel)
  /\ (forall s, (2 * length s + 1 < fuel)%nat -> parse_elements fuel s <> PFuel)
  /\ (forall s, (2 * length s + 1 < fuel)%nat -> parse_members fuel s <> PFuel).
Proof.
  induction fuel as [| f (IHv & IHe & IHm)].
  { repeat split; intros; lia. }
  split; [| split].
  - intros s Hf. destruct s as [| c r]; [discriminate |].
    cbn [parse_value]. simpl in Hf.
    destruct (c =? ch_lbrace)%N.
    { destruct (skip_ws r) as [| c' r'] eqn:Es; [discriminate |].
      destruct (c' =? ch_rbrace)%N; [discriminate |].
      pose proof (skip_ws_length r) as L. rewrite Es in L.
      assert (B : parse_members f (c' :: r') <> PFuel) by (apply IHm; simpl in *; lia).
      destruct (parse_members f (c' :: r')); congruence. }
    destruct (c =? ch_lbracket)%N.
    { destruct (skip_ws r) as [| c' r'] eqn:Es; [discriminate |].
      destruct (c' =? ch_rbracket)%N; [discriminate |].
      pose proof (skip_ws_length r) as L. rewrite Es in L.
      assert (B : parse_elements f (c' :: r') <> PFuel) by (apply IHe; simpl in *; lia).
      destruct (parse_elements f (c' :: r')); congruence. }
    destruct (c =? ch_quote)%N.
    { destruct (parse_string r) as [[? ?] |]; discriminate. }
    destruct ((c =? ch_minus)%N || is_digit c).
    { destruct (parse_number (c :: r)) as [[? ?] |]; discriminate. }
    unfold literal.
    destruct (c =? 116)%N; [destruct (strip_prefix _ _); discriminate |].
    destruct (c =? 102)%N; [destruct (strip_prefix _ _); discriminate |].
    destruct (c =? 110)%N; [destruct (strip_prefix _ _); discriminate | discriminate].
  - intros s Hf. cbn [parse_elements].
    pose proof (skip_ws_length s) as L0.
    assert (B : parse_value f (skip_ws s) <> PFuel) by (apply IHv; lia).
    destruct (parse_value f (skip_ws s)) as [v rest1 | |] eqn:Ev; [| discriminate | congruence].
    apply parse_value_length in Ev.
    destruct (skip_ws rest1) as [| c r] eqn:Es; [discriminate |].
    apply skip_ws_cons_length in Es.
    destruct (c =? ch_comma)%N.
    + assert (B' : parse_elements f r <> PFuel) by (apply IHe; lia).
      destruct (parse_elements f r); congruence.
    + destruct (c =? ch_rbracket)%N; discriminate.
  - intros s Hf. cbn [parse_members].
    destruct (skip_ws s) as [| c r] eqn:Es; [discriminate |].
    apply skip_ws_cons_length in Es.
    destruct (c =? ch_quote)%N; [| discriminate].
    destruct (parse_string r) as [[key rest0] |] eqn:Ek; [| discriminate].
    apply parse_string_length in Ek.
    destruct (skip_ws rest0) as [| c1 r1] eqn:Es0; [discriminate |].
    apply skip_ws_cons_length in Es0.
    destruct (c1 =? ch_colon)%N; [| discriminate].
    pose proof (skip_ws_length r1) as L1.
    assert (B : parse_value f (skip_ws r1) <> PFuel) by (apply IHv; lia).
    destruct (parse_value f (skip_ws r1)) as [v rest1 | |] eqn:Ev; [| discriminate | congruence].
    apply parse_value_length in Ev.
    destruct (skip_ws rest1) as [| c2 r2] eqn:Es2; [discriminate |].
    apply skip_ws_cons_length in Es2.
    destruct (c2 =? ch_comma)%N.
    + assert (B' : parse_members f r2 <> PFuel) by (apply IHm; lia).
      destruct (parse_members f r2); congruence.
    + destruct (c2 =? ch_rbrace)%N; discriminate.
Qed.

(** [JSON_parse] never stops for lack of budget: it throws on a syntax
    error only. *)
Lemma JSON_parse_budget (text : jsstring) :
  parse_value (budget text) (skip_ws text) <> PFuel.
Proof.
  apply (proj1 (parse_budget (budget text))).
  unfold budget. pose proof (skip_ws_length text). lia.
Qed.

End JsonFacts.

(* ===================================================================== *)
(** * Facts about the sanitizer and the repairer                          *)
(* ===================================================================== *)

Module SanitizerFacts.
Import JsStr Json Sanitizer JsonFacts.

(** ** The model on small inputs *)

Example prose_around_json :
  cleanJsonResponse (js "Here is the result: {'a': [1, 2]} Hope this helps!")
  = Normal (js "{'a': [1, 2]}").
Proof. vm_compute. reflexivity. Qed.

Example dangling_key_is_dropped :
  tryRepairTruncatedJson (js "{'a': 1, 'b':") = js "{'a': 1}"
  /\ tryRepairTruncatedJson (js "{'a': [{'b': 'c\'d") = js "{'a': [{'b': 'c\'d'}]}".
Proof. split; vm_compute; reflexivity. Qed.

Example fence_without_tag :
  codeBlockMatch (js "text ```" ++ LF ++ js "[1]  " ++ LF ++ js "``` more") = Some (js "[1]  ").
Proof. vm_compute. reflexivity. Qed.

(** ** Prefixes and closers *)

Lemma is_prefix_refl (s : jsstring) : is_prefix s s.
Proof. exists []. now rewrite app_nil_r. Qed.

Lemma is_prefix_nil (s : jsstring) : is_prefix [] s.
Proof. now exists s. Qed.

Lemma is_prefix_cons (c : jschar) (p s : jsstring) :
  is_prefix p s -> is_prefix (c :: p) (c :: s).
Proof. intros [r ->]. now exists r. Qed.

Lemma is_prefix_trans (a b c : jsstring) :
  is_prefix a b -> is_prefix b c -> is_prefix a c.
Proof. intros [r ->] [r' ->]. exists (r ++ r'). now rewrite app_assoc. Qed.

Lemma cut_at_comma_prefix (tail : jsstring -> bool) (s : jsstring) :
  is_prefix (cut_at_comma tail s) s.
Proof.
  induction s as [| c r IH]; simpl.
  - apply is_prefix_nil.
  - destruct ((c =? ch_comma)%N && tail r).
    + apply is_prefix_nil.
    + now apply is_prefix_cons.
Qed.

(** A prefix of a string extended by one unit is the extended string or a
    prefix of the original. *)
Lemma is_prefix_snoc (p s : jsstring) (c : jschar) :
  is_prefix p (s ++ [c]) -> p = s ++ [c] \/ is_prefix p s.
Proof.
  intros [r E]. induction r as [| x r' _] using rev_ind.
  - left. now rewrite app_nil_r in E.
  - right. rewrite app_assoc in E. apply app_inj_tail in E. destruct E as [-> _].
    now exists r'.
Qed.

Lemma scan_step_closers (st : scan) (ch : jschar) :
  Forall is_closer (stack st) -> Forall is_closer (stack (scan_step st ch)).
Proof.
  intros H. unfold scan_step.
  destruct (escape st); [exact H |].
  destruct ((ch =? ch_backslash)%N && inStr st); [exact H |].
  destruct (ch =? ch_quote)%N; [exact H |].
  destruct (inStr st); [exact H |].
  destruct (ch =? ch_lbrace)%N.
  { simpl. constructor; [right; left; reflexivity | exact H]. }
  destruct (ch =? ch_lbracket)%N.
  { simpl. constructor; [right; right; reflexivity | exact H]. }
  destruct ((ch =? ch_rbrace)%N || (ch =? ch_rbracket)%N); [| exact H].
  destruct (stack st) as [| top below] eqn:E; [now rewrite E |].
  destruct (top =? ch)%N; simpl; [now inversion H | now rewrite E].
Qed.

Lemma scan_closers (s : jsstring) (st : scan) :
  Forall is_closer (stack st) ->
  Forall is_closer (stack (fold_left scan_step s st)).
Proof.
  revert st. induction s as [| c r IH]; intros st H; simpl.
  - assumption.
  - apply IH. now apply scan_step_closers.
Qed.

Lemma unclosed_closers (s : jsstring) : Forall is_closer (unclosed s).
Proof. unfold unclosed. apply scan_closers. constructor. Qed.

(** C10.  Whatever the input, the repairer's output is a prefix of the
    input, unit for unit, followed only by closing characters: the quote,
    the right brace, the right bracket.  Nothing inside the input is changed
    and nothing is inserted into it. *)
Theorem repair_keeps_prefix_appends_closers (text : jsstring) :
  exists kept closers,
    tryRepairTruncatedJson text = kept ++ closers
    /\ is_prefix kept text
    /\ Forall is_closer closers.
Proof.
  unfold tryRepairTruncatedJson.
  set (quoted := if scan_quotes text false None then text ++ [ch_quote] else text).
  set (cut1 := cut_at_comma dangling_tail quoted).
  set (cut2 := cut_at_comma (forallb is_space) cut1).
  assert (P : is_prefix cut2 quoted).
  { eapply is_prefix_trans; apply cut_at_comma_prefix. }
  assert (Q : cut2 = text ++ [ch_quote] \/ is_prefix cut2 text).
  { unfold quoted in P. destruct (scan_quotes text false None).
    - now apply is_prefix_snoc.
    - now right. }
  destruct Q as [Q | Q].
  - exists text, ([ch_quote] ++ unclosed cut2). rewrite Q at 1. rewrite <- app_assoc.
    split; [reflexivity |]. split; [apply is_prefix_refl |].
    apply Forall_app. split; [| apply unclosed_closers].
    constructor; [left; reflexivity | constructor].
  - exists cut2, (unclosed cut2).
    split; [reflexivity |]. split; [assumption | apply unclosed_closers].
Qed.

(** C9.  The sanitizer returns a string on every input: the only call
    that can throw, [JSON.parse], sits in the [try], and the [catch] branch
    hands the text to the repairer, which is a total function.  Nothing is
    said about the string being valid JSON. *)
Theorem cleanJsonResponse_returns_a_string (text : jsstring) :
  exists s, cleanJsonResponse text = Normal s.
Proof.
  unfold cleanJsonResponse, try_catch, bind.
  destruct (JSON_parse _); eexists; reflexivity.
Qed.

(** C7.  The two truncated texts of the specification: an unterminated
    string inside an unclosed object, and a trailing comma inside an
    unclosed array and object.  The repaired strings parse to the objects
    expected, and are the texts expected. *)
Theorem repair_examples :
  JSON_parse (tryRepairTruncatedJson (js "{'a': 'hello"))
    = Normal (JObject [(js "a", JString (js "hello"))])
  /\ JSON_parse (tryRepairTruncatedJson (js "{'a': 1, 'b': [1, 2,"))
    = Normal (JObject [(js "a", JNumber 1); (js "b", JArray [JNumber 1; JNumber 2])])
  /\ tryRepairTruncatedJson (js "{'a': 'hello") = js "{'a': 'hello'}"
  /\ tryRepairTruncatedJson (js "{'a': 1, 'b': [1, 2,") = js "{'a': 1, 'b': [1, 2]}".
Proof. repeat split; vm_compute; reflexivity. Qed.

Lemma json_ws_is_space (c : jschar) : is_json_ws c = true -> is_space c = true.
Proof.
  unfold is_json_ws. rewrite !orb_true_iff, !N.eqb_eq.
  intros [[[-> | ->] | ->] | ->]; reflexivity.
Qed.

Lemma dropWhile_all (p : jschar -> bool) (w s : jsstring) :
  forallb p w = true -> dropWhile p (w ++ s) = dropWhile p s.
Proof.
  induction w as [| c w IH]; simpl; [reflexivity |].
  intros H. apply andb_true_iff in H. destruct H as [Hc Hw].
  rewrite Hc. now apply IH.
Qed.

Lemma dropWhile_nil_all (p : jschar -> bool) (s : jsstring) :
  dropWhile p s = [] -> forallb p s = true.
Proof.
  destruct (dropWhile_split p s) as (pre & E & F). intros H.
  rewrite H, app_nil_r in E. now subst.
Qed.

Lemma forallb_reverse (p : jschar -> bool) (s : jsstring) :
  forallb p (rev s) = forallb p s.
Proof.
  induction s as [| c r IH]; simpl; [reflexivity |].
  rewrite forallb_app, IH. simpl. rewrite andb_true_r. apply andb_comm.
Qed.

Lemma trimEnd_last (p : jsstring) (z : jschar) :
  is_space z = false -> trimEnd (p ++ [z]) = p ++ [z].
Proof.
  intros Hz. unfold trimEnd. rewrite rev_app_distr. simpl. rewrite Hz.
  change (z :: rev p) with (rev [z] ++ rev p). rewrite <- rev_app_distr.
  apply rev_involutive.
Qed.

Lemma trimEnd_spaces (s w : jsstring) :
  forallb is_space w = true -> trimEnd (s ++ w) = trimEnd s.
Proof.
  intros Hw. unfold trimEnd. rewrite rev_app_distr. f_equal.
  apply dropWhile_all. now rewrite forallb_reverse.
Qed.

(** A string that [trim] leaves alone has no white space at either end. *)
Lemma trim_fixed_last (s p : jsstring) (z : jschar) :
  trim s = s -> s = p ++ [z] -> is_space z = false.
Proof.
  unfold trim, trimEnd. intros H E.
  apply (f_equal (@rev jschar)) in H. rewrite rev_involutive in H.
  rewrite E in H at 2. rewrite rev_app_distr in H. simpl in H.
  exact (dropWhile_head _ _ H).
Qed.

Lemma trim_fixed_start (s : jsstring) : trim s = s -> trimStart s = s.
Proof.
  unfold trim, trimEnd, trimStart. intros H.
  pose proof (dropWhile_length is_space (rev (dropWhile is_space s))) as L1.
  apply (f_equal (@length jschar)) in H. rewrite length_rev in H.
  rewrite length_rev in L1.
  destruct (dropWhile_split is_space s) as (pre & E & _).
  destruct pre as [| x pre]; [symmetry; exact E |].
  apply (f_equal (@length jschar)) in E. rewrite length_app in E. simpl in E. lia.
Qed.

Lemma trim_app_spaces (s w : jsstring) :
  trim s = s -> forallb is_space w = true -> s <> [] -> trim (s ++ w) = s.
Proof.
  intros H Hw Hne. pose proof (trim_fixed_start H) as Hs.
  unfold trim. assert (E : trimStart (s ++ w) = s ++ w).
  { unfold trimStart in *. destruct s as [| c r]; [congruence |].
    simpl in *. destruct (is_space c); [| reflexivity].
    exfalso. pose proof (dropWhile_length is_space r) as L.
    rewrite Hs in L. simpl in L. lia. }
  rewrite E, (@trimEnd_spaces s w Hw). unfold trim in H. now rewrite Hs in H.
Qed.

Lemma endsWith_last (p : jsstring) (z c : jschar) :
  endsWith (p ++ [z]) c = (z =? c)%N.
Proof. unfold endsWith. rewrite rev_app_distr. reflexivity. Qed.

(** A valid JSON text without surrounding white space that opens with a
    brace or a bracket ends with the matching one. *)
Lemma document_closed (c : jschar) (close : jschar) (s : jsstring) :
  valid_json s -> trim s = s ->
  (c = ch_lbrace /\ close = ch_rbrace \/ c = ch_lbracket /\ close = ch_rbracket) ->
  startsWith s c = true ->
  endsWith s close = true.
Proof.
  intros [v Hv] Ht Hc Hs. unfold JSON_parse in Hv.
  destruct s as [| x r]; [discriminate |].
  simpl in Hs. apply N.eqb_eq in Hs. subst x.
  assert (Esk : skip_ws (c :: r) = c :: r).
  { unfold skip_ws. simpl. destruct Hc as [[-> _] | [-> _]]; reflexivity. }
  rewrite Esk in Hv.
  destruct (parse_value (budget (c :: r)) (c :: r)) as [v' rest | |] eqn:P; try discriminate.
  destruct (skip_ws rest) eqn:Er; [| discriminate].
  apply dropWhile_nil_all in Er.
  destruct (proj1 (parse_shape _) _ _ _ P) as (_ & Hb & Hk).
  assert (C : closed_by close (c :: r) rest).
  { destruct Hc as [[-> ->] | [-> ->]]; [apply Hb | apply Hk]; reflexivity. }
  destruct C as [pre E]. rewrite E.
  destruct rest as [| y rest'] using rev_ind.
  - rewrite endsWith_last. apply N.eqb_refl.
  - exfalso. clear IHrest'.
    rewrite forallb_app in Er. simpl in Er. rewrite andb_true_r in Er.
    apply andb_true_iff in Er. destruct Er as [_ Ey].
    apply json_ws_is_space in Ey.
    assert (E' : c :: r = (pre ++ close :: rest') ++ [y]).
    { rewrite E. rewrite <- app_assoc. reflexivity. }
    rewrite (@trim_fixed_last _ _ _ Ht E') in Ey. discriminate.
Qed.

Lemma search_none (p : jschar -> bool) (s : jsstring) :
  forallb (fun c => negb (p c)) s = true -> search p s = (-1)%Z.
Proof.
  induction s as [| c r IH]; simpl; [reflexivity |].
  intros H. apply andb_true_iff in H. destruct H as [Hc Hr].
  apply negb_true_iff in Hc. rewrite Hc, (IH Hr). reflexivity.
Qed.

Lemma lastIndexOf_none (c : jschar) (s : jsstring) :
  forallb (fun x => negb (x =? c)%N) s = true -> lastIndexOf s c = (-1)%Z.
Proof.
  induction s as [| x r IH]; simpl; [reflexivity |].
  intros H. apply andb_true_iff in H. destruct H as [Hx Hr].
  apply negb_true_iff in Hx. rewrite Hx, (IH Hr). reflexivity.
Qed.

Lemma forallb_weaken (p q : jschar -> bool) (s : jsstring) :
  (forall c, p c = true -> q c = true) -> forallb p s = true -> forallb q s = true.
Proof.
  intros W. induction s as [| c r IH]; simpl; [reflexivity |].
  rewrite !andb_true_iff. intros [Hc Hr]. split; [now apply W | now apply IH].
Qed.

(** Steps 3 to 5 leave a valid JSON text alone when it is a document (an
    object or an array) or holds no brace and no bracket. *)
Lemma clean_tail (s : jsstring) :
  valid_json s -> trim s = s ->
  startsWith s ch_lbrace = true \/ startsWith s ch_lbracket = true \/ bracket_free s = true ->
  try_catch
    (do _ <- JSON_parse (drop_trailing_prose (drop_leading_prose s)) ;;
     Normal (drop_trailing_prose (drop_leading_prose s)))
    (Normal (tryRepairTruncatedJson (drop_trailing_prose (drop_leading_prose s))))
  = Normal s.
Proof.
  intros Hv Ht Hk.
  assert (E1 : drop_leading_prose s = s).
  { unfold drop_leading_prose. destruct Hk as [H | [H | H]].
    - now rewrite H.
    - rewrite H. now rewrite andb_false_r.
    - destruct (negb (startsWith s ch_lbrace) && negb (startsWith s ch_lbracket)); [| reflexivity].
      rewrite search_none; [reflexivity |].
      apply forallb_weaken with (2 := H). intros c.
      rewrite !negb_true_iff, orb_false_iff. tauto. }
  assert (E2 : drop_trailing_prose s = s).
  { unfold drop_trailing_prose. destruct Hk as [H | [H | H]].
    - rewrite (@document_closed ch_lbrace ch_rbrace s Hv Ht); auto.
    - rewrite (@document_closed ch_lbracket ch_rbracket s Hv Ht); auto.
      now rewrite andb_false_r.
    - destruct (negb (endsWith s ch_rbrace) && negb (endsWith s ch_rbracket)); [| reflexivity].
      rewrite !lastIndexOf_none; [reflexivity | |].
      + apply forallb_weaken with (2 := H). intros c. unfold is_close.
        rewrite !negb_true_iff, !orb_false_iff. tauto.
      + apply forallb_weaken with (2 := H). intros c. unfold is_close.
        rewrite !negb_true_iff, !orb_false_iff. tauto. }
  rewrite E1, E2. destruct Hv as [v Hv]. rewrite Hv. reflexivity.
Qed.

(** C6, as amended.  A valid JSON text comes back unchanged provided it
    has no white space at either end, the fence expression does not match
    it, and it is an object or an array or else holds no brace and no
    bracket. *)
Theorem sanitizer_keeps_valid_json (s : jsstring) :
  valid_json s ->
  trim s = s ->
  codeBlockMatch s = None ->
  startsWith s ch_lbrace = true \/ startsWith s ch_lbracket = true \/ bracket_free s = true ->
  cleanJsonResponse s = Normal s.
Proof.
  intros Hv Ht Hf Hk. unfold cleanJsonResponse, strip_fence.
  rewrite Ht, Hf. now apply clean_tail.
Qed.

(** C6 as stated fails: three valid JSON texts the sanitizer does not give
    back.  The first loses its leading blank; the second, a JSON string
    holding a brace, is cut at the brace and then repaired into something
    else; the third holds fences inside a string and is replaced by what
    stands between them. *)
Lemma sanitizer_changes_valid_json :
  (valid_json (js " {}") /\ cleanJsonResponse (js " {}") = Normal (js "{}"))
  /\ (valid_json (js "'a{b'") /\ cleanJsonResponse (js "'a{b'") = Normal (js "{b''}"))
  /\ (valid_json (js "{'a':'```x```'}")
      /\ cleanJsonResponse (js "{'a':'```x```'}") = Normal (js "x"))
  /\ ~ (forall s, valid_json s -> cleanJsonResponse s = Normal s).
Proof.
  assert (V : valid_json (js "'a{b'")).
  { exists (JString (js "a{b")). vm_compute. reflexivity. }
  split; [split; [exists (JObject []); vm_compute; reflexivity | vm_compute; reflexivity] |].
  split; [split; [exact V | vm_compute; reflexivity] |].
  split.
  - split; [| vm_compute; reflexivity].
    exists (JObject [(js "a", JString (js "```x```"))]). vm_compute. reflexivity.
  - intros H. specialize (H _ V). vm_compute in H. discriminate.
Qed.

(** The theorem at a small object. *)
Lemma sanitizer_keeps_valid_json_witness :
  cleanJsonResponse (js "{'x':1}") = Normal (js "{'x':1}").
Proof.
  apply sanitizer_keeps_valid_json.
  - exists (JObject [(js "x", JNumber 1)]). vm_compute. reflexivity.
  - vm_compute. reflexivity.
  - vm_compute. reflexivity.
  - left. vm_compute. reflexivity.
Defined.

Lemma capture_cons (c : jschar) (r : jsstring) :
  capture_until_close (c :: r) =
  match strip_prefix (ch_lf :: fence) (c :: r) with
  | Some _ => Some []
  | None =>
      match strip_prefix fence (c :: r) with
      | Some _ => Some []
      | None => option_map (cons c) (capture_until_close r)
      end
  end.
Proof. reflexivity. Qed.

Lemma strip_fence_other (c : jschar) (r : jsstring) :
  c <> ch_backtick -> strip_prefix fence (c :: r) = None.
Proof.
  intros H. unfold fence. cbn [strip_prefix].
  destruct (N.eqb_spec c ch_backtick); [contradiction | reflexivity].
Qed.

Lemma strip_lf_fence_other (c : jschar) (r : jsstring) :
  c <> ch_lf -> strip_prefix (ch_lf :: fence) (c :: r) = None.
Proof.
  intros H. cbn [strip_prefix].
  destruct (N.eqb_spec c ch_lf); [contradiction | reflexivity].
Qed.

Lemma space_not_backtick (c : jschar) : is_space c = true -> c <> ch_backtick.
Proof. intros H ->. discriminate. Qed.

Lemma not_space_not_lf (c : jschar) : is_space c = false -> c <> ch_lf.
Proof. intros H ->. discriminate. Qed.

(** The lazy group over trailing white space and the closing fence. *)
Lemma capture_spaces (w : jsstring) :
  forallb is_space w = true ->
  exists w', capture_until_close (w ++ fence) = Some w' /\ forallb is_space w' = true.
Proof.
  induction w as [| c w IH]; intros H.
  - exists []. split; reflexivity.
  - simpl in H. apply andb_true_iff in H. destruct H as [Hc Hw].
    destruct (IH Hw) as (w' & E & F).
    change ((c :: w) ++ fence) with (c :: (w ++ fence)). rewrite capture_cons.
    destruct (strip_prefix (ch_lf :: fence) (c :: w ++ fence)).
    + exists []. split; reflexivity.
    + rewrite (@strip_fence_other c (w ++ fence) (@space_not_backtick c Hc)), E.
      exists (c :: w'). simpl. now rewrite Hc, F.
Qed.

Lemma contains_head (pat s : jsstring) :
  contains pat s = false -> strip_prefix pat s = None.
Proof.
  destruct s; simpl; destruct (strip_prefix pat _); congruence.
Qed.

Lemma contains_tail (pat : jsstring) (c : jschar) (s : jsstring) :
  contains pat (c :: s) = false -> contains pat s = false.
Proof.
  simpl. destruct (strip_prefix pat (c :: s)); congruence.
Qed.

(** A pattern that fails on a string ending in a unit foreign to the
    pattern fails whatever follows that unit. *)
Lemma strip_prefix_extend (pat s : jsstring) (z : jschar) (more : jsstring) :
  ~ In z pat ->
  strip_prefix pat (s ++ [z]) = None ->
  strip_prefix pat (s ++ z :: more) = None.
Proof.
  revert s. induction pat as [| p pat IH]; intros s Hz; simpl; [discriminate |].
  destruct s as [| x s]; simpl.
  - destruct (N.eqb_spec z p) as [-> |]; [| reflexivity].
    exfalso. apply Hz. now left.
  - destruct (x =? p)%N; [| reflexivity].
    apply IH. intros F. apply Hz. now right.
Qed.

Lemma not_in_fence (z : jschar) : z <> ch_backtick -> ~ In z fence.
Proof. intros H [F | [F | [F | []]]]; congruence. Qed.

(** The lazy group over a body that holds no fence and ends in a unit that
    is neither white space nor a backtick. *)
Lemma capture_body (b : jsstring) (z : jschar) (w : jsstring) :
  contains fence (b ++ [z]) = false ->
  z <> ch_backtick -> is_space z = false -> forallb is_space w = true ->
  exists w', capture_until_close (b ++ z :: w ++ fence) = Some (b ++ z :: w')
             /\ forallb is_space w' = true.
Proof.
  intros Hc Hz Hs Hw. destruct (@capture_spaces w Hw) as (w' & E & F).
  exists w'. split; [| exact F].
  induction b as [| c b IH].
  - change ([] ++ z :: w ++ fence) with (z :: (w ++ fence)). rewrite capture_cons.
    rewrite (@strip_lf_fence_other z (w ++ fence) (@not_space_not_lf z Hs)).
    rewrite (@strip_fence_other z (w ++ fence) Hz), E. reflexivity.
  - change ((c :: b) ++ z :: w ++ fence) with (c :: (b ++ z :: w ++ fence)).
    rewrite capture_cons.
    change ((c :: b) ++ [z]) with (c :: (b ++ [z])) in Hc.
    pose proof (@contains_head _ _ Hc) as H1.
    pose proof (@contains_tail _ _ _ Hc) as H2.
    assert (N1 : strip_prefix fence (c :: b ++ z :: w ++ fence) = None).
    { apply (@strip_prefix_extend fence (c :: b) z (w ++ fence)); [now apply not_in_fence | exact H1]. }
    assert (N2 : strip_prefix (ch_lf :: fence) (c :: b ++ z :: w ++ fence) = None).
    { cbn [strip_prefix]. destruct (c =? ch_lf)%N; [| reflexivity].
      apply (@strip_prefix_extend fence b z (w ++ fence)); [now apply not_in_fence |].
      exact (@contains_head _ _ H2). }
    rewrite N2, N1, (IH H2). reflexivity.
Qed.

Lemma endsWith_split (s : jsstring) (c : jschar) :
  endsWith s c = true -> exists p, s = p ++ [c].
Proof.
  unfold endsWith. destruct (rev s) as [| x l] eqn:E; [discriminate |].
  intros H. apply N.eqb_eq in H. subst x. exists (rev l).
  rewrite <- (rev_involutive s), E. reflexivity.
Qed.

Lemma trim_fenced (x : jsstring) : trim (fence ++ x ++ fence) = fence ++ x ++ fence.
Proof.
  unfold trim.
  assert (E : trimStart (fence ++ x ++ fence) = fence ++ x ++ fence) by reflexivity.
  rewrite E.
  change (fence ++ x ++ fence)
    with (fence ++ x ++ [ch_backtick; ch_backtick] ++ [ch_backtick]).
  rewrite !app_assoc. apply trimEnd_last. reflexivity.
Qed.

Lemma skip_tag_body (tag rest : jsstring) (c : jschar) :
  tag = [] \/ tag = js "json" -> c <> 106%N ->
  skip_tag (tag ++ c :: rest) = c :: rest.
Proof.
  intros [-> | ->] Hc.
  - unfold skip_tag.
    change (strip_prefix (js "json") ([] ++ c :: rest))
      with (if (c =? 106)%N then strip_prefix (js "son") rest else None).
    destruct (N.eqb_spec c 106); [contradiction | reflexivity].
  - reflexivity.
Qed.

(** ** The first and the last unit of a valid JSON text *)

Lemma take_digits_units (s ds rest : jsstring) :
  take_digits s = (ds, rest) -> SanitizerMore.tick_free ds = true.
Proof.
  revert ds rest. induction s as [| c r IH]; intros ds rest; cbn [take_digits].
  - intros [= <- _]. reflexivity.
  - destruct (is_digit c) eqn:D.
    + destruct (take_digits r) as [ds' rest'] eqn:E. intros [= <- _].
      unfold SanitizerMore.tick_free. cbn [forallb]. fold (SanitizerMore.tick_free ds'). rewrite (IH _ _ eq_refl).
      unfold SanitizerMore.not_backtick.
      destruct (N.eqb_spec c ch_backtick) as [-> |]; [discriminate | reflexivity].
    + intros [= <- _]. reflexivity.
Qed.

Lemma tick_free_app (a b : jsstring) :
  SanitizerMore.tick_free a = true -> SanitizerMore.tick_free b = true -> SanitizerMore.tick_free (a ++ b) = true.
Proof.
  unfold SanitizerMore.tick_free. intros Ha Hb. rewrite forallb_app.
  apply andb_true_iff. split; assumption.
Qed.

Lemma number_sign_units (s : jsstring) (b : bool) (rest : jsstring) :
  number_sign s = (b, rest) -> exists pre, s = pre ++ rest /\ SanitizerMore.tick_free pre = true.
Proof.
  unfold number_sign. destruct s as [| c r].
  - intros [= _ <-]. now exists [].
  - destruct (N.eqb_spec c ch_minus) as [-> |]; intros [= _ <-].
    + now exists [ch_minus].
    + now exists [].
Qed.

Lemma number_int_units (s ids rest : jsstring) :
  number_int s = Some (ids, rest) ->
  exists pre, pre <> [] /\ s = pre ++ rest /\ SanitizerMore.tick_free pre = true.
Proof.
  unfold number_int. destruct s as [| c r]; [discriminate |].
  destruct (N.eqb_spec c 48) as [-> |].
  - intros [= _ <-]. exists [48%N]. repeat split. discriminate.
  - destruct (is_digit c) eqn:D; [| discriminate].
    intros [= E]. change (take_digits (c :: r) = (ids, rest)) in E.
    pose proof (@take_digits_app _ _ _ E) as A.
    pose proof (@take_digits_units _ _ _ E) as U.
    exists ids. repeat split; try assumption.
    intros ->. cbn [take_digits] in E. rewrite D in E.
    destruct (take_digits r); discriminate.
Qed.

Lemma number_frac_units (s fds rest : jsstring) :
  number_frac s = Some (fds, rest) -> exists pre, s = pre ++ rest /\ SanitizerMore.tick_free pre = true.
Proof.
  unfold number_frac. destruct s as [| c r].
  - intros [= _ <-]. now exists [].
  - destruct (N.eqb_spec c ch_dot) as [-> |].
    + destruct (take_digits r) as [ds rest'] eqn:E.
      pose proof (@take_digits_app _ _ _ E) as A. pose proof (@take_digits_units _ _ _ E) as U.
      destruct ds as [| x ds]; [discriminate |]. intros [= _ <-].
      exists (ch_dot :: x :: ds). split; [now rewrite A | exact U].
    + intros [= _ <-]. now exists [].
Qed.

Lemma number_exp_units (s : jsstring) (e : Z) (rest : jsstring) :
  number_exp s = Some (e, rest) -> exists pre, s = pre ++ rest /\ SanitizerMore.tick_free pre = true.
Proof.
  unfold number_exp. destruct s as [| c r].
  - intros [= _ <-]. now exists [].
  - destruct ((c =? 101) || (c =? 69))%N eqn:C.
    + assert (Hc : SanitizerMore.tick_free [c] = true).
      { apply orb_true_iff in C. destruct C as [C | C]; apply N.eqb_eq in C; now subst c. }
      assert (S : exists sg r1, exponent_sign r = (sg, r1)
                                /\ exists p, r = p ++ r1 /\ SanitizerMore.tick_free p = true).
      { unfold exponent_sign. destruct r as [| x r'].
        - exists false, []. split; [reflexivity | now exists []].
        - destruct (N.eqb_spec x ch_minus) as [-> |].
          + exists true, r'. split; [reflexivity | now exists [ch_minus]].
          + destruct (N.eqb_spec x ch_plus) as [-> |].
            * exists false, r'. split; [reflexivity | now exists [ch_plus]].
            * exists false, (x :: r'). split; [reflexivity | now exists []]. }
      destruct S as (sg & r1 & Es & p & Er & Hp). rewrite Es.
      destruct (take_digits r1) as [ds r2] eqn:E.
      pose proof (@take_digits_app _ _ _ E) as A. pose proof (@take_digits_units _ _ _ E) as U.
      destruct ds as [| x ds]; [discriminate |]. intros [= _ <-].
      exists (c :: p ++ x :: ds). split.
      * rewrite Er, A. cbn [app]. now rewrite <- app_assoc.
      * change (c :: p ++ x :: ds) with ([c] ++ p ++ x :: ds).
        apply tick_free_app; [exact Hc |]. now apply tick_free_app.
    + intros [= _ <-]. now exists [].
Qed.

Lemma parse_number_units (s : jsstring) (q : Q) (rest : jsstring) :
  parse_number s = Some (q, rest) ->
  exists pre, pre <> [] /\ s = pre ++ rest /\ SanitizerMore.tick_free pre = true.
Proof.
  unfold parse_number.
  destruct (number_sign s) as [neg s1] eqn:S1.
  destruct (number_int s1) as [[ids s2] |] eqn:S2; [| discriminate].
  destruct (number_frac s2) as [[fds s3] |] eqn:S3; [| discriminate].
  destruct (number_exp s3) as [[e s4] |] eqn:S4; [| discriminate].
  intros [= _ <-].
  destruct (@number_sign_units _ _ _ S1) as (p1 & -> & U1).
  destruct (@number_int_units _ _ _ S2) as (p2 & Hne & -> & U2).
  destruct (@number_frac_units _ _ _ S3) as (p3 & -> & U3).
  destruct (@number_exp_units _ _ _ S4) as (p4 & -> & U4).
  exists (p1 ++ p2 ++ p3 ++ p4). split; [| split].
  - destruct p1; [destruct p2; [congruence | discriminate] | discriminate].
  - now rewrite <- !app_assoc.
  - repeat apply tick_free_app; assumption.
Qed.

Lemma last_unit (pre : jsstring) :
  pre <> [] -> SanitizerMore.tick_free pre = true ->
  exists p z, pre = p ++ [z] /\ z <> ch_backtick.
Proof.
  intros Hne U. destruct pre as [| y pre'] using rev_ind; [congruence |].
  exists pre', y. split; [reflexivity |].
  unfold SanitizerMore.tick_free in U. rewrite forallb_app in U. cbn [forallb] in U.
  apply andb_true_iff in U. destruct U as [_ U]. rewrite andb_true_r in U.
  intros ->. discriminate.
Qed.

(** A value that is read to the end of the text does not end in a
    backtick. *)
Lemma value_end (f : nat) (s : jsstring) (v : json) :
  parse_value f s = POk v [] -> exists p z, s = p ++ [z] /\ z <> ch_backtick.
Proof.
  intros H. pose proof (proj1 (parse_shape f) _ _ _ H) as (_ & Hb & Hk).
  destruct f as [| f]; [discriminate |].
  destruct s as [| c r]; [discriminate |].
  cbn [parse_value] in H.
  destruct (c =? ch_lbrace)%N eqn:E1.
  { destruct Hb as [pre E]; [exact E1 |]. exists pre, ch_rbrace. split; [exact E | discriminate]. }
  destruct (c =? ch_lbracket)%N eqn:E2.
  { destruct Hk as [pre E]; [exact E2 |]. exists pre, ch_rbracket. split; [exact E | discriminate]. }
  destruct (N.eqb_spec c ch_quote) as [-> | _].
  { destruct (parse_string r) as [[str rest] |] eqn:P; [| discriminate].
    injection H as _ ->.
    destruct (@parse_string_closed (length r) r str [] (Nat.le_refl _) P) as [pre E].
    exists (ch_quote :: pre), ch_quote. split; [now rewrite E | discriminate]. }
  destruct ((c =? ch_minus)%N || is_digit c).
  { destruct (parse_number (c :: r)) as [[q rest] |] eqn:P; [| discriminate].
    injection H as _ ->.
    destruct (@parse_number_units _ _ _ P) as (pre & Hne & E & U).
    rewrite app_nil_r in E. rewrite E. now apply last_unit. }
  assert (L : forall word w, word <> [] -> SanitizerMore.tick_free word = true ->
              literal word w (c :: r) = POk v [] ->
              exists p z, c :: r = p ++ [z] /\ z <> ch_backtick).
  { intros word w Hne U HL. unfold literal in HL.
    destruct (strip_prefix word (c :: r)) as [rest |] eqn:P; [| discriminate].
    injection HL as _ ->. apply strip_prefix_app in P. rewrite app_nil_r in P.
    rewrite P. now apply last_unit. }
  destruct (c =? 116)%N;
    [apply (L (js "true") (JBool true) ltac:(discriminate) eq_refl H) |].
  destruct (c =? 102)%N;
    [apply (L (js "false") (JBool false) ltac:(discriminate) eq_refl H) |].
  destruct (c =? 110)%N;
    [apply (L (js "null") JNull ltac:(discriminate) eq_refl H) |].
  discriminate.
Qed.

(** No value begins with the letter j. *)
Lemma value_start (f : nat) (c : jschar) (r : jsstring) (v : json) (rest : jsstring) :
  parse_value f (c :: r) = POk v rest -> c <> 106%N.
Proof.
  intros H ->. destruct f as [| f]; discriminate.
Qed.

(** A valid JSON text without surrounding white space is one value, read
    to the end. *)
Lemma trimmed_value (s : jsstring) :
  valid_json s -> trim s = s ->
  exists f v c r, s = c :: r /\ is_space c = false /\ parse_value f s = POk v [].
Proof.
  intros [v Hv] Ht. unfold JSON_parse in Hv.
  destruct s as [| c r]; [discriminate |].
  assert (Hc : is_space c = false).
  { pose proof (trim_fixed_start Ht) as S. unfold trimStart in S. cbn [dropWhile] in S.
    destruct (is_space c) eqn:E; [| reflexivity].
    pose proof (dropWhile_length is_space r) as L. rewrite S in L. simpl in L. lia. }
  assert (Esk : skip_ws (c :: r) = c :: r).
  { unfold skip_ws. cbn [dropWhile]. destruct (is_json_ws c) eqn:W; [| reflexivity].
    apply json_ws_is_space in W. congruence. }
  rewrite Esk in Hv.
  destruct (parse_value (budget (c :: r)) (c :: r)) as [v' rest | |] eqn:P; try discriminate.
  destruct (skip_ws rest) eqn:Er; [| discriminate].
  apply dropWhile_nil_all in Er.
  exists (budget (c :: r)), v', c, r. split; [reflexivity |]. split; [exact Hc |].
  destruct rest as [| y rest'] using rev_ind; [exact P |].
  exfalso. clear IHrest'.
  rewrite forallb_app in Er. simpl in Er. rewrite andb_true_r in Er.
  apply andb_true_iff in Er. destruct Er as [_ Ey]. apply json_ws_is_space in Ey.
  destruct (proj1 (proj1 (parse_shape _) _ _ _ P)) as (pre & _ & E).
  assert (E' : c :: r = (pre ++ rest') ++ [y]) by (now rewrite E, <- app_assoc).
  rewrite (@trim_fixed_last _ _ _ Ht E') in Ey. discriminate.
Qed.

(** C8, as amended.  A fence, the optional tag, white space, a valid
    JSON text [body] without surrounding white space and without a triple
    backtick in it, white space, a fence: the sanitizer returns [body]
    itself, which parses, provided [body] is an object or an array or else
    holds no brace and no bracket. *)
Theorem sanitizer_extracts_fenced_json (tag w1 body w2 : jsstring) :
  tag = [] \/ tag = js "json" ->
  forallb is_space w1 = true ->
  forallb is_space w2 = true ->
  valid_json body ->
  trim body = body ->
  contains fence body = false ->
  startsWith body ch_lbrace = true \/ startsWith body ch_lbracket = true
  \/ bracket_free body = true ->
  cleanJsonResponse (fence ++ tag ++ w1 ++ body ++ w2 ++ fence) = Normal body.
Proof.
  intros Htag Hw1 Hw2 Hv Ht Hc Hk.
  destruct (@trimmed_value body Hv Ht) as (f & v & c & r & Ec & Hcs & P).
  (* the last unit of the body *)
  destruct (@value_end f body v P) as (p & z & Eb & Hzb).
  pose proof (@trim_fixed_last body p z Ht Eb) as Hzs.
  (* the first unit of the body *)
  assert (Hcj : c <> 106%N).
  { rewrite Ec in P. exact (@value_start f c r v [] P). }
  unfold cleanJsonResponse.
  replace (fence ++ tag ++ w1 ++ body ++ w2 ++ fence)
    with (fence ++ (tag ++ w1 ++ body ++ w2) ++ fence)
    by (now rewrite <- !app_assoc).
  rewrite trim_fenced.
  assert (Es : strip_fence (fence ++ (tag ++ w1 ++ body ++ w2) ++ fence) = body).
  { unfold strip_fence, codeBlockMatch.
    change (after_fence (fence ++ (tag ++ w1 ++ body ++ w2) ++ fence))
      with (Some ((tag ++ w1 ++ body ++ w2) ++ fence)).
    cbv iota beta.
    assert (Et : dropWhile is_space (skip_tag ((tag ++ w1 ++ body ++ w2) ++ fence))
                 = body ++ w2 ++ fence).
    { rewrite <- !app_assoc.
      destruct w1 as [| x w1'].
      - simpl app. rewrite Ec. simpl app.
        rewrite (@skip_tag_body tag _ c Htag Hcj). simpl. now rewrite Hcs.
      - simpl in Hw1. apply andb_true_iff in Hw1. destruct Hw1 as [Hx Hw1].
        simpl app.
        rewrite (@skip_tag_body tag _ x Htag); [| intros ->; discriminate].
        simpl. rewrite Hx. rewrite (@dropWhile_all is_space w1' _ Hw1).
        rewrite Ec. simpl. now rewrite Hcs. }
    rewrite Et.
    assert (Hc' : contains fence (p ++ [z]) = false) by (now rewrite <- Eb).
    destruct (@capture_body p z w2 Hc' Hzb Hzs Hw2) as (w' & Ecap & Fw).
    rewrite Eb. rewrite <- app_assoc. simpl app. rewrite Ecap.
    change (p ++ z :: w') with (p ++ [z] ++ w'). rewrite app_assoc, <- Eb.
    apply trim_app_spaces; [exact Ht | exact Fw |].
    rewrite Ec. discriminate. }
  rewrite Es. apply clean_tail; [exact Hv | exact Ht | exact Hk].
Qed.

(** C8 as stated fails on two fenced valid JSON texts.  In the first a
    string holds a triple backtick: the lazy group stops there, and what
    comes back is the repaired first half.  The second is a JSON string
    that holds a brace: the text is cut at the brace and repaired into
    something else. *)
Lemma fenced_json_with_inner_fence :
  (valid_json (js "{'a':'```'}")
   /\ cleanJsonResponse (fence ++ js "json" ++ LF ++ js "{'a':'```'}" ++ LF ++ fence)
      = Normal (js "{'a':''}"))
  /\ (valid_json (js "'a{b'")
      /\ cleanJsonResponse (fence ++ js "json" ++ LF ++ js "'a{b'" ++ LF ++ fence)
         = Normal (js "{b''}"))
  /\ ~ (forall tag body,
          tag = [] \/ tag = js "json" -> valid_json body ->
          cleanJsonResponse (fence ++ tag ++ LF ++ body ++ LF ++ fence) = Normal body).
Proof.
  assert (V : valid_json (js "{'a':'```'}")).
  { exists (JObject [(js "a", JString (js "```"))]). vm_compute. reflexivity. }
  split; [split; [exact V | vm_compute; reflexivity] |].
  split.
  - split; [exists (JString (js "a{b")) |]; vm_compute; reflexivity.
  - intros H. specialize (H (js "json") _ (or_intror eq_refl) V).
    vm_compute in H. discriminate.
Qed.

(** The theorem at the example of the specification (the tag json, a
    line feed, the object, a line feed) and at a fenced number. *)
Lemma sanitizer_extracts_fenced_json_witness :
  cleanJsonResponse (js "```json" ++ LF ++ js "{'x':1}" ++ LF ++ js "```")
  = Normal (js "{'x':1}")
  /\ cleanJsonResponse (js "```json" ++ LF ++ js "42" ++ LF ++ js "```")
     = Normal (js "42").
Proof.
  split.
  - apply (@sanitizer_extracts_fenced_json (js "json") LF (js "{'x':1}") LF).
    + right. reflexivity.
    + vm_compute. reflexivity.
    + vm_compute. reflexivity.
    + exists (JObject [(js "x", JNumber 1)]). vm_compute. reflexivity.
    + vm_compute. reflexivity.
    + vm_compute. reflexivity.
    + left. vm_compute. reflexivity.
  - apply (@sanitizer_extracts_fenced_json (js "json") LF (js "42") LF).
    + right. reflexivity.
    + vm_compute. reflexivity.
    + vm_compute. reflexivity.
    + exists (JNumber 42). vm_compute. reflexivity.
    + vm_compute. reflexivity.
    + vm_compute. reflexivity.
    + right. right. vm_compute. reflexivity.
Defined.

End SanitizerFacts.

(* ===================================================================== *)
(** * Facts about the score normalisation                                 *)
(* ===================================================================== *)

Module NormalizerFacts.
Import JsStr JsNum Normalizer Grid.

(** ** The model on small inputs *)

Example reading_numbers :
  StringToNumber (js " 3.5 ") = Fin (7 # 2)
  /\ StringToNumber (js "1e3") = Fin 1000
  /\ StringToNumber (js "0x1F") = Fin 31
  /\ StringToNumber (js "-Infinity") = NegInf
  /\ StringToNumber (js "1e400") = PosInf
  /\ StringToNumber (js "") = Fin 0
  /\ StringToNumber (js "4 points") = NaN.
Proof. repeat split; vm_compute; reflexivity. Qed.

Example coercions :
  Number (VArray [VNumber (Fin 5)]) = Normal (Fin 5)
  /\ Number (VArray []) = Normal (Fin 0)
  /\ Number (VArray [VNumber (Fin 1); VNumber (Fin 2)]) = Normal NaN
  /\ Number (VObject []) = Normal NaN
  /\ Number (VBool true) = Normal (Fin 1)
  /\ Number (or_else VNull (VNumber (Fin 0))) = Normal (Fin 0).
Proof. repeat split; vm_compute; reflexivity. Qed.

Example rounding :
  roundHalf (Fin (249 # 100)) = Fin (5 # 2)
  /\ roundHalf (Fin (1 # 4)) = Fin (1 # 2)
  /\ roundHalf (clamp (Fin (-1)) (Fin 0) (Fin 4)) = Fin (0 # 2)
  /\ roundHalf (clamp PosInf (Fin 0) (Fin 3)) = Fin (6 # 2)
  /\ roundHalf (clamp NaN (Fin 0) (Fin 3)) = NaN.
Proof. repeat split; vm_compute; reflexivity. Qed.

(** Most headroom first; at equal headroom the lower score first; at
    equal headroom and score the order of [dims]. *)
Example orders :
  sort (compare_dims (mkSubScores (Fin 2) (Fin 2) (Fin 2) (Fin 2))) dims
    = [Proficiency; Content; Organization; Clarity]
  /\ sort (compare_dims (mkSubScores (Fin 3) (Fin 2) (Fin 4) (Fin (3 # 2)))) dims
    = [Clarity; Organization; Content; Proficiency].
Proof. split; vm_compute; reflexivity. Qed.

Example out_of_range_input :
  normalize (scored (-1) 30 (249 # 100) (1 # 4) 0)
  = Normal (mkGraded (grid_scores 1 6 5 2) (half 14)).
Proof. vm_compute. reflexivity. Qed.

(** ** Numbers and the grid *)

Lemma sameb_same (a b : num) : sameb a b = true <-> same a b.
Proof.
  destruct a, b; simpl;
    first [ apply Qeq_bool_iff
          | split; [discriminate | contradiction]
          | split; trivial ].
Qed.

Lemma same_refl (a : num) : same a a.
Proof. destruct a; simpl; trivial. reflexivity. Qed.

Lemma roundHalf_Fin (q : Q) : roundHalf (Fin q) = half (Qfloor (q * 2 + (1 # 2))).
Proof.
  unfold roundHalf, scale, Math_round, unscale, half.
  f_equal. unfold Qdiv, Qmult, Qinv, inject_Z. simpl.
  now rewrite Z.mul_1_r.
Qed.

Lemma Qfloor_half_bounds (x : Q) (m : Z) :
  0 <= x -> x <= inject_Z m ->
  (0 <= Qfloor (x * 2 + (1 # 2)) <= 2 * m)%Z.
Proof.
  intros Hlo Hhi. split.
  - change 0%Z with (Qfloor 0). apply Qfloor_resp_le. lra.
  - apply Z.lt_succ_r. rewrite Zlt_Qlt.
    eapply Qle_lt_trans; [apply Qfloor_le |].
    unfold Z.succ. rewrite inject_Z_plus, inject_Z_mult.
    change (inject_Z 2) with 2. change (inject_Z 1) with 1.
    generalize dependent (inject_Z m). intros y Hy. lra.
Qed.

(** Clamping and rounding leaves NaN as it is and puts every other Number
    on the half-point scale of the dimension. *)
Lemma clamp_round_shape (m : Z) (n : num) :
  (0 <= m)%Z ->
  (n = NaN /\ roundHalf (clamp n (Fin 0) (Fin (inject_Z m))) = NaN)
  \/ (n <> NaN /\ exists k, roundHalf (clamp n (Fin 0) (Fin (inject_Z m))) = half k
                           /\ (0 <= k <= 2 * m)%Z).
Proof.
  intros Hm.
  assert (Hm' : 0 <= inject_Z m) by (change 0 with (inject_Z 0); now rewrite <- Zle_Qle).
  destruct n as [| | | q].
  - left. split; reflexivity.
  - right. split; [discriminate |].
    unfold clamp, Math_min, Math_max, le.
    destruct (Qle_bool (inject_Z m) 0) eqn:E.
    + exists (Qfloor (0 * 2 + (1 # 2))). split; [apply roundHalf_Fin |].
      apply Qfloor_half_bounds; lra.
    + exists (Qfloor (inject_Z m * 2 + (1 # 2))). split; [apply roundHalf_Fin |].
      apply Qfloor_half_bounds; lra.
  - right. split; [discriminate |].
    unfold clamp, Math_min, Math_max, le.
    exists (Qfloor (0 * 2 + (1 # 2))). split; [apply roundHalf_Fin |].
    apply Qfloor_half_bounds; lra.
  - right. split; [discriminate |].
    unfold clamp, Math_min, Math_max, le.
    destruct (Qle_bool (inject_Z m) q) eqn:E1.
    + destruct (Qle_bool (inject_Z m) 0) eqn:E2.
      * exists (Qfloor (0 * 2 + (1 # 2))). split; [apply roundHalf_Fin |].
        apply Qfloor_half_bounds; lra.
      * exists (Qfloor (inject_Z m * 2 + (1 # 2))). split; [apply roundHalf_Fin |].
        apply Qfloor_half_bounds; lra.
    + destruct (Qle_bool q 0) eqn:E2.
      * exists (Qfloor (0 * 2 + (1 # 2))). split; [apply roundHalf_Fin |].
        apply Qfloor_half_bounds; lra.
      * exists (Qfloor (q * 2 + (1 # 2))). split; [apply roundHalf_Fin |].
        assert (~ inject_Z m <= q) by (rewrite <- Qle_bool_iff; congruence).
        assert (~ q <= 0) by (rewrite <- Qle_bool_iff; congruence).
        apply Qfloor_half_bounds; lra.
Qed.

Lemma in_upto (n : nat) (k : Z) : (0 <= k <= Z.of_nat n)%Z -> In k (upto n).
Proof.
  intros Hk. unfold upto. apply in_map_iff. exists (Z.to_nat k). split.
  - lia.
  - apply in_seq. lia.
Qed.

Lemma on_grid_sound (P : Z -> Z -> Z -> Z -> bool) :
  on_grid P = true ->
  forall kc ko kp kcl,
    (0 <= kc <= 8)%Z -> (0 <= ko <= 6)%Z -> (0 <= kp <= 10)%Z -> (0 <= kcl <= 6)%Z ->
    P kc ko kp kcl = true.
Proof.
  unfold on_grid. intros H kc ko kp kcl Hc Ho Hp Hcl.
  rewrite forallb_forall in H. specialize (H kc (@in_upto 8 kc Hc)).
  rewrite forallb_forall in H. specialize (H ko (@in_upto 6 ko Ho)).
  rewrite forallb_forall in H. specialize (H kp (@in_upto 10 kp Hp)).
  rewrite forallb_forall in H. exact (H kcl (@in_upto 6 kcl Hcl)).
Qed.

(** The four Numbers read from the input, and the result built from them. *)
Lemma base_scores_inv (d : Step1Data) (g0 : Graded) :
  base_scores d = Normal g0 ->
  exists nc no np ncl,
    Number (or_else (raw_content d) (VNumber (Fin 0))) = Normal nc
    /\ Number (or_else (raw_organization d) (VNumber (Fin 0))) = Normal no
    /\ Number (or_else (raw_proficiency d) (VNumber (Fin 0))) = Normal np
    /\ Number (or_else (raw_clarity d) (VNumber (Fin 0))) = Normal ncl
    /\ g0 = mkGraded
              (mkSubScores (roundHalf (clamp nc (Fin 0) (Fin 4)))
                           (roundHalf (clamp no (Fin 0) (Fin 3)))
                           (roundHalf (clamp np (Fin 0) (Fin 5)))
                           (roundHalf (clamp ncl (Fin 0) (Fin 3))))
              (roundHalf (sum4
                 (mkSubScores (roundHalf (clamp nc (Fin 0) (Fin 4)))
                              (roundHalf (clamp no (Fin 0) (Fin 3)))
                              (roundHalf (clamp np (Fin 0) (Fin 5)))
                              (roundHalf (clamp ncl (Fin 0) (Fin 3)))))).
Proof.
  unfold base_scores, bind. intros H.
  destruct (Number (or_else (raw_content d) _)) as [nc |]; [| discriminate].
  destruct (Number (or_else (raw_organization d) _)) as [no |]; [| discriminate].
  destruct (Number (or_else (raw_proficiency d) _)) as [np |]; [| discriminate].
  destruct (Number (or_else (raw_clarity d) _)) as [ncl |]; [| discriminate].
  exists nc, no, np, ncl. injection H as <-. repeat split; reflexivity.
Qed.

(** Either a NaN got through, and then the total is NaN as well, or the
    result is a point of the grid. *)
Lemma base_shape (d : Step1Data) (g0 : Graded) :
  base_scores d = Normal g0 ->
  (totalScore g0 = NaN /\ sum4 (subScores g0) = NaN)
  \/ (exists kc ko kp kcl,
        (0 <= kc <= 8)%Z /\ (0 <= ko <= 6)%Z /\ (0 <= kp <= 10)%Z /\ (0 <= kcl <= 6)%Z
        /\ g0 = grid_base kc ko kp kcl).
Proof.
  intros H. apply base_scores_inv in H.
  destruct H as (nc & no & np & ncl & _ & _ & _ & _ & ->).
  destruct (@clamp_round_shape 4 nc ltac:(lia)) as [[_ Ec] | [_ (kc & Ec & Hc)]];
  destruct (@clamp_round_shape 3 no ltac:(lia)) as [[_ Eo] | [_ (ko & Eo & Ho)]];
  destruct (@clamp_round_shape 5 np ltac:(lia)) as [[_ Ep] | [_ (kp & Ep & Hp)]];
  destruct (@clamp_round_shape 3 ncl ltac:(lia)) as [[_ Ecl] | [_ (kcl & Ecl & Hcl)]];
  change (inject_Z 4) with 4 in *; change (inject_Z 3) with 3 in *;
  change (inject_Z 5) with 5 in *;
  rewrite Ec, Eo, Ep, Ecl;
  try (left; split; reflexivity).
  right. exists kc, ko, kp, kcl. repeat split; try lia.
Qed.

Lemma calibrate_nan (count : nat) (g : Graded) :
  totalScore g = NaN -> calibrate count g = g.
Proof. intros H. unfold calibrate. rewrite H. reflexivity. Qed.

Lemma calibrate_count (count : nat) (g : Graded) :
  calibrate count g = calibrate (if (count <=? 2)%nat then 0 else 3) g.
Proof. unfold calibrate. destruct (count <=? 2)%nat; reflexivity. Qed.

Lemma grid_scale_0 : on_grid (check_scale 0) = true.
Proof. vm_compute. reflexivity. Qed.

Lemma grid_scale_3 : on_grid (check_scale 3) = true.
Proof. vm_compute. reflexivity. Qed.

Lemma grid_total : on_grid check_total = true.
Proof. vm_compute. reflexivity. Qed.

Lemma grid_gain : on_grid check_gain = true.
Proof. vm_compute. reflexivity. Qed.

Lemma grid_check_scale (count : nat) (kc ko kp kcl : Z) :
  (0 <= kc <= 8)%Z -> (0 <= ko <= 6)%Z -> (0 <= kp <= 10)%Z -> (0 <= kcl <= 6)%Z ->
  check_scale count kc ko kp kcl = true.
Proof.
  intros. unfold check_scale. rewrite calibrate_count.
  destruct (count <=? 2)%nat.
  - now apply (@on_grid_sound _ grid_scale_0).
  - now apply (@on_grid_sound _ grid_scale_3).
Qed.

(** The total and the sum of the four returned sub-scores are the same
    Number value, with and without the bonus: the same rational, or both
    NaN. *)
Theorem total_is_sum_of_subscores (d : Step1Data) (g : Graded) :
  normalize d = Normal g ->
  same (totalScore g) (sum4 (subScores g)).
Proof.
  unfold normalize, bind. intros H.
  destruct (base_scores d) as [g0 |] eqn:E; [| discriminate].
  injection H as <-.
  destruct (@base_shape _ _ E) as [[Ht Hs] | (kc & ko & kp & kcl & Hc & Ho & Hp & Hcl & ->)].
  - rewrite (@calibrate_nan _ _ Ht), Ht, Hs. exact I.
  - pose proof (@grid_check_scale (criticalCount d) kc ko kp kcl Hc Ho Hp Hcl) as C.
    unfold check_scale in C. apply andb_true_iff in C. destruct C as [_ C].
    now apply sameb_same.
Qed.

(** The theorem at four scores of 2, once with the bonus (no critical
    issue) and once without (three critical issues). *)
Lemma total_is_sum_of_subscores_witness :
  (normalize (scored 2 2 2 2 0)
     = Normal (mkGraded (grid_scores 5 4 5 4) (half 18))
   /\ same (half 18) (sum4 (grid_scores 5 4 5 4)))
  /\ (normalize (scored 2 2 2 2 3)
     = Normal (mkGraded (grid_scores 4 4 4 4) (half 16))
   /\ same (half 16) (sum4 (grid_scores 4 4 4 4))).
Proof.
  split; (split; [vm_compute; reflexivity |]).
  - apply (@total_is_sum_of_subscores (scored 2 2 2 2 0)
             (mkGraded (grid_scores 5 4 5 4) (half 18))).
    vm_compute; reflexivity.
  - apply (@total_is_sum_of_subscores (scored 2 2 2 2 3)
             (mkGraded (grid_scores 4 4 4 4) (half 16))).
    vm_compute; reflexivity.
Defined.

Lemma all_dims (x : dim) : In x dims.
Proof. destruct x; simpl; tauto. Qed.

Lemma dim_eqb_neq (x y : dim) : y <> x -> dim_eqb y x = false.
Proof. destruct x, y; simpl; congruence. Qed.

Lemma bonus_due_count (count : nat) (g : Graded) :
  bonus_due count g = true -> (count <=? 2)%nat = true /\ bonus_due 0 g = true.
Proof.
  unfold bonus_due. rewrite !andb_true_iff. intros [[H1 H2] H3].
  repeat split; assumption.
Qed.

Lemma same_half_max (k : Z) (m : Q) : same (half k) (Fin m) -> k # 2 == m.
Proof. simpl. trivial. Qed.

Lemma same_shift (t0 t : num) (a b : Q) :
  same t0 (Fin a) -> same t (add t0 (Fin 1)) -> a + 1 == b -> same t (Fin b).
Proof.
  destruct t0, t; simpl; try contradiction. intros. lra.
Qed.

Lemma due_at (count : nat) (g : Graded) (a : Q) :
  same (totalScore g) (Fin a) -> 6 <= a -> a <= 14 -> (count <= 2)%nat ->
  bonus_due count g = true.
Proof.
  unfold bonus_due, ge, le. destruct (totalScore g); simpl; try contradiction.
  intros. rewrite !andb_true_iff, !Qle_bool_iff, Nat.leb_le.
  repeat split; try lra; assumption.
Qed.

Lemma grid_due_total (kc ko kp kcl : Z) :
  (0 <= kc <= 8)%Z -> (0 <= ko <= 6)%Z -> (0 <= kp <= 10)%Z -> (0 <= kcl <= 6)%Z ->
  bonus_due 0 (grid_base kc ko kp kcl) = true ->
  sameb (totalScore (calibrate 0 (grid_base kc ko kp kcl)))
        (add (totalScore (grid_base kc ko kp kcl)) (Fin 1)) = true.
Proof.
  intros Hc Ho Hp Hcl Hd.
  pose proof (@on_grid_sound _ grid_total kc ko kp kcl Hc Ho Hp Hcl) as C.
  unfold check_total in C. cbv zeta in C. rewrite Hd in C. exact C.
Qed.

Lemma calibrate_not_due (count : nat) (g : Graded) :
  bonus_due count g = false -> calibrate count g = g.
Proof.
  intros Hd. unfold calibrate. fold (bonus_due count g). now rewrite Hd.
Qed.

Lemma calibrate_due_total (d : Step1Data) (g0 : Graded) :
  base_scores d = Normal g0 ->
  bonus_due (criticalCount d) g0 = true ->
  same (totalScore (calibrate (criticalCount d) g0)) (add (totalScore g0) (Fin 1)).
Proof.
  intros E Hd. destruct (@bonus_due_count _ _ Hd) as [Hn Hd0].
  destruct (@base_shape _ _ E) as [[Ht _] | (kc & ko & kp & kcl & Hc & Ho & Hp & Hcl & ->)].
  - unfold bonus_due in Hd. rewrite Ht in Hd. discriminate.
  - rewrite calibrate_count, Hn. apply sameb_same. now apply grid_due_total.
Qed.

(** C4.  The bonus is applied exactly when the clamped and rounded total
    is at least 6 and at most 14 and the response lists at most two
    critical issues: then the total rises by 1, once; otherwise the result
    is left as it was.  The issues counted are the items of the array
    [issueOverview.critical] of the response; anything that is not an array
    counts as none.  In particular a total of 8 becomes 9 with no critical
    issue and stays 8 with three, and the boundary totals 6 and 14 become 7
    and 15. *)
Theorem bonus_applied_exactly_when_due (d : Step1Data) (g0 g : Graded) :
  base_scores d = Normal g0 ->
  normalize d = Normal g ->
  (bonus_due (criticalCount d) g0 = true ->
     same (totalScore g) (add (totalScore g0) (Fin 1)))
  /\ (bonus_due (criticalCount d) g0 = false -> g = g0)
  /\ (bonus_due (criticalCount d) g0 = true <->
      ge (totalScore g0) (Fin 6) = true /\ le (totalScore g0) (Fin 14) = true
      /\ (criticalCount d <= 2)%nat)
  /\ (same (totalScore g0) (Fin 8) -> criticalCount d = 0%nat ->
      same (totalScore g) (Fin 9))
  /\ (same (totalScore g0) (Fin 8) -> criticalCount d = 3%nat -> g = g0)
  /\ (same (totalScore g0) (Fin 6) -> (criticalCount d <= 2)%nat ->
      same (totalScore g) (Fin 7))
  /\ (same (totalScore g0) (Fin 14) -> (criticalCount d <= 2)%nat ->
      same (totalScore g) (Fin 15))
  /\ (forall issues, critical d = VArray issues ->
        criticalCount d = length issues
        /\ ((length issues <= 2)%nat ->
            ge (totalScore g0) (Fin 6) = true -> le (totalScore g0) (Fin 14) = true ->
            same (totalScore g) (add (totalScore g0) (Fin 1)))
        /\ ((2 < length issues)%nat -> g = g0)
        /\ (same (totalScore g0) (Fin 8) -> issues = [] ->
            same (totalScore g) (Fin 9))
        /\ (same (totalScore g0) (Fin 8) -> length issues = 3%nat -> g = g0))
  /\ ((forall issues, critical d <> VArray issues) ->
        criticalCount d = 0%nat
        /\ (ge (totalScore g0) (Fin 6) = true -> le (totalScore g0) (Fin 14) = true ->
            same (totalScore g) (add (totalScore g0) (Fin 1)))).
Proof.
  intros E H. unfold normalize, bind in H. rewrite E in H. injection H as <-.
  assert (At : forall a b : Q, 6 <= a -> a <= 14 -> a + 1 == b ->
               same (totalScore g0) (Fin a) -> (criticalCount d <= 2)%nat ->
               same (totalScore (calibrate (criticalCount d) g0)) (Fin b)).
  { intros a b Ha1 Ha2 Hab Hs Hc.
    apply (@same_shift (totalScore g0) _ a b Hs); [| exact Hab].
    apply (@calibrate_due_total _ _ E). exact (@due_at _ _ a Hs Ha1 Ha2 Hc). }
  assert (Due : (criticalCount d <= 2)%nat ->
                ge (totalScore g0) (Fin 6) = true -> le (totalScore g0) (Fin 14) = true ->
                same (totalScore (calibrate (criticalCount d) g0))
                     (add (totalScore g0) (Fin 1))).
  { intros Hc H6 H14. apply (@calibrate_due_total _ _ E).
    unfold bonus_due. rewrite H6, H14. apply Nat.leb_le in Hc. now rewrite Hc. }
  assert (Not : (2 < criticalCount d)%nat -> calibrate (criticalCount d) g0 = g0).
  { intros Hc. apply calibrate_not_due. unfold bonus_due.
    apply Nat.leb_gt in Hc. rewrite Hc. apply andb_false_r. }
  split; [now apply calibrate_due_total |].
  split; [apply calibrate_not_due |].
  split; [| split; [| split; [| split; [| split; [| split]]]]].
  - unfold bonus_due. rewrite !andb_true_iff, Nat.leb_le. tauto.
  - intros H8 Hc. apply (At 8 9); [lra | lra | lra | exact H8 | lia].
  - intros _ Hc. apply Not. lia.
  - apply (At 6 7); lra.
  - apply (At 14 15); lra.
  - intros issues Hi.
    assert (Ec : criticalCount d = length issues).
    { unfold criticalCount. now rewrite Hi. }
    split; [exact Ec |]. rewrite <- Ec.
    split; [exact Due |]. split; [exact Not |].
    split.
    + intros H8 ->. apply (At 8 9); [lra | lra | lra | exact H8 |].
      rewrite Ec. cbn [length]. lia.
    + intros _ H3. apply Not. lia.
  - intros Hn.
    assert (Ec : criticalCount d = 0%nat).
    { unfold criticalCount. destruct (critical d) as [| | | | | items |];
        try reflexivity. exfalso. now apply (Hn items). }
    split; [exact Ec |]. apply Due. lia.
Qed.

(** The theorem at four scores of 2: with an empty list of critical issues
    the total of 8 becomes 9; with a list of three it stays 8. *)
Lemma bonus_applied_exactly_when_due_witness :
  (base_scores (scored 2 2 2 2 0) = Normal (grid_base 4 4 4 4)
   /\ normalize (scored 2 2 2 2 0) = Normal (mkGraded (grid_scores 5 4 5 4) (half 18))
   /\ same (half 18) (Fin 9))
  /\ (base_scores
        (mkStep1Data (VNumber (Fin 2)) (VNumber (Fin 2)) (VNumber (Fin 2)) (VNumber (Fin 2))
           (VArray [VString (js "tense"); VString (js "agreement"); VString (js "run-on")]))
      = Normal (grid_base 4 4 4 4)
      /\ normalize
           (mkStep1Data (VNumber (Fin 2)) (VNumber (Fin 2)) (VNumber (Fin 2)) (VNumber (Fin 2))
              (VArray [VString (js "tense"); VString (js "agreement"); VString (js "run-on")]))
         = Normal (mkGraded (grid_scores 4 4 4 4) (half 16))
      /\ mkGraded (grid_scores 4 4 4 4) (half 16) = grid_base 4 4 4 4).
Proof.
  split.
  - split; [vm_compute; reflexivity |]. split; [vm_compute; reflexivity |].
    apply (@bonus_applied_exactly_when_due (scored 2 2 2 2 0) (grid_base 4 4 4 4)
             (mkGraded (grid_scores 5 4 5 4) (half 18)));
      vm_compute; reflexivity.
  - split; [vm_compute; reflexivity |]. split; [vm_compute; reflexivity |].
    pose proof (@bonus_applied_exactly_when_due
                  (mkStep1Data (VNumber (Fin 2)) (VNumber (Fin 2)) (VNumber (Fin 2))
                     (VNumber (Fin 2))
                     (VArray [VString (js "tense"); VString (js "agreement");
                              VString (js "run-on")]))
                  (grid_base 4 4 4 4) (mkGraded (grid_scores 4 4 4 4) (half 16))
                  ltac:(vm_compute; reflexivity) ltac:(vm_compute; reflexivity)) as T.
    destruct T as (_ & _ & _ & _ & _ & _ & _ & T & _).
    destruct (T _ eq_refl) as (_ & _ & T3 & _). apply T3. cbn [length]. lia.
Defined.

Lemma grid_gain_at (kc ko kp kcl : Z) (x y : dim) :
  (0 <= kc <= 8)%Z -> (0 <= ko <= 6)%Z -> (0 <= kp <= 10)%Z -> (0 <= kcl <= 6)%Z ->
  bonus_due 0 (grid_base kc ko kp kcl) = true ->
  let g0 := grid_base kc ko kp kcl in
  let g := calibrate 0 g0 in
  ((sameb (gain g0 g x) (Fin 0) || sameb (gain g0 g x) (Fin (1 # 2))
    || sameb (gain g0 g x) (Fin 1)) = true
   /\ le (get (subScores g) x) (max x) = true)
  /\ implb (sameb (gain g0 g x) (Fin 1) && negb (dim_eqb y x))
           (sameb (get (subScores g0) y) (max y)) = true
  /\ implb (gt (gain g0 g x) (Fin 0) && sameb (gain g0 g y) (Fin 0))
           (le (room g0 y) (room g0 x)
            && implb (sameb (room g0 x) (room g0 y))
                 (le (get (subScores g0) x) (get (subScores g0) y))) = true.
Proof.
  intros Hc Ho Hp Hcl Hd g0 g.
  pose proof (@on_grid_sound _ grid_gain kc ko kp kcl Hc Ho Hp Hcl) as C.
  unfold check_gain in C. cbv zeta in C. rewrite Hd in C.
  fold g0 in C. fold g in C.
  change (implb true ?b) with b in C.
  rewrite forallb_forall in C. specialize (C x (all_dims x)).
  rewrite !andb_true_iff in C. destruct C as [[C1 C2] C3].
  rewrite forallb_forall in C3. specialize (C3 y (all_dims y)).
  rewrite andb_true_iff in C3. tauto.
Qed.

(** C3, as amended.  When the bonus applies, every dimension gains 0, one
    half or 1 and stays within its maximum; a dimension gains 1 only when
    every other dimension is at its maximum; a dimension that gains had at
    least as much headroom as any dimension that gains nothing, and at equal
    headroom a score no higher; the gains add up to 1.  When all four
    dimensions are at their maxima nothing is changed. *)
Theorem bonus_distribution (d : Step1Data) (g0 g : Graded) :
  base_scores d = Normal g0 ->
  normalize d = Normal g ->
  (bonus_due (criticalCount d) g0 = true ->
     (forall x,
        (same (gain g0 g x) (Fin 0) \/ same (gain g0 g x) (Fin (1 # 2))
         \/ same (gain g0 g x) (Fin 1))
        /\ le (get (subScores g) x) (max x) = true)
     /\ (forall x y,
          same (gain g0 g x) (Fin 1) -> y <> x ->
          same (get (subScores g0) y) (max y))
     /\ (forall x y,
          gt (gain g0 g x) (Fin 0) = true -> same (gain g0 g y) (Fin 0) ->
          le (room g0 y) (room g0 x) = true
          /\ (same (room g0 x) (room g0 y) ->
              le (get (subScores g0) x) (get (subScores g0) y) = true))
     /\ same (totalScore g) (add (totalScore g0) (Fin 1)))
  /\ ((forall x, same (get (subScores g0) x) (max x)) -> g = g0).
Proof.
  intros E H. unfold normalize, bind in H. rewrite E in H. injection H as <-.
  split.
  - intros Hd. pose proof (@calibrate_due_total _ _ E Hd) as T.
    destruct (@bonus_due_count _ _ Hd) as [Hn Hd0].
    destruct (@base_shape _ _ E) as [[Ht _] | (kc & ko & kp & kcl & Hc & Ho & Hp & Hcl & ->)].
    { unfold bonus_due in Hd. rewrite Ht in Hd. discriminate. }
    rewrite calibrate_count, Hn in *.
    pose proof (fun x y => @grid_gain_at kc ko kp kcl x y Hc Ho Hp Hcl Hd0) as P.
    cbv zeta in P.
    generalize dependent (calibrate 0 (grid_base kc ko kp kcl)).
    generalize dependent (grid_base kc ko kp kcl).
    intros g0 _ _ _ g T P.
    split; [| split; [| split]].
    + intros x. destruct (P x x) as [[G L] _]. split; [| exact L].
      rewrite !orb_true_iff in G. rewrite !sameb_same in G. tauto.
    + intros x y Hx Hy. destruct (P x y) as (_ & G & _).
      apply sameb_same in Hx. rewrite Hx, (@dim_eqb_neq _ _ Hy) in G.
      apply sameb_same. exact G.
    + intros x y Hx Hy. destruct (P x y) as (_ & _ & G).
      apply sameb_same in Hy. rewrite Hx, Hy in G.
      change (implb (true && true) ?b) with b in G.
      apply andb_true_iff in G. destruct G as [G1 G2]. split; [exact G1 |].
      intros Hr. apply sameb_same in Hr. rewrite Hr in G2. exact G2.
    + exact T.
  - intros Hmax.
    destruct (@base_shape _ _ E) as [[Ht _] | (kc & ko & kp & kcl & Hc & Ho & Hp & Hcl & ->)].
    { now apply calibrate_nan. }
    pose proof (Hmax Content) as M1. pose proof (Hmax Organization) as M2.
    pose proof (Hmax Proficiency) as M3. pose proof (Hmax Clarity) as M4.
    apply same_half_max in M1, M2, M3, M4.
    unfold Qeq in M1, M2, M3, M4. cbn in M1, M2, M3, M4.
    assert (kc = 8%Z) by lia. assert (ko = 6%Z) by lia.
    assert (kp = 10%Z) by lia. assert (kcl = 6%Z) by lia. subst.
    vm_compute. reflexivity.
Qed.

(** C3 as stated fails: with scores 4, 3, 4, 3 proficiency is the one
    dimension with headroom and takes the whole point, one half in each
    pass. *)
Lemma bonus_can_exceed_half_point :
  base_scores (scored 4 3 4 3 0) = Normal (grid_base 8 6 8 6)
  /\ normalize (scored 4 3 4 3 0) = Normal (mkGraded (grid_scores 8 6 10 6) (half 30))
  /\ ~ (forall d g0 g x,
          base_scores d = Normal g0 -> normalize d = Normal g ->
          bonus_due (criticalCount d) g0 = true ->
          le (gain g0 g x) (Fin (1 # 2)) = true).
Proof.
  split; [vm_compute; reflexivity |]. split; [vm_compute; reflexivity |].
  intros H.
  specialize (H (scored 4 3 4 3 0) (grid_base 8 6 8 6)
                (mkGraded (grid_scores 8 6 10 6) (half 30)) Proficiency).
  assert (F : le (gain (grid_base 8 6 8 6) (mkGraded (grid_scores 8 6 10 6) (half 30))
                       Proficiency) (Fin (1 # 2)) = true).
  { apply H; vm_compute; reflexivity. }
  vm_compute in F. discriminate.
Qed.

(** The theorem at the same scores. *)
Lemma bonus_distribution_witness :
  base_scores (scored 4 3 4 3 0) = Normal (grid_base 8 6 8 6)
  /\ normalize (scored 4 3 4 3 0) = Normal (mkGraded (grid_scores 8 6 10 6) (half 30))
  /\ same (half 30) (add (totalScore (grid_base 8 6 8 6)) (Fin 1)).
Proof.
  split; [vm_compute; reflexivity |]. split; [vm_compute; reflexivity |].
  apply (@bonus_distribution (scored 4 3 4 3 0) (grid_base 8 6 8 6)
           (mkGraded (grid_scores 8 6 10 6) (half 30)));
    vm_compute; reflexivity.
Defined.

(** Each base score is NaN or a whole number of half points within its
    dimension. *)
Ltac score_case m n :=
  let E := fresh "E" in
  let k := fresh "k" in
  let Hk := fresh "Hk" in
  destruct (@clamp_round_shape m n ltac:(lia)) as [[_ E] | [_ (k & E & Hk)]];
  [left; exact E | right; exists k; split; [exact E | lia]].

Lemma base_components (d : Step1Data) (g0 : Graded) (x : dim) :
  base_scores d = Normal g0 ->
  get (subScores g0) x = NaN
  \/ exists k, get (subScores g0) x = half k /\ (0 <= k <= max_halves x)%Z.
Proof.
  intros H. apply base_scores_inv in H.
  destruct H as (nc & no & np & ncl & _ & _ & _ & _ & ->).
  destruct x; cbn [get subScores content organization proficiency clarity max_halves].
  - score_case 4%Z nc.
  - score_case 3%Z no.
  - score_case 5%Z np.
  - score_case 3%Z ncl.
Qed.

Lemma on_scale_half (x : dim) (k : Z) :
  (0 <= k <= max_halves x)%Z -> on_scale x (half k) = true.
Proof.
  intros Hk. unfold on_scale, half. apply andb_true_iff. split; apply Z.leb_le; lia.
Qed.

(** What does hold of every result: a score is NaN, or it is on the
    half-point scale of its dimension. *)
Lemma scores_on_scale_or_NaN (d : Step1Data) (g : Graded) (x : dim) :
  normalize d = Normal g ->
  get (subScores g) x = NaN \/ on_scale x (get (subScores g) x) = true.
Proof.
  unfold normalize, bind. intros H.
  destruct (base_scores d) as [g0 |] eqn:E; [| discriminate].
  injection H as <-.
  destruct (@base_shape _ _ E) as [[Ht _] | (kc & ko & kp & kcl & Hc & Ho & Hp & Hcl & ->)].
  - rewrite (@calibrate_nan _ _ Ht).
    destruct (@base_components _ _ x E) as [N | (k & Ek & Hk)]; [now left |].
    right. rewrite Ek. now apply on_scale_half.
  - right.
    pose proof (@grid_check_scale (criticalCount d) kc ko kp kcl Hc Ho Hp Hcl) as C.
    unfold check_scale in C. apply andb_true_iff in C. destruct C as [C _].
    rewrite forallb_forall in C. exact (C x (all_dims x)).
Qed.

(** A NaN score comes from a NaN read from the input, and from nothing
    else. *)
Lemma numeric_input_on_scale (d : Step1Data) (g : Graded) :
  normalize d = Normal g ->
  Number (or_else (raw_content d) (VNumber (Fin 0))) <> Normal NaN ->
  Number (or_else (raw_organization d) (VNumber (Fin 0))) <> Normal NaN ->
  Number (or_else (raw_proficiency d) (VNumber (Fin 0))) <> Normal NaN ->
  Number (or_else (raw_clarity d) (VNumber (Fin 0))) <> Normal NaN ->
  forall x, on_scale x (get (subScores g) x) = true.
Proof.
  unfold normalize, bind. intros H N1 N2 N3 N4 x.
  destruct (base_scores d) as [g0 |] eqn:E; [| discriminate].
  injection H as <-.
  destruct (@base_scores_inv _ _ E) as (nc & no & np & ncl & E1 & E2 & E3 & E4 & ->).
  rewrite E1 in N1. rewrite E2 in N2. rewrite E3 in N3. rewrite E4 in N4.
  destruct (@clamp_round_shape 4 nc ltac:(lia)) as [[-> _] | [_ (kc & Ec & Hc)]];
    [congruence |].
  destruct (@clamp_round_shape 3 no ltac:(lia)) as [[-> _] | [_ (ko & Eo & Ho)]];
    [congruence |].
  destruct (@clamp_round_shape 5 np ltac:(lia)) as [[-> _] | [_ (kp & Ep & Hp)]];
    [congruence |].
  destruct (@clamp_round_shape 3 ncl ltac:(lia)) as [[-> _] | [_ (kcl & Ecl & Hcl)]];
    [congruence |].
  change (inject_Z 4) with 4 in *; change (inject_Z 3) with 3 in *;
    change (inject_Z 5) with 5 in *.
  rewrite Ec, Eo, Ep, Ecl.
  pose proof (@grid_check_scale (criticalCount d) kc ko kp kcl
                ltac:(lia) ltac:(lia) ltac:(lia) ltac:(lia)) as C.
  unfold check_scale in C. apply andb_true_iff in C. destruct C as [C _].
  rewrite forallb_forall in C. exact (C x (all_dims x)).
Qed.

Lemma Number_total (v : value) :
  ToString_throws v = false -> exists n, Number (or_else v (VNumber (Fin 0))) = Normal n.
Proof.
  intros H. unfold or_else. destruct (truthy v); [| now exists (Fin 0)].
  destruct v; simpl in *; try (eexists; reflexivity); rewrite H; eexists; reflexivity.
Qed.

(** The block returns whenever none of the four members is an object (or
    an array holding one) with a member of its own called toString. *)
Lemma normalize_total (d : Step1Data) :
  ToString_throws (raw_content d) = false ->
  ToString_throws (raw_organization d) = false ->
  ToString_throws (raw_proficiency d) = false ->
  ToString_throws (raw_clarity d) = false ->
  exists g, normalize d = Normal g.
Proof.
  intros H1 H2 H3 H4. unfold normalize, base_scores, bind.
  destruct (@Number_total _ H1) as [n1 ->]. destruct (@Number_total _ H2) as [n2 ->].
  destruct (@Number_total _ H3) as [n3 ->]. destruct (@Number_total _ H4) as [n4 ->].
  eexists. reflexivity.
Qed.

Lemma strict_ne_same (a b : num) :
  same a b -> (strict_ne a b = true <-> a = NaN).
Proof.
  destruct a as [| | | p], b as [| | | q]; cbn [same strict_ne sameb negb];
    try contradiction; intros H; split; try discriminate; try reflexivity.
  intros F. apply Qeq_bool_iff in H. rewrite H in F. discriminate.
Qed.

(** C2.  The total is not always the sum.  On a response whose content is
    the string abc the total and the sum of the four returned sub-scores
    are both NaN, and NaN equals nothing: the comparison of the total with
    the sum by [!==] is true.  That is the only way for the two to differ:
    on every input on which the block returns, the total differs from the
    sum exactly when it is NaN, and it is not NaN when the four scores
    convert to Numbers other than NaN. *)
Theorem total_differs_from_sum_when_NaN :
  (exists g,
     normalize (mkStep1Data (VString (js "abc")) (VNumber (Fin 3)) (VNumber (Fin 4))
                            (VNumber (Fin 2)) (VArray []))
     = Normal g
     /\ totalScore g = NaN /\ sum4 (subScores g) = NaN
     /\ strict_ne (totalScore g) (sum4 (subScores g)) = true)
  /\ (forall d g, normalize d = Normal g ->
        (strict_ne (totalScore g) (sum4 (subScores g)) = true <-> totalScore g = NaN))
  /\ (forall d g, normalize d = Normal g ->
        Number (or_else (raw_content d) (VNumber (Fin 0))) <> Normal NaN ->
        Number (or_else (raw_organization d) (VNumber (Fin 0))) <> Normal NaN ->
        Number (or_else (raw_proficiency d) (VNumber (Fin 0))) <> Normal NaN ->
        Number (or_else (raw_clarity d) (VNumber (Fin 0))) <> Normal NaN ->
        strict_ne (totalScore g) (sum4 (subScores g)) = false).
Proof.
  split; [| split].
  - eexists. split; [vm_compute; reflexivity |]. repeat split.
  - intros d g H. apply strict_ne_same. exact (@total_is_sum_of_subscores d g H).
  - intros d g H Hc Ho Hp Hcl.
    pose proof (@total_is_sum_of_subscores d g H) as S.
    pose proof (@numeric_input_on_scale d g H Hc Ho Hp Hcl) as N.
    destruct (strict_ne (totalScore g) (sum4 (subScores g))) eqn:E; [| reflexivity].
    exfalso. apply (@strict_ne_same _ _ S) in E. rewrite E in S.
    pose proof (N Content) as N1. pose proof (N Organization) as N2.
    pose proof (N Proficiency) as N3. pose proof (N Clarity) as N4.
    unfold sum4 in S. cbn [get] in N1, N2, N3, N4.
    destruct (content (subScores g)); try discriminate.
    destruct (organization (subScores g)); try discriminate.
    destruct (proficiency (subScores g)); try discriminate.
    destruct (clarity (subScores g)); try discriminate.
    exact S.
Qed.

(** C1 fails on the code: a text that is not a number gets through as
    NaN, which is neither within the bounds of the dimension nor a number
    of half points. *)
Theorem non_numeric_score_is_NaN :
  normalize (mkStep1Data (VString (js "abc")) (VNumber (Fin 3)) (VNumber (Fin 4))
                         (VNumber (Fin 2)) (VArray []))
  = Normal (mkGraded (mkSubScores NaN (half 6) (half 8) (half 4)) NaN)
  /\ le (Fin 0) NaN = false /\ le NaN (Fin 4) = false
  /\ forall k, ~ same NaN (half k).
Proof.
  split; [vm_compute; reflexivity |]. split; [reflexivity |]. split; [reflexivity |].
  intros k H. exact H.
Qed.

(** C5 fails on the code: a text that is not a number is read as NaN,
    not as zero (a missing member and the empty text are read as zero);
    and an object with a member of its own called toString makes the block
    throw. *)
Theorem coercion_of_non_numbers :
  Number (or_else (VString (js "abc")) (VNumber (Fin 0))) = Normal NaN
  /\ Number (or_else VUndefined (VNumber (Fin 0))) = Normal (Fin 0)
  /\ Number (or_else (VString []) (VNumber (Fin 0))) = Normal (Fin 0)
  /\ normalize (mkStep1Data (VObject [(js "toString", VNull)]) VUndefined VUndefined
                            VUndefined VUndefined)
     = Throw TypeError.
Proof. repeat split; vm_compute; reflexivity. Qed.

End NormalizerFacts.

(* ===================================================================== *)
(** * More facts about the sanitizer                                     *)
(* ===================================================================== *)

Module SanitizerMoreFacts.
Import JsStr Json Sanitizer SanitizerMore JsonFacts SanitizerFacts.

(** ** Substrings *)

Lemma is_substring_refl (s : jsstring) : is_substring s s.
Proof. exists [], []. now rewrite app_nil_r. Qed.

Lemma is_substring_trans (a b c : jsstring) :
  is_substring a b -> is_substring b c -> is_substring a c.
Proof.
  intros (p1 & q1 & ->) (p2 & q2 & ->).
  exists (p2 ++ p1), (q1 ++ q2). now rewrite <- !app_assoc.
Qed.

Lemma suffix_substring (pre s : jsstring) : is_substring s (pre ++ s).
Proof. exists pre, []. now rewrite app_nil_r. Qed.

Lemma prefix_substring (s post : jsstring) : is_substring s (s ++ post).
Proof. now exists [], post. Qed.

Lemma dropWhile_substring (p : jschar -> bool) (s : jsstring) :
  is_substring (dropWhile p s) s.
Proof.
  destruct (dropWhile_split p s) as (pre & E & _).
  rewrite E at 2. apply suffix_substring.
Qed.

Lemma trimEnd_substring (s : jsstring) : is_substring (trimEnd s) s.
Proof.
  unfold trimEnd. destruct (dropWhile_split is_space (rev s)) as (pre & E & _).
  apply (f_equal (@rev jschar)) in E. rewrite rev_involutive, rev_app_distr in E.
  rewrite E at 2. apply prefix_substring.
Qed.

Lemma trim_substring (s : jsstring) : is_substring (trim s) s.
Proof.
  unfold trim. eapply is_substring_trans; [apply trimEnd_substring |].
  apply dropWhile_substring.
Qed.

Lemma skipn_substring (n : nat) (s : jsstring) : is_substring (skipn n s) s.
Proof. rewrite <- (firstn_skipn n s) at 2. apply suffix_substring. Qed.

Lemma firstn_substring (n : nat) (s : jsstring) : is_substring (firstn n s) s.
Proof. rewrite <- (firstn_skipn n s) at 2. apply prefix_substring. Qed.

Lemma after_fence_substring (s r : jsstring) :
  after_fence s = Some r -> is_substring r s.
Proof.
  induction s as [| c s IH].
  - simpl. discriminate.
  - cbn [after_fence]. destruct (strip_prefix fence (c :: s)) as [r' |] eqn:E.
    + intros [= <-]. rewrite (strip_prefix_app _ _ E). apply suffix_substring.
    + intros H. eapply is_substring_trans; [exact (IH H) |].
      apply (suffix_substring [c]).
Qed.

Lemma skip_tag_substring (s : jsstring) : is_substring (skip_tag s) s.
Proof.
  unfold skip_tag. destruct (strip_prefix (js "json") s) as [r |] eqn:E.
  - rewrite (strip_prefix_app _ _ E). apply suffix_substring.
  - apply is_substring_refl.
Qed.

Lemma capture_prefix (s c : jsstring) :
  capture_until_close s = Some c -> exists rest, s = c ++ rest.
Proof.
  revert c. induction s as [| x s IH]; intros c.
  - cbn. discriminate.
  - rewrite capture_cons.
    destruct (strip_prefix (ch_lf :: fence) (x :: s)); [intros [= <-]; now exists (x :: s) |].
    destruct (strip_prefix fence (x :: s)); [intros [= <-]; now exists (x :: s) |].
    destruct (capture_until_close s) as [c' |]; [| discriminate].
    intros [= <-]. destruct (IH c' eq_refl) as [rest ->]. now exists rest.
Qed.

Lemma strip_fence_substring (s : jsstring) : is_substring (strip_fence s) s.
Proof.
  unfold strip_fence, codeBlockMatch.
  destruct (after_fence s) as [r |] eqn:E; [| apply is_substring_refl].
  destruct (capture_until_close _) as [c |] eqn:C; [| apply is_substring_refl].
  eapply is_substring_trans; [apply trim_substring |].
  destruct (capture_prefix _ C) as [rest Ec].
  eapply is_substring_trans; [| exact (after_fence_substring _ E)].
  eapply is_substring_trans; [| apply skip_tag_substring].
  eapply is_substring_trans; [| apply (dropWhile_substring is_space)].
  rewrite Ec. apply prefix_substring.
Qed.

Lemma drop_leading_substring (s : jsstring) : is_substring (drop_leading_prose s) s.
Proof.
  unfold drop_leading_prose, substring_from.
  destruct (_ && _); [| apply is_substring_refl].
  destruct (negb _); [apply skipn_substring | apply is_substring_refl].
Qed.

Lemma drop_trailing_substring (s : jsstring) : is_substring (drop_trailing_prose s) s.
Proof.
  unfold drop_trailing_prose, substring_to.
  destruct (_ && _); [| apply is_substring_refl].
  destruct (negb _); [apply firstn_substring | apply is_substring_refl].
Qed.

Lemma repair_shape (text : jsstring) :
  exists kept closers,
    tryRepairTruncatedJson text = kept ++ closers
    /\ is_prefix kept text
    /\ Forall is_closer closers.
Proof.
  unfold tryRepairTruncatedJson.
  set (quoted := if scan_quotes text false None then text ++ [ch_quote] else text).
  set (cut1 := cut_at_comma dangling_tail quoted).
  set (cut2 := cut_at_comma (forallb is_space) cut1).
  assert (P : is_prefix cut2 quoted).
  { eapply is_prefix_trans; apply cut_at_comma_prefix. }
  assert (Q : cut2 = text ++ [ch_quote] \/ is_prefix cut2 text).
  { unfold quoted in P. destruct (scan_quotes text false None).
    - now apply is_prefix_snoc.
    - now right. }
  destruct Q as [Q | Q].
  - exists text, ([ch_quote] ++ unclosed cut2). rewrite Q at 1. rewrite <- app_assoc.
    split; [reflexivity |]. split; [apply is_prefix_refl |].
    apply Forall_app. split; [| apply unclosed_closers].
    constructor; [left; reflexivity | constructor].
  - exists cut2, (unclosed cut2).
    split; [reflexivity |]. split; [assumption | apply unclosed_closers].
Qed.

(** X3.  What the sanitizer returns is a contiguous block of the response
    followed only by closing characters (the quote, the right brace, the
    right bracket): it never rewrites or invents the content it returns. *)
Theorem sanitizer_returns_a_block_of_the_response (text : jsstring) :
  exists mid closers,
    cleanJsonResponse text = Normal (mid ++ closers)
    /\ is_substring mid text
    /\ Forall is_closer closers.
Proof.
  unfold cleanJsonResponse.
  set (cleaned := drop_trailing_prose (drop_leading_prose (strip_fence (trim text)))).
  assert (S : is_substring cleaned text).
  { unfold cleaned.
    eapply is_substring_trans; [apply drop_trailing_substring |].
    eapply is_substring_trans; [apply drop_leading_substring |].
    eapply is_substring_trans; [apply strip_fence_substring |].
    apply trim_substring. }
  unfold try_catch, bind. destruct (JSON_parse cleaned).
  - exists cleaned, []. rewrite app_nil_r. repeat split; [exact S | constructor].
  - destruct (repair_shape cleaned) as (kept & closers & E & [rest P] & C).
    exists kept, closers. rewrite E. repeat split; [| exact C].
    eapply is_substring_trans; [| exact S]. rewrite P. apply prefix_substring.
Qed.

(** ** White space, searches and cuts over concatenations *)

Lemma dropWhile_app_stop (p : jschar -> bool) (a : jsstring) (c : jschar) (r : jsstring) :
  p c = false -> dropWhile p (a ++ c :: r) = dropWhile p a ++ c :: r.
Proof.
  intros Hc. induction a as [| x a IH]; simpl.
  - now rewrite Hc.
  - destruct (p x); [exact IH | reflexivity].
Qed.

Lemma trimStart_app (a : jsstring) (c : jschar) (r : jsstring) :
  is_space c = false -> trimStart (a ++ c :: r) = trimStart a ++ c :: r.
Proof. apply dropWhile_app_stop. Qed.

Lemma trimEnd_app (s : jsstring) (z : jschar) (b : jsstring) :
  is_space z = false -> trimEnd (s ++ z :: b) = s ++ z :: trimEnd b.
Proof.
  intros Hz. unfold trimEnd.
  assert (E : rev (s ++ z :: b) = rev b ++ z :: rev s).
  { rewrite rev_app_distr. simpl. now rewrite <- app_assoc. }
  rewrite E, (dropWhile_app_stop is_space (rev b) z (rev s) Hz).
  rewrite rev_app_distr. simpl. rewrite rev_involutive. now rewrite <- app_assoc.
Qed.

(** [trim] around a block whose first and last units are not white
    space. *)
Lemma trim_around (a body b : jsstring) (c : jschar) (r s : jsstring) (z : jschar) :
  body = c :: r -> body = s ++ [z] ->
  is_space c = false -> is_space z = false ->
  trim (a ++ body ++ b) = trimStart a ++ body ++ trimEnd b.
Proof.
  intros Ec Es Hc Hz. unfold trim.
  assert (E1 : trimStart (a ++ body ++ b) = trimStart a ++ body ++ b).
  { rewrite Ec. change ((c :: r) ++ b) with (c :: (r ++ b)). now apply trimStart_app. }
  rewrite E1, Es.
  replace (trimStart a ++ (s ++ [z]) ++ b) with ((trimStart a ++ s) ++ z :: b)
    by (now rewrite <- !app_assoc).
  rewrite (trimEnd_app (trimStart a ++ s) z b Hz).
  now rewrite <- !app_assoc.
Qed.

Lemma forallb_substring (p : jschar -> bool) (a b : jsstring) :
  is_substring a b -> forallb p b = true -> forallb p a = true.
Proof.
  intros (pre & post & ->). rewrite !forallb_app, !andb_true_iff. tauto.
Qed.

Lemma strip_prefix_more (pat s r t : jsstring) :
  strip_prefix pat s = Some r -> strip_prefix pat (s ++ t) = Some (r ++ t).
Proof.
  revert s. induction pat as [| x pat IH]; intros s; simpl.
  - now intros [= ->].
  - destruct s as [| c s]; [discriminate |]. simpl.
    destruct (c =? x)%N; [apply IH | discriminate].
Qed.

Lemma contains_app_l (pat a b : jsstring) :
  contains pat (a ++ b) = false -> contains pat a = false.
Proof.
  induction a as [| x a IH].
  - simpl. destruct pat as [| y pat]; [| reflexivity].
    destruct b; simpl; discriminate.
  - change ((x :: a) ++ b) with (x :: (a ++ b)). cbn [contains].
    destruct (strip_prefix pat (x :: a ++ b)) eqn:E; [discriminate |].
    intros H. destruct (strip_prefix pat (x :: a)) as [r |] eqn:E'.
    + apply (strip_prefix_more _ _ b) in E'.
      change ((x :: a) ++ b) with (x :: a ++ b) in E'. congruence.
    + now apply IH.
Qed.

Lemma contains_app_r (pat a b : jsstring) :
  contains pat (a ++ b) = false -> contains pat b = false.
Proof.
  induction a as [| x a IH]; [trivial |].
  intros H. apply IH. exact (@contains_tail _ _ _ H).
Qed.

Lemma contains_substring (pat a b : jsstring) :
  is_substring a b -> contains pat b = false -> contains pat a = false.
Proof.
  intros (pre & post & ->) H.
  apply contains_app_r in H. now apply contains_app_l in H.
Qed.

Lemma no_fence_no_match (s : jsstring) :
  contains fence s = false -> codeBlockMatch s = None.
Proof.
  intros H. unfold codeBlockMatch.
  assert (E : after_fence s = None).
  { induction s as [| c s IH]; [reflexivity |].
    cbn [after_fence]. rewrite (@contains_head _ _ H).
    apply IH. exact (@contains_tail _ _ _ H). }
  now rewrite E.
Qed.

Lemma search_app (p : jschar -> bool) (a : jsstring) (c : jschar) (r : jsstring) :
  forallb (fun x => negb (p x)) a = true -> p c = true ->
  search p (a ++ c :: r) = Z.of_nat (length a).
Proof.
  intros Ha Hc. induction a as [| x a IH].
  - simpl. now rewrite Hc.
  - simpl in Ha. apply andb_true_iff in Ha. destruct Ha as [Hx Ha].
    apply negb_true_iff in Hx.
    change ((x :: a) ++ c :: r) with (x :: (a ++ c :: r)). cbn [search].
    rewrite Hx, (IH Ha).
    destruct (Z.of_nat (length a)) eqn:E; cbn [length]; lia.
Qed.

Lemma skipn_exact (a b : jsstring) : skipn (length a) (a ++ b) = b.
Proof. induction a; simpl; trivial. Qed.

Lemma firstn_exact (a b : jsstring) : firstn (length a) (a ++ b) = a.
Proof. induction a; simpl; [reflexivity | now f_equal]. Qed.

Lemma lastIndexOf_app_none (s t : jsstring) (c : jschar) :
  forallb (fun x => negb (x =? c)%N) t = true ->
  lastIndexOf (s ++ t) c = lastIndexOf s c.
Proof.
  intros Ht. induction s as [| x s IH].
  - simpl. now apply lastIndexOf_none.
  - change ((x :: s) ++ t) with (x :: (s ++ t)). cbn [lastIndexOf]. now rewrite IH.
Qed.

Lemma lastIndexOf_last (s : jsstring) (c : jschar) :
  lastIndexOf (s ++ [c]) c = Z.of_nat (length s).
Proof.
  induction s as [| x s IH].
  - simpl. now rewrite N.eqb_refl.
  - change ((x :: s) ++ [c]) with (x :: (s ++ [c])). cbn [lastIndexOf]. rewrite IH.
    destruct (Z.of_nat (length s)) eqn:E; cbn [length]; lia.
Qed.

Lemma lastIndexOf_bound (s : jsstring) (c : jschar) :
  (-1 <= lastIndexOf s c < Z.of_nat (length s))%Z.
Proof.
  induction s as [| x s IH]; [simpl; lia |].
  cbn [lastIndexOf length].
  destruct (lastIndexOf s c) eqn:E; [lia | lia |].
  destruct (x =? c)%N; lia.
Qed.

(** The two cuts of steps 3 and 4 on prose, a document, prose. *)
Lemma drop_leading_prose_before (p : jsstring) (c : jschar) (r : jsstring) :
  forallb not_open p = true -> is_open c = true ->
  drop_leading_prose (p ++ c :: r) = c :: r.
Proof.
  intros Hp Hc. unfold drop_leading_prose.
  destruct p as [| x p].
  - cbn [app startsWith]. unfold is_open in Hc.
    apply orb_true_iff in Hc. destruct Hc as [Hc | Hc]; rewrite Hc; cbn;
      [now rewrite andb_false_r | reflexivity].
  - assert (Hx : is_open x = false).
    { simpl in Hp. apply andb_true_iff in Hp. now apply negb_true_iff. }
    unfold is_open in Hx. apply orb_false_iff in Hx. destruct Hx as [Hx1 Hx2].
    change ((x :: p) ++ c :: r) with (x :: (p ++ c :: r)) at 1 2.
    cbn [startsWith]. rewrite Hx1, Hx2. cbn [negb andb].
    rewrite (search_app is_open (x :: p) c r Hp Hc).
    assert (N : (Z.of_nat (length (x :: p)) =? -1)%Z = false) by (apply Z.eqb_neq; lia).
    rewrite N. cbn [negb]. unfold substring_from. rewrite Nat2Z.id.
    apply skipn_exact.
Qed.

Lemma drop_trailing_prose_after (s : jsstring) (z : jschar) (q : jsstring) :
  is_close z = true -> forallb not_close q = true ->
  drop_trailing_prose (s ++ z :: q) = s ++ [z].
Proof.
  intros Hz Hq. unfold drop_trailing_prose.
  assert (Hq1 : forallb (fun x => negb (x =? ch_rbrace)%N) q = true).
  { apply forallb_weaken with (2 := Hq). intros x. unfold not_close, is_close.
    rewrite !negb_true_iff, orb_false_iff. tauto. }
  assert (Hq2 : forallb (fun x => negb (x =? ch_rbracket)%N) q = true).
  { apply forallb_weaken with (2 := Hq). intros x. unfold not_close, is_close.
    rewrite !negb_true_iff, orb_false_iff. tauto. }
  destruct q as [| y q] using rev_ind.
  - rewrite !endsWith_last. unfold is_close in Hz.
    apply orb_true_iff in Hz. destruct Hz as [Hz | Hz]; rewrite Hz; cbn;
      [reflexivity | now rewrite andb_false_r].
  - clear IHq.
    assert (Hy : is_close y = false).
    { rewrite forallb_app in Hq. apply andb_true_iff in Hq. destruct Hq as [_ Hq].
      simpl in Hq. rewrite andb_true_r in Hq. now apply negb_true_iff. }
    unfold is_close in Hy. apply orb_false_iff in Hy. destruct Hy as [Hy1 Hy2].
    replace (s ++ z :: q ++ [y]) with ((s ++ z :: q) ++ [y])
      by (now rewrite <- app_assoc).
    rewrite !endsWith_last, Hy1, Hy2. cbn [negb andb].
    replace ((s ++ z :: q) ++ [y]) with ((s ++ [z]) ++ (q ++ [y]))
      by (now rewrite <- !app_assoc).
    rewrite (lastIndexOf_app_none (s ++ [z]) (q ++ [y]) ch_rbrace Hq1),
      (lastIndexOf_app_none (s ++ [z]) (q ++ [y]) ch_rbracket Hq2).
    assert (M : Z.max (lastIndexOf (s ++ [z]) ch_rbrace) (lastIndexOf (s ++ [z]) ch_rbracket)
                = Z.of_nat (length s)).
    { unfold is_close in Hz. apply orb_true_iff in Hz.
      destruct Hz as [Hz | Hz]; apply N.eqb_eq in Hz; subst z.
      - rewrite lastIndexOf_last, (lastIndexOf_app_none s [ch_rbrace] ch_rbracket eq_refl).
        pose proof (lastIndexOf_bound s ch_rbracket). lia.
      - rewrite lastIndexOf_last, (lastIndexOf_app_none s [ch_rbracket] ch_rbrace eq_refl).
        pose proof (lastIndexOf_bound s ch_rbrace). lia. }
    rewrite M.
    assert (N : (Z.of_nat (length s) =? -1)%Z = false) by (apply Z.eqb_neq; lia).
    rewrite N. cbn [negb]. unfold substring_to.
    replace (Z.to_nat (Z.of_nat (length s) + 1)) with (length (s ++ [z]))
      by (rewrite length_app; simpl; lia).
    apply firstn_exact.
Qed.

(** The ends of a document: its first unit opens, its last unit closes,
    and neither is white space. *)
Lemma document_ends (body : jsstring) :
  valid_json body -> trim body = body ->
  startsWith body ch_lbrace = true \/ startsWith body ch_lbracket = true ->
  (exists c r, body = c :: r /\ is_open c = true /\ is_space c = false /\ c <> 106%N)
  /\ (exists s z, body = s ++ [z] /\ is_close z = true /\ is_space z = false
                  /\ z <> ch_backtick).
Proof.
  intros Hv Ht Hk. split.
  - destruct body as [| c r]; [destruct Hk; discriminate |].
    exists c, r. simpl in Hk.
    destruct Hk as [H | H]; apply N.eqb_eq in H; subst c; repeat split; discriminate.
  - destruct Hk as [H | H].
    + destruct (@endsWith_split _ _ (@document_closed ch_lbrace ch_rbrace body Hv Ht
                                       (or_introl (conj eq_refl eq_refl)) H)) as [s E].
      exists s, ch_rbrace. repeat split; [exact E | discriminate].
    + destruct (@endsWith_split _ _ (@document_closed ch_lbracket ch_rbracket body Hv Ht
                                       (or_intror (conj eq_refl eq_refl)) H)) as [s E].
      exists s, ch_rbracket. repeat split; [exact E | discriminate].
Qed.

(** X1.  Prose before and after a JSON document is dropped: when the text
    in front holds no brace or bracket, the text behind holds no closing
    brace or bracket, and there is no triple backtick anywhere, the
    sanitizer returns the document itself. *)
Theorem sanitizer_strips_prose (p body q : jsstring) :
  valid_json body ->
  trim body = body ->
  startsWith body ch_lbrace = true \/ startsWith body ch_lbracket = true ->
  forallb not_open p = true ->
  forallb not_close q = true ->
  contains fence (p ++ body ++ q) = false ->
  cleanJsonResponse (p ++ body ++ q) = Normal body.
Proof.
  intros Hv Ht Hk Hp Hq Hf.
  destruct (@document_ends body Hv Ht Hk)
    as ((c & r & Ec & Hco & Hcs & _) & (s & z & Es & Hzc & Hzs & _)).
  assert (T : trim (p ++ body ++ q) = trimStart p ++ body ++ trimEnd q)
    by exact (@trim_around p body q c r s z Ec Es Hcs Hzs).
  assert (Sp : is_substring (trimStart p) p) by apply dropWhile_substring.
  assert (Sq : is_substring (trimEnd q) q) by apply trimEnd_substring.
  unfold cleanJsonResponse. rewrite T.
  assert (F : strip_fence (trimStart p ++ body ++ trimEnd q)
              = trimStart p ++ body ++ trimEnd q).
  { unfold strip_fence. rewrite no_fence_no_match; [reflexivity |].
    rewrite <- T. exact (@contains_substring fence _ _ (trim_substring _) Hf). }
  rewrite F.
  assert (L : drop_leading_prose (trimStart p ++ body ++ trimEnd q) = body ++ trimEnd q).
  { rewrite Ec. apply drop_leading_prose_before; [| exact Hco].
    exact (@forallb_substring not_open _ _ Sp Hp). }
  rewrite L.
  assert (R : drop_trailing_prose (body ++ trimEnd q) = body).
  { rewrite Es at 1. rewrite <- app_assoc. cbn [app].
    rewrite (drop_trailing_prose_after s z (trimEnd q) Hzc (@forallb_substring not_close _ _ Sq Hq)).
    now rewrite Es. }
  rewrite R. destruct Hv as [v Hv]. rewrite Hv. reflexivity.
Qed.

(** The theorem on a chatty response. *)
Lemma sanitizer_strips_prose_witness :
  cleanJsonResponse (js "Sure! Here is the result: " ++ js "{'score': [1, 2]}"
                     ++ js " I hope this helps.")
  = Normal (js "{'score': [1, 2]}").
Proof.
  apply sanitizer_strips_prose.
  - exists (JObject [(js "score", JArray [JNumber 1; JNumber 2])]). vm_compute. reflexivity.
  - vm_compute. reflexivity.
  - left. vm_compute. reflexivity.
  - vm_compute. reflexivity.
  - vm_compute. reflexivity.
  - vm_compute. reflexivity.
Defined.

(** ** A fenced block inside prose *)

Lemma capture_spaces_then (w t : jsstring) :
  forallb is_space w = true ->
  exists w', capture_until_close (w ++ fence ++ t) = Some w'
             /\ forallb is_space w' = true.
Proof.
  induction w as [| c w IH]; intros H.
  - exists []. split; reflexivity.
  - simpl in H. apply andb_true_iff in H. destruct H as [Hc Hw].
    destruct (IH Hw) as (w' & E & F).
    change ((c :: w) ++ fence ++ t) with (c :: (w ++ fence ++ t)). rewrite capture_cons.
    destruct (strip_prefix (ch_lf :: fence) (c :: w ++ fence ++ t)).
    + exists []. split; reflexivity.
    + rewrite (@strip_fence_other c (w ++ fence ++ t) (@space_not_backtick c Hc)), E.
      exists (c :: w'). simpl. now rewrite Hc, F.
Qed.

Lemma capture_body_then (b : jsstring) (z : jschar) (w t : jsstring) :
  contains fence (b ++ [z]) = false ->
  z <> ch_backtick -> is_space z = false -> forallb is_space w = true ->
  exists w', capture_until_close (b ++ z :: w ++ fence ++ t) = Some (b ++ z :: w')
             /\ forallb is_space w' = true.
Proof.
  intros Hc Hz Hs Hw. destruct (@capture_spaces_then w t Hw) as (w' & E & F).
  exists w'. split; [| exact F].
  induction b as [| c b IH].
  - change ([] ++ z :: w ++ fence ++ t) with (z :: (w ++ fence ++ t)). rewrite capture_cons.
    rewrite (@strip_lf_fence_other z (w ++ fence ++ t) (@not_space_not_lf z Hs)).
    rewrite (@strip_fence_other z (w ++ fence ++ t) Hz), E. reflexivity.
  - change ((c :: b) ++ z :: w ++ fence ++ t) with (c :: (b ++ z :: w ++ fence ++ t)).
    rewrite capture_cons.
    change ((c :: b) ++ [z]) with (c :: (b ++ [z])) in Hc.
    pose proof (@contains_head _ _ Hc) as H1.
    pose proof (@contains_tail _ _ _ Hc) as H2.
    assert (N1 : strip_prefix fence (c :: b ++ z :: w ++ fence ++ t) = None).
    { apply (@strip_prefix_extend fence (c :: b) z (w ++ fence ++ t));
        [now apply not_in_fence | exact H1]. }
    assert (N2 : strip_prefix (ch_lf :: fence) (c :: b ++ z :: w ++ fence ++ t) = None).
    { cbn [strip_prefix]. destruct (c =? ch_lf)%N; [| reflexivity].
      apply (@strip_prefix_extend fence b z (w ++ fence ++ t)); [now apply not_in_fence |].
      exact (@contains_head _ _ H2). }
    rewrite N2, N1, (IH H2). reflexivity.
Qed.

Lemma after_fence_prose (p rest : jsstring) :
  forallb not_backtick p = true -> after_fence (p ++ fence ++ rest) = Some rest.
Proof.
  induction p as [| x p IH]; intros H.
  - reflexivity.
  - simpl in H. apply andb_true_iff in H. destruct H as [Hx Hp].
    change ((x :: p) ++ fence ++ rest) with (x :: (p ++ fence ++ rest)).
    cbn [after_fence]. rewrite strip_fence_other.
    + now apply IH.
    + intros ->. discriminate.
Qed.

(** X2.  A fenced block is found inside prose.  When the text in front of
    the opening fence holds no backtick, the sanitizer returns the fenced
    JSON document whatever follows the closing fence. *)
Theorem sanitizer_finds_fenced_json_in_prose (p tag w1 body w2 q : jsstring) :
  forallb not_backtick p = true ->
  tag = [] \/ tag = js "json" ->
  forallb is_space w1 = true ->
  forallb is_space w2 = true ->
  valid_json body ->
  trim body = body ->
  contains fence body = false ->
  startsWith body ch_lbrace = true \/ startsWith body ch_lbracket = true ->
  cleanJsonResponse (p ++ (fence ++ tag ++ w1 ++ body ++ w2 ++ fence) ++ q) = Normal body.
Proof.
  intros Hp Htag Hw1 Hw2 Hv Ht Hc Hk.
  destruct (@document_ends body Hv Ht Hk)
    as ((c & r & Ec & Hco & Hcs & Hcj) & (s & z & Es & Hzc & Hzs & Hzb)).
  set (inner := tag ++ w1 ++ body ++ w2).
  assert (T : trim (p ++ (fence ++ tag ++ w1 ++ body ++ w2 ++ fence) ++ q)
              = trimStart p ++ (fence ++ inner ++ fence) ++ trimEnd q).
  { replace (fence ++ tag ++ w1 ++ body ++ w2 ++ fence) with (fence ++ inner ++ fence)
      by (unfold inner; now rewrite <- !app_assoc).
    apply (@trim_around p (fence ++ inner ++ fence) q ch_backtick
             ([ch_backtick; ch_backtick] ++ inner ++ fence)
             (fence ++ inner ++ [ch_backtick; ch_backtick]) ch_backtick);
      [reflexivity | | reflexivity | reflexivity].
    unfold fence. now rewrite <- !app_assoc. }
  unfold cleanJsonResponse. rewrite T.
  assert (Es' : strip_fence (trimStart p ++ (fence ++ inner ++ fence) ++ trimEnd q) = body).
  { unfold strip_fence, codeBlockMatch.
    replace (trimStart p ++ (fence ++ inner ++ fence) ++ trimEnd q)
      with (trimStart p ++ fence ++ (inner ++ fence ++ trimEnd q))
      by (now rewrite <- !app_assoc).
    rewrite after_fence_prose
      by exact (@forallb_substring not_backtick _ _ (dropWhile_substring is_space p) Hp).
    assert (Et : dropWhile is_space (skip_tag (inner ++ fence ++ trimEnd q))
                 = body ++ w2 ++ fence ++ trimEnd q).
    { unfold inner. rewrite <- !app_assoc.
      destruct w1 as [| x w1'].
      - simpl app. rewrite Ec. simpl app.
        rewrite (@skip_tag_body tag _ c Htag Hcj). simpl. now rewrite Hcs.
      - simpl in Hw1. apply andb_true_iff in Hw1. destruct Hw1 as [Hx Hw1].
        simpl app.
        rewrite (@skip_tag_body tag _ x Htag); [| intros ->; discriminate].
        simpl. rewrite Hx. rewrite (@dropWhile_all is_space w1' _ Hw1).
        rewrite Ec. simpl. now rewrite Hcs. }
    rewrite Et.
    assert (Hc' : contains fence (s ++ [z]) = false) by (now rewrite <- Es).
    destruct (@capture_body_then s z w2 (trimEnd q) Hc' Hzb Hzs Hw2) as (w' & Ecap & Fw).
    rewrite Es.
    replace ((s ++ [z]) ++ w2 ++ fence ++ trimEnd q)
      with (s ++ z :: w2 ++ fence ++ trimEnd q) by (now rewrite <- app_assoc).
    rewrite Ecap.
    change (s ++ z :: w') with (s ++ [z] ++ w'). rewrite app_assoc, <- Es.
    apply trim_app_spaces; [exact Ht | exact Fw |].
    rewrite Ec. discriminate. }
  rewrite Es'. apply clean_tail; [exact Hv | exact Ht | tauto].
Qed.

(** The theorem on a chatty response with a fenced block. *)
Lemma sanitizer_finds_fenced_json_in_prose_witness :
  cleanJsonResponse (js "Here you go:" ++ LF
                     ++ (fence ++ js "json" ++ LF ++ js "[{'id': 1}]" ++ LF ++ fence)
                     ++ LF ++ js "Anything else? {maybe}")
  = Normal (js "[{'id': 1}]").
Proof.
  apply (@sanitizer_finds_fenced_json_in_prose
           (js "Here you go:" ++ LF) (js "json") LF (js "[{'id': 1}]") LF
           (LF ++ js "Anything else? {maybe}")).
  - vm_compute. reflexivity.
  - right. reflexivity.
  - vm_compute. reflexivity.
  - vm_compute. reflexivity.
  - exists (JArray [JObject [(js "id", JNumber 1)]]). vm_compute. reflexivity.
  - vm_compute. reflexivity.
  - vm_compute. reflexivity.
  - right. vm_compute. reflexivity.
Defined.

(** ** The scanner of step 3 *)

Lemma scan_step_ok (st : scan) (ch : jschar) : scan_ok st -> scan_ok (scan_step st ch).
Proof.
  intros [He Hs]. unfold scan_step.
  destruct (escape st) eqn:E.
  { split; cbn [escape inStr stack]; [discriminate | exact Hs]. }
  destruct ((ch =? ch_backslash)%N && inStr st) eqn:B.
  { apply andb_true_iff in B. destruct B as [_ B].
    split; cbn [escape inStr stack]; [intros _; exact B | exact Hs]. }
  destruct (ch =? ch_quote)%N.
  { split; cbn [escape inStr stack]; [congruence | exact Hs]. }
  destruct (inStr st) eqn:I.
  { split; [congruence | exact Hs]. }
  destruct (ch =? ch_lbrace)%N.
  { split; cbn [escape inStr stack]; [congruence |].
    constructor; [now left | exact Hs]. }
  destruct (ch =? ch_lbracket)%N.
  { split; cbn [escape inStr stack]; [congruence |].
    constructor; [now right | exact Hs]. }
  destruct ((ch =? ch_rbrace)%N || (ch =? ch_rbracket)%N);
    [| split; [congruence | exact Hs]].
  destruct (stack st) as [| top below] eqn:S.
  { split; [congruence | now rewrite S]. }
  destruct (top =? ch)%N.
  - split; cbn [escape inStr stack]; [congruence | now inversion Hs].
  - split; [congruence | now rewrite S].
Qed.

Lemma scan_fold_ok (s : jsstring) (st : scan) :
  scan_ok st -> scan_ok (fold_left scan_step s st).
Proof.
  revert st. induction s as [| c s IH]; intros st H; simpl; [exact H |].
  apply IH. now apply scan_step_ok.
Qed.

Lemma scan_of_ok (s : jsstring) : scan_ok (scan_of s).
Proof. apply scan_fold_ok. split; [discriminate | constructor]. Qed.

(** Outside a string, scanning the stack's own content empties it. *)
Lemma scan_pops_all (l : list jschar) (st : scan) :
  stack st = l -> Forall is_bracket_closer l ->
  inStr st = false -> escape st = false ->
  stack (fold_left scan_step l st) = [] /\ inStr (fold_left scan_step l st) = false.
Proof.
  revert st. induction l as [| c l IH]; intros st Hs Hb Hi He; simpl.
  - now split.
  - inversion Hb as [| ? ? Hc Hl]; subst.
    assert (E : scan_step st c = mkScan l false false).
    { unfold scan_step. rewrite He, Hi, Hs, andb_false_r.
      destruct Hc as [-> | ->]; cbn; reflexivity. }
    rewrite E. apply IH; [reflexivity | exact Hl | reflexivity | reflexivity].
Qed.

(** Inside a string, bracket closers change nothing. *)
Lemma scan_stays_in_string (l : list jschar) (st : scan) :
  Forall is_bracket_closer l -> inStr st = true ->
  inStr (fold_left scan_step l st) = true.
Proof.
  revert st. induction l as [| c l IH]; intros st Hb Hi; simpl; [exact Hi |].
  inversion Hb as [| ? ? Hc Hl]; subst. apply IH; [exact Hl |].
  unfold scan_step. destruct (escape st); [exact Hi |].
  rewrite Hi. destruct Hc as [-> | ->]; cbn; exact Hi.
Qed.

(** X4.  Re-scanning what the repairer returns: unless the text ends inside
    a string literal, no bracket is left open.  The closers appended by
    step 3 close every structure the scan had found open, innermost
    first. *)
Theorem repaired_text_is_balanced (text : jsstring) :
  inStr (scan_of (tryRepairTruncatedJson text)) = false ->
  unclosed (tryRepairTruncatedJson text) = [].
Proof.
  unfold tryRepairTruncatedJson.
  set (r := cut_at_comma (forallb is_space) _).
  unfold unclosed at 2. fold (scan_of (r ++ unclosed r)).
  unfold scan_of at 1 2. rewrite !fold_left_app. fold (scan_of r).
  unfold unclosed. fold (scan_of r).
  destruct (scan_of_ok r) as [He Hs].
  destruct (inStr (scan_of r)) eqn:I.
  - intros F. rewrite (scan_stays_in_string _ Hs I) in F. discriminate.
  - intros _. apply scan_pops_all; [reflexivity | exact Hs | exact I |].
    destruct (escape (scan_of r)); [now specialize (He eq_refl) | reflexivity].
Qed.

(** The theorem on an object cut off inside a nested array. *)
Lemma repaired_text_is_balanced_witness :
  tryRepairTruncatedJson (js "{'a': [1, {'b': 'x'}, 2") = js "{'a': [1, {'b': 'x'}, 2]}"
  /\ unclosed (js "{'a': [1, {'b': 'x'}, 2]}") = [].
Proof.
  split; [vm_compute; reflexivity |].
  apply (@repaired_text_is_balanced (js "{'a': [1, {'b': 'x'}, 2")).
  vm_compute. reflexivity.
Defined.

End SanitizerMoreFacts.

(* ===================================================================== *)
(** * Facts about the request URL                                        *)
(* ===================================================================== *)

Module ClientFacts.
Import JsStr Client.

Lemma strip_trailing_slashes_app (base extra : jsstring) :
  forallb is_slash extra = true ->
  strip_trailing_slashes (base ++ extra) = strip_trailing_slashes base.
Proof.
  intros He. induction base as [| c b IH].
  - destruct extra as [| x e]; [reflexivity |]. simpl in *. now rewrite He.
  - change ((c :: b) ++ extra) with (c :: (b ++ extra)). cbn [strip_trailing_slashes].
    rewrite forallb_app, He, andb_true_r, IH. reflexivity.
Qed.

(** X5.  Trailing slashes of the configured base URL do not matter: the
    request goes to the same URL however many slashes end the base. *)
Theorem url_ignores_trailing_slashes (base extra : jsstring) :
  forallb is_slash extra = true ->
  chat_completions_url (base ++ extra) = chat_completions_url base.
Proof.
  intros He. unfold chat_completions_url. now rewrite strip_trailing_slashes_app.
Qed.

(** The theorem on a base URL written with two slashes at its end. *)
Lemma url_ignores_trailing_slashes_witness :
  chat_completions_url (js "https://api.example.com/v1" ++ js "//")
  = chat_completions_url (js "https://api.example.com/v1").
Proof.
  apply url_ignores_trailing_slashes. vm_compute. reflexivity.
Defined.

Lemma endsWith_cons (c x : jschar) (s : jsstring) (u : jschar) :
  endsWith (c :: x :: s) u = endsWith (x :: s) u.
Proof.
  unfold endsWith. cbn [rev].
  destruct (rev s ++ [x]) as [| y l] eqn:E.
  - destruct (rev s); discriminate.
  - reflexivity.
Qed.

(** X6.  The URL is the base without its run of trailing slashes,
    followed by the path: only slashes at the end are removed, and what is
    kept never ends in a slash, so the URL never holds a doubled slash in
    front of the path. *)
Theorem url_keeps_base_without_trailing_slashes (base : jsstring) :
  exists kept slashes,
    base = kept ++ slashes
    /\ forallb is_slash slashes = true
    /\ endsWith kept ch_slash = false
    /\ chat_completions_url base = kept ++ js "/chat/completions".
Proof.
  unfold chat_completions_url.
  enough (H : exists slashes,
             base = strip_trailing_slashes base ++ slashes
             /\ forallb is_slash slashes = true
             /\ endsWith (strip_trailing_slashes base) ch_slash = false).
  { destruct H as (sl & E & F & G). exists (strip_trailing_slashes base), sl. tauto. }
  induction base as [| c b (sl & E & F & G)].
  - exists []. repeat split.
  - cbn [strip_trailing_slashes].
    destruct (is_slash c && forallb is_slash b) eqn:C.
    + exists (c :: b). repeat split. simpl. exact C.
    + exists sl. split; [simpl; now f_equal |]. split; [exact F |].
      destruct (strip_trailing_slashes b) as [| x k] eqn:K.
      * unfold endsWith. simpl. simpl in E. subst b. rewrite F, andb_true_r in C.
        exact C.
      * rewrite endsWith_cons. exact G.
Qed.

End ClientFacts.

(* ===================================================================== *)
(** * More facts about the score normaliser                              *)
(* ===================================================================== *)

Module NormalizerMoreFacts.
Import JsStr JsNum Normalizer Grid GridMore NormalizerFacts.

Lemma grid_total_scale_0 : on_grid (check_total_scale 0) = true.
Proof. vm_compute. reflexivity. Qed.

Lemma grid_total_scale_3 : on_grid (check_total_scale 3) = true.
Proof. vm_compute. reflexivity. Qed.

Lemma grid_raises : on_grid check_raises = true.
Proof. vm_compute. reflexivity. Qed.

Lemma on_total_scale_inv (v : num) :
  on_total_scale v = true ->
  exists k, v = half k /\ (0 <= k <= 30)%Z
            /\ le (Fin 0) v = true /\ le v (Fin 15) = true.
Proof.
  destruct v as [| | | [n p]]; try discriminate.
  destruct p as [p | p |]; try discriminate.
  destruct p as [p | p |]; try discriminate.
  cbn [on_total_scale]. intros H. apply andb_true_iff in H. destruct H as [H1 H2].
  apply Z.leb_le in H1, H2. exists n. repeat split; try assumption.
  - cbn [le]. apply Qle_bool_iff. unfold Qle. simpl. lia.
  - cbn [le]. apply Qle_bool_iff. unfold Qle. simpl. lia.
Qed.

Lemma on_scale_inv (x : dim) (v : num) :
  on_scale x v = true ->
  exists k, v = half k /\ (0 <= k <= max_halves x)%Z
            /\ le (Fin 0) v = true /\ le v (max x) = true.
Proof.
  destruct v as [| | | [n p]]; try discriminate.
  destruct p as [p | p |]; try discriminate.
  destruct p as [p | p |]; try discriminate.
  cbn [on_scale]. intros H. apply andb_true_iff in H. destruct H as [H1 H2].
  apply Z.leb_le in H1, H2. exists n. repeat split; try assumption.
  - cbn [le]. apply Qle_bool_iff. unfold Qle. simpl. lia.
  - destruct x; cbn [le max]; apply Qle_bool_iff; unfold Qle; simpl in *; lia.
Qed.

Lemma total_never_exceeds_15_aux (d : Step1Data) (g : Graded) :
  normalize d = Normal g ->
  totalScore g = NaN
  \/ exists k, totalScore g = half k /\ (0 <= k <= 30)%Z.
Proof.
  unfold normalize. intros H.
  destruct (base_scores d) as [g0 |] eqn:Eb; [| discriminate].
  cbn [bind] in H. injection H as <-.
  destruct (@base_shape d g0 Eb) as [[Ht _] | (kc & ko & kp & kcl & Hc & Ho & Hp & Hcl & ->)].
  - left. rewrite (@calibrate_nan _ _ Ht). exact Ht.
  - right.
    assert (T : on_total_scale (totalScore (calibrate (criticalCount d)
                                              (grid_base kc ko kp kcl))) = true).
    { rewrite calibrate_count.
      destruct (criticalCount d <=? 2)%nat.
      + exact (@on_grid_sound _ grid_total_scale_0 kc ko kp kcl Hc Ho Hp Hcl).
      + exact (@on_grid_sound _ grid_total_scale_3 kc ko kp kcl Hc Ho Hp Hcl). }
    destruct (@on_total_scale_inv _ T) as (k & E & Hk & _). exists k. tauto.
Qed.

(** X7.  Whatever the model answered, the final total is NaN or a whole
    number of half points between 0 and 15: the calibration never takes it
    past the maximum of the scale. *)
Theorem total_never_exceeds_15 (d : Step1Data) (g : Graded) :
  normalize d = Normal g ->
  totalScore g = NaN
  \/ exists k, totalScore g = half k /\ (0 <= k <= 30)%Z
               /\ le (Fin 0) (totalScore g) = true
               /\ le (totalScore g) (Fin 15) = true.
Proof.
  unfold normalize. intros H.
  destruct (base_scores d) as [g0 |] eqn:Eb; [| discriminate].
  cbn [bind] in H. injection H as <-.
  destruct (@base_shape d g0 Eb) as [[Ht _] | (kc & ko & kp & kcl & Hc & Ho & Hp & Hcl & ->)].
  - left. rewrite (@calibrate_nan _ _ Ht). exact Ht.
  - right. apply on_total_scale_inv. rewrite calibrate_count.
    destruct (criticalCount d <=? 2)%nat.
    + exact (@on_grid_sound _ grid_total_scale_0 kc ko kp kcl Hc Ho Hp Hcl).
    + exact (@on_grid_sound _ grid_total_scale_3 kc ko kp kcl Hc Ho Hp Hcl).
Qed.

Lemma total_never_exceeds_15_witness :
  totalScore (mkGraded (grid_scores 8 6 10 6) (half 30)) = NaN
  \/ exists k, totalScore (mkGraded (grid_scores 8 6 10 6) (half 30)) = half k
               /\ (0 <= k <= 30)%Z
               /\ le (Fin 0) (totalScore (mkGraded (grid_scores 8 6 10 6) (half 30))) = true
               /\ le (totalScore (mkGraded (grid_scores 8 6 10 6) (half 30))) (Fin 15) = true.
Proof.
  apply (@total_never_exceeds_15 (scored 4 3 4 3 0)). vm_compute. reflexivity.
Defined.

(** X8.  When the four scores of the response convert to Numbers other
    than NaN, every final sub-score is a whole number of half points
    between 0 and the maximum of its dimension. *)
Theorem numeric_scores_stay_on_scale (d : Step1Data) (g : Graded) :
  normalize d = Normal g ->
  Number (or_else (raw_content d) (VNumber (Fin 0))) <> Normal NaN ->
  Number (or_else (raw_organization d) (VNumber (Fin 0))) <> Normal NaN ->
  Number (or_else (raw_proficiency d) (VNumber (Fin 0))) <> Normal NaN ->
  Number (or_else (raw_clarity d) (VNumber (Fin 0))) <> Normal NaN ->
  forall x, exists k,
    get (subScores g) x = half k /\ (0 <= k <= max_halves x)%Z
    /\ le (Fin 0) (get (subScores g) x) = true
    /\ le (get (subScores g) x) (max x) = true.
Proof.
  intros H Hc Ho Hp Hcl x. apply on_scale_inv.
  exact (@numeric_input_on_scale d g H Hc Ho Hp Hcl x).
Qed.

Lemma numeric_scores_stay_on_scale_witness :
  exists k,
    get (grid_scores 1 6 5 2) Proficiency = half k
    /\ (0 <= k <= max_halves Proficiency)%Z
    /\ le (Fin 0) (get (grid_scores 1 6 5 2) Proficiency) = true
    /\ le (get (grid_scores 1 6 5 2) Proficiency) (max Proficiency) = true.
Proof.
  refine (@numeric_scores_stay_on_scale (scored (-1) 30 (249 # 100) (1 # 4) 0)
            (mkGraded (grid_scores 1 6 5 2) (half 14)) _ _ _ _ _ Proficiency);
    vm_compute; (reflexivity || discriminate).
Defined.

Lemma le_half_refl (k : Z) : le (half k) (half k) = true.
Proof. cbn [le half]. apply Qle_bool_iff. apply Qle_refl. Qed.

Lemma base_scores_with_critical (d : Step1Data) (issues : value) :
  base_scores (with_critical d issues) = base_scores d.
Proof. reflexivity. Qed.

(** X10.  Critical issues only ever cost points: with the same four raw
    scores, a response that lists more critical issues gets no sub-score
    and no total above those of the response that lists fewer. *)
Theorem more_critical_issues_never_raise (d : Step1Data) (issues : value) (g g' : Graded) :
  (criticalCount d <= criticalCount (with_critical d issues))%nat ->
  normalize d = Normal g ->
  normalize (with_critical d issues) = Normal g' ->
  totalScore g = NaN
  \/ ((forall x, le (get (subScores g') x) (get (subScores g) x) = true)
      /\ le (totalScore g') (totalScore g) = true).
Proof.
  unfold normalize. rewrite base_scores_with_critical. intros Hn H H'.
  destruct (base_scores d) as [g0 |] eqn:Eb; [| discriminate].
  cbn [bind] in H, H'. injection H as <-. injection H' as <-.
  destruct (@base_shape d g0 Eb) as [[Ht _] | (kc & ko & kp & kcl & Hc & Ho & Hp & Hcl & ->)].
  - left. rewrite (@calibrate_nan _ _ Ht). exact Ht.
  - right.
    rewrite (calibrate_count (criticalCount d)).
    rewrite (calibrate_count (criticalCount (with_critical d issues))).
    assert (Hs0 := @on_grid_sound _ grid_scale_0 kc ko kp kcl Hc Ho Hp Hcl).
    assert (Hs3 := @on_grid_sound _ grid_scale_3 kc ko kp kcl Hc Ho Hp Hcl).
    assert (Ht0 := @on_grid_sound _ grid_total_scale_0 kc ko kp kcl Hc Ho Hp Hcl).
    assert (Ht3 := @on_grid_sound _ grid_total_scale_3 kc ko kp kcl Hc Ho Hp Hcl).
    assert (Hr := @on_grid_sound _ grid_raises kc ko kp kcl Hc Ho Hp Hcl).
    unfold check_scale in Hs0, Hs3. unfold check_total_scale in Ht0, Ht3.
    unfold check_raises in Hr. cbv zeta in Hs0, Hs3, Hr.
    apply andb_true_iff in Hs0, Hs3, Hr.
    destruct Hs0 as [Hs0 _]. destruct Hs3 as [Hs3 _]. destruct Hr as [Hr Hrt].
    rewrite forallb_forall in Hs0, Hs3, Hr.
    assert (C3 : calibrate 3 (grid_base kc ko kp kcl) = grid_base kc ko kp kcl).
    { apply calibrate_not_due. unfold bonus_due. cbn [Nat.leb]. apply andb_false_r. }
    destruct (criticalCount (with_critical d issues) <=? 2)%nat eqn:E'.
    + assert (E : (criticalCount d <=? 2)%nat = true).
      { apply Nat.leb_le. apply Nat.leb_le in E'. lia. }
      rewrite E. split.
      * intros x. destruct (@on_scale_inv x _ (Hs0 x (all_dims x))) as (k & -> & _).
        apply le_half_refl.
      * destruct (@on_total_scale_inv _ Ht0) as (k & -> & _). apply le_half_refl.
    + destruct (criticalCount d <=? 2)%nat.
      * rewrite C3. split; [intros x; exact (Hr x (all_dims x)) | exact Hrt].
      * split.
        -- intros x. destruct (@on_scale_inv x _ (Hs3 x (all_dims x))) as (k & -> & _).
           apply le_half_refl.
        -- destruct (@on_total_scale_inv _ Ht3) as (k & -> & _). apply le_half_refl.
Qed.

Lemma more_critical_issues_never_raise_witness :
  totalScore (mkGraded (grid_scores 5 4 5 4) (half 18)) = NaN
  \/ ((forall x, le (get (subScores (grid_base 4 4 4 4)) x)
                    (get (subScores (mkGraded (grid_scores 5 4 5 4) (half 18))) x) = true)
      /\ le (totalScore (grid_base 4 4 4 4))
            (totalScore (mkGraded (grid_scores 5 4 5 4) (half 18))) = true).
Proof.
  apply (@more_critical_issues_never_raise (scored 2 2 2 2 0)
           (VArray (repeat VNull 3))).
  - vm_compute. lia.
  - vm_compute. reflexivity.
  - vm_compute. reflexivity.
Defined.

End NormalizerMoreFacts.

(* ===================================================================== *)
(** * Facts about the score bands                                        *)
(* ===================================================================== *)

Module DashboardFacts.
Import JsStr JsNum Normalizer Grid GridMore Dashboard NormalizerFacts.

Lemma counted_bump (b : Bands) (i : nat) : counted (bump b i) = S (counted b).
Proof. unfold counted. destruct i as [| [| [| i]]]; cbn [bump band_0_5 band_6_8 band_9_11 band_12_15]; lia. Qed.

Lemma count_bands_counted (scores : list value) (b c : Bands) :
  count_bands scores b = Normal c -> counted c = (counted b + length scores)%nat.
Proof.
  revert b. induction scores as [| s rest IH]; intros b H.
  - injection H as <-. cbn [length]. lia.
  - cbn [count_bands] in H. destruct (band_of s) as [i |]; [| discriminate].
    cbn [bind] in H. apply IH in H. rewrite counted_bump in H. cbn [length]. lia.
Qed.

Lemma band_of_numeric (v : value) :
  is_numeric_cell v = true -> exists i, band_of v = Normal i.
Proof.
  destruct v; try discriminate; intros _; unfold band_of, or_else.
  - cbn [truthy Number bind]. eexists. reflexivity.
  - destruct (truthy (VNumber n)); cbn [Number bind]; eexists; reflexivity.
Qed.

Lemma count_bands_numeric (scores : list value) (b : Bands) :
  forallb is_numeric_cell scores = true -> exists c, count_bands scores b = Normal c.
Proof.
  revert b. induction scores as [| s rest IH]; intros b H.
  - exists b. reflexivity.
  - cbn [forallb] in H. apply andb_true_iff in H. destruct H as [Hs Hr].
    destruct (band_of_numeric _ Hs) as [i Ei]. cbn [count_bands]. rewrite Ei.
    cbn [bind]. apply IH. exact Hr.
Qed.

(** X11.  The chart of score bands counts every essay exactly once: over
    rows whose total is a Number or null the loop returns, and the four
    counters add up to the number of essays. *)
Theorem every_essay_is_counted_once (scores : list value) :
  forallb is_numeric_cell scores = true ->
  exists b, score_distribution scores = Normal b /\ counted b = length scores.
Proof.
  intros H. unfold score_distribution.
  destruct (count_bands_numeric scores (mkBands 0 0 0 0) H) as [c Ec].
  exists c. split; [exact Ec |]. apply count_bands_counted in Ec. exact Ec.
Qed.

Lemma every_essay_is_counted_once_witness :
  exists b,
    score_distribution [VNumber (half 11); VNull; VNumber (Fin 12); VNumber NaN]
    = Normal b
    /\ counted b = 4%nat.
Proof.
  apply (@every_essay_is_counted_once
           [VNumber (half 11); VNull; VNumber (Fin 12); VNumber NaN]).
  vm_compute. reflexivity.
Defined.

Lemma Qle_bool_false (a b : Q) : Qle_bool a b = false -> b < a.
Proof.
  intros H. apply Qnot_le_lt. intros C. apply Qle_bool_iff in C. congruence.
Qed.

Tactic Notation "split_le" constr(a) constr(b) :=
  let E := fresh "E" in
  destruct (Qle_bool a b) eqn:E;
  [apply Qle_bool_iff in E | apply Qle_bool_false in E].

(** X12.  The chart and the gallery sort a total into the same one of the
    four colours, with two exceptions.  A total strictly between 5 and 6,
    8 and 9, or 11 and 12 is put one band higher by the chart, which tests
    from below, than by the gallery, which tests from above.  A total that
    converts to NaN fails every test: the chart counts it in the top band
    and the gallery paints it in the bottom colour. *)
Theorem chart_and_gallery_differ_between_bands (v : value) (n : num) :
  Number (or_else v (VNumber (Fin 0))) = Normal n ->
  exists b t,
    band_of v = Normal b /\ tier_of v = Normal t
    /\ (n = NaN -> b = 3%nat /\ t = 0%nat)
    /\ (n <> NaN -> between_bands n = true -> b = S t)
    /\ (n <> NaN -> between_bands n = false -> b = t).
Proof.
  intros H. unfold band_of, tier_of. cbv zeta. rewrite H. cbn [bind].
  do 2 eexists. split; [reflexivity |]. split; [reflexivity |].
  unfold between_bands, ge.
  destruct n as [| | | q]; cbn [le lt].
  - split; [intros _; split; reflexivity |]. split; intros C; now destruct C.
  - split; [discriminate |]. split; intros _; [discriminate | reflexivity].
  - split; [discriminate |]. split; intros _; [discriminate | reflexivity].
  - split; [discriminate |].
    split_le q 5; split_le q 8; split_le q 11; split_le 12 q; split_le 9 q; split_le 6 q;
      cbn [negb andb orb]; split; intros; try reflexivity; try discriminate;
      exfalso; lra.
Qed.

Lemma chart_and_gallery_differ_between_bands_witness :
  exists b t,
    band_of (VNumber (half 17)) = Normal b /\ tier_of (VNumber (half 17)) = Normal t
    /\ (half 17 = NaN -> b = 3%nat /\ t = 0%nat)
    /\ (half 17 <> NaN -> between_bands (half 17) = true -> b = S t)
    /\ (half 17 <> NaN -> between_bands (half 17) = false -> b = t).
Proof.
  apply (@chart_and_gallery_differ_between_bands (VNumber (half 17)) (half 17)).
  vm_compute. reflexivity.
Defined.

Lemma band_of_half (k : Z) :
  band_of (VNumber (half k)) = Normal (band_of_halves k).
Proof.
  unfold band_of, or_else, band_of_halves.
  assert (N : Number (if truthy (VNumber (half k)) then VNumber (half k) else VNumber (Fin 0))
              = Normal (half k) \/ k = 0%Z).
  { destruct (truthy (VNumber (half k))) eqn:T; [left; reflexivity |].
    right. unfold half in T. cbn [truthy] in T. apply negb_false_iff in T.
    apply Qeq_bool_iff in T. unfold Qeq in T. simpl in T. lia. }
  destruct N as [-> | ->].
  - cbn [bind half le].
    split_le (k # 2) 5; split_le (k # 2) 8; split_le (k # 2) 11;
      unfold Qle, Qlt in *; simpl in *;
      destruct (Z.leb_spec k 10); destruct (Z.leb_spec k 16); destruct (Z.leb_spec k 22);
      try reflexivity; exfalso; lia.
  - vm_compute. reflexivity.
Qed.

(** X13.  Every total the normaliser returns lands in a band of the
    chart: NaN and totals up to 5 in the first, 5.5 to 8 in the second,
    8.5 to 11 in the third and 11.5 to 15 in the last, so that 5.5, 8.5
    and 11.5 are counted under the labels 6-8, 9-11 and 12-15. *)
Theorem normalised_total_has_a_band (d : Step1Data) (g : Graded) :
  normalize d = Normal g ->
  (totalScore g = NaN /\ band_of (VNumber (totalScore g)) = Normal 0%nat)
  \/ exists k, totalScore g = half k /\ (0 <= k <= 30)%Z
               /\ band_of (VNumber (totalScore g)) = Normal (band_of_halves k).
Proof.
  intros H. destruct (@NormalizerMoreFacts.total_never_exceeds_15_aux d g H) as [E | (k & E & Hk)].
  - left. split; [exact E |]. rewrite E. reflexivity.
  - right. exists k. split; [exact E |]. split; [exact Hk |]. rewrite E. apply band_of_half.
Qed.

Lemma normalised_total_has_a_band_witness :
  (totalScore (mkGraded (grid_scores 1 6 5 2) (half 14)) = NaN
   /\ band_of (VNumber (totalScore (mkGraded (grid_scores 1 6 5 2) (half 14)))) = Normal 0%nat)
  \/ exists k, totalScore (mkGraded (grid_scores 1 6 5 2) (half 14)) = half k
               /\ (0 <= k <= 30)%Z
               /\ band_of (VNumber (totalScore (mkGraded (grid_scores 1 6 5 2) (half 14))))
                  = Normal (band_of_halves k).
Proof.
  apply (@normalised_total_has_a_band (scored (-1) 30 (249 # 100) (1 # 4) 0)).
  vm_compute. reflexivity.
Defined.

End DashboardFacts.

(* ===================================================================== *)
(** * Facts about the JSON example of a schema                           *)
(* ===================================================================== *)

Module SchemaFacts.
Import JsStr Json SchemaExample JsonFacts SanitizerFacts.

(** More budget does not change what is read. *)
Lemma parse_fuel_mono (f : nat) :
  (forall g s, (f <= g)%nat -> parse_value f s <> PFuel ->
               parse_value g s = parse_value f s)
  /\ (forall g s, (f <= g)%nat -> parse_elements f s <> PFuel ->
                  parse_elements g s = parse_elements f s)
  /\ (forall g s, (f <= g)%nat -> parse_members f s <> PFuel ->
                  parse_members g s = parse_members f s).
Proof.
  induction f as [| f (IHv & IHe & IHm)].
  { repeat split; intros g s _ H; now contradiction H. }
  split; [| split].
  - intros g s Hg. destruct g as [| g]; [lia |]. apply le_S_n in Hg.
    destruct s as [| c r]; [reflexivity |].
    cbn [parse_value].
    destruct (c =? ch_lbrace)%N.
    { destruct (skip_ws r) as [| c' r']; [reflexivity |].
      destruct (c' =? ch_rbrace)%N; [reflexivity |].
      destruct (parse_members f (c' :: r')) as [ms rest | |] eqn:E.
      - rewrite (IHm g _ Hg) by (rewrite E; discriminate). now rewrite E.
      - rewrite (IHm g _ Hg) by (rewrite E; discriminate). now rewrite E.
      - intros H. now contradiction H. }
    destruct (c =? ch_lbracket)%N.
    { destruct (skip_ws r) as [| c' r']; [reflexivity |].
      destruct (c' =? ch_rbracket)%N; [reflexivity |].
      destruct (parse_elements f (c' :: r')) as [vs rest | |] eqn:E.
      - rewrite (IHe g _ Hg) by (rewrite E; discriminate). now rewrite E.
      - rewrite (IHe g _ Hg) by (rewrite E; discriminate). now rewrite E.
      - intros H. now contradiction H. }
    reflexivity.
  - intros g s Hg. destruct g as [| g]; [lia |]. apply le_S_n in Hg.
    cbn [parse_elements].
    destruct (parse_value f (skip_ws s)) as [v rest | |] eqn:E.
    + rewrite (IHv g _ Hg) by (rewrite E; discriminate). rewrite E.
      destruct (skip_ws rest) as [| c r]; [reflexivity |].
      destruct (c =? ch_comma)%N; [| reflexivity].
      destruct (parse_elements f r) as [vs rest' | |] eqn:E2.
      * rewrite (IHe g _ Hg) by (rewrite E2; discriminate). now rewrite E2.
      * rewrite (IHe g _ Hg) by (rewrite E2; discriminate). now rewrite E2.
      * intros H. now contradiction H.
    + rewrite (IHv g _ Hg) by (rewrite E; discriminate). now rewrite E.
    + intros H. now contradiction H.
  - intros g s Hg. destruct g as [| g]; [lia |]. apply le_S_n in Hg.
    cbn [parse_members].
    destruct (skip_ws s) as [| c r]; [reflexivity |].
    destruct (c =? ch_quote)%N; [| reflexivity].
    destruct (parse_string r) as [[key rest] |]; [| reflexivity].
    destruct (skip_ws rest) as [| c1 r1]; [reflexivity |].
    destruct (c1 =? ch_colon)%N; [| reflexivity].
    destruct (parse_value f (skip_ws r1)) as [v rest1 | |] eqn:E.
    + rewrite (IHv g _ Hg) by (rewrite E; discriminate). rewrite E.
      destruct (skip_ws rest1) as [| c2 r2]; [reflexivity |].
      destruct (c2 =? ch_comma)%N; [| reflexivity].
      destruct (parse_members f r2) as [ms rest2 | |] eqn:E2.
      * rewrite (IHm g _ Hg) by (rewrite E2; discriminate). now rewrite E2.
      * rewrite (IHm g _ Hg) by (rewrite E2; discriminate). now rewrite E2.
      * intros H. now contradiction H.
    + rewrite (IHv g _ Hg) by (rewrite E; discriminate). now rewrite E.
    + intros H. now contradiction H.
Qed.

(** A parse that succeeds with some budget succeeds in [JSON.parse]. *)
Lemma JSON_parse_of_read (text : jsstring) (v : json) (f : nat) :
  skip_ws text = text ->
  parse_value f text = POk v [] ->
  JSON_parse text = Normal v.
Proof.
  intros Hs Hp. unfold JSON_parse. rewrite Hs.
  assert (E : parse_value (budget text) text = POk v []).
  { pose proof (JSON_parse_budget text) as B. rewrite Hs in B.
    destruct (Nat.le_ge_cases f (budget text)) as [L | L].
    - rewrite (proj1 (parse_fuel_mono f) _ _ L) by (rewrite Hp; discriminate).
      exact Hp.
    - rewrite <- (proj1 (parse_fuel_mono (budget text)) _ _ L B). exact Hp. }
  rewrite E. reflexivity.
Qed.

(** ** What the reader does on each piece of an example *)

Lemma plain_char_inv (c : jschar) :
  plain_char c = true ->
  (c =? ch_quote)%N = false /\ (c =? ch_backslash)%N = false /\ (c <? 32)%N = false.
Proof.
  unfold plain_char. intros H.
  apply andb_true_iff in H. destruct H as [H H3].
  apply andb_true_iff in H. destruct H as [H1 H2].
  apply negb_true_iff in H2, H3. apply N.leb_le in H1.
  repeat split; try assumption. apply N.ltb_ge. exact H1.
Qed.

Lemma parse_string_plain (body rest : jsstring) :
  plain_string body = true ->
  parse_string (body ++ ch_quote :: rest) = Some (body, rest).
Proof.
  induction body as [| c b IH]; intros H.
  - reflexivity.
  - cbn [plain_string forallb] in H. apply andb_true_iff in H. destruct H as [Hc Hb].
    destruct (@plain_char_inv c Hc) as (E1 & E2 & E3).
    cbn [app parse_string]. rewrite E1, E2, E3.
    fold (plain_string b) in Hb. now rewrite (IH Hb).
Qed.

Lemma read_string (f : nat) (body rest : jsstring) :
  plain_string body = true ->
  parse_value (S f) (ch_quote :: body ++ ch_quote :: rest) = POk (JString body) rest.
Proof.
  intros H. cbn [parse_value].
  change (ch_quote =? ch_lbrace)%N with false.
  change (ch_quote =? ch_lbracket)%N with false.
  change (ch_quote =? ch_quote)%N with true.
  cbv iota. now rewrite (@parse_string_plain body rest H).
Qed.

Lemma read_zero (f : nat) (rest : jsstring) :
  follows_value rest = true ->
  parse_value (S f) (48%N :: rest) = POk (JNumber 0) rest.
Proof.
  intros H. destruct rest as [| c r]; [reflexivity |].
  cbn [follows_value] in H. apply orb_true_iff in H.
  destruct H as [H | H]; apply N.eqb_eq in H; subst c; reflexivity.
Qed.

Lemma read_false (f : nat) (rest : jsstring) :
  parse_value (S f) (js "false" ++ rest) = POk (JBool false) rest.
Proof. reflexivity. Qed.

Lemma skip_ws_app (w s : jsstring) :
  forallb is_json_ws w = true -> skip_ws (w ++ s) = skip_ws s.
Proof. apply dropWhile_all. Qed.

Lemma skip_ws_stop (c : jschar) (r : jsstring) :
  is_json_ws c = false -> skip_ws (c :: r) = c :: r.
Proof. intros H. unfold skip_ws. cbn [dropWhile]. now rewrite H. Qed.

Lemma read_empty_array (f : nat) (w rest : jsstring) :
  forallb is_json_ws w = true ->
  parse_value (S f) (ch_lbracket :: w ++ ch_rbracket :: rest) = POk (JArray []) rest.
Proof.
  intros Hw. cbn [parse_value].
  change (ch_lbracket =? ch_lbrace)%N with false.
  change (ch_lbracket =? ch_lbracket)%N with true. cbv iota.
  rewrite (@skip_ws_app w _ Hw), skip_ws_stop by reflexivity.
  reflexivity.
Qed.

Lemma read_empty_object (f : nat) (w rest : jsstring) :
  forallb is_json_ws w = true ->
  parse_value (S f) (ch_lbrace :: w ++ ch_rbrace :: rest) = POk (JObject []) rest.
Proof.
  intros Hw. cbn [parse_value].
  change (ch_lbrace =? ch_lbrace)%N with true. cbv iota.
  rewrite (@skip_ws_app w _ Hw), skip_ws_stop by reflexivity.
  reflexivity.
Qed.

Lemma read_array (f : nat) (w1 item w2 rest : jsstring) (v : json) :
  forallb is_json_ws w1 = true -> forallb is_json_ws w2 = true ->
  opens_value item ->
  parse_value f (item ++ w2 ++ ch_rbracket :: rest) = POk v (w2 ++ ch_rbracket :: rest) ->
  parse_value (S (S f)) (ch_lbracket :: w1 ++ item ++ w2 ++ ch_rbracket :: rest)
  = POk (JArray [v]) rest.
Proof.
  intros H1 H2 (c & r & -> & Hc & Hb & _) Hp.
  cbn [parse_value].
  change (ch_lbracket =? ch_lbrace)%N with false.
  change (ch_lbracket =? ch_lbracket)%N with true. cbv iota.
  rewrite (@skip_ws_app w1 _ H1). cbn [app] in *. rewrite (@skip_ws_stop c _ Hc), Hb.
  cbn [parse_elements]. rewrite (@skip_ws_stop c _ Hc), Hp.
  rewrite (@skip_ws_app w2 _ H2), skip_ws_stop by reflexivity.
  reflexivity.
Qed.

Lemma read_object (f : nat) (w more rest : jsstring) (ms : list (jsstring * json)) :
  forallb is_json_ws w = true ->
  parse_members f (ch_quote :: more) = POk ms rest ->
  parse_value (S f) (ch_lbrace :: w ++ ch_quote :: more) = POk (JObject ms) rest.
Proof.
  intros Hw Hp. cbn [parse_value].
  change (ch_lbrace =? ch_lbrace)%N with true. cbv iota.
  rewrite (@skip_ws_app w _ Hw), skip_ws_stop by reflexivity.
  change (ch_quote =? ch_rbrace)%N with false. cbv iota.
  now rewrite Hp.
Qed.

Lemma read_member_head (f : nat) (w key vt after : jsstring) :
  forallb is_json_ws w = true -> plain_string key = true -> opens_value vt ->
  parse_members (S f) (w ++ ch_quote :: key ++ js "': " ++ vt ++ after)
  = match parse_value f (vt ++ after) with
    | POk v rest1 =>
        match skip_ws rest1 with
        | c2 :: r2 =>
            if (c2 =? ch_comma)%N then
              match parse_members f r2 with
              | POk ms rest2 => POk ((key, v) :: ms) rest2
              | PSyntax => PSyntax
              | PFuel => PFuel
              end
            else if (c2 =? ch_rbrace)%N then POk [(key, v)] r2
            else PSyntax
        | [] => PSyntax
        end
    | PSyntax => PSyntax
    | PFuel => PFuel
    end.
Proof.
  intros Hw Hk (c & r & -> & Hc & _).
  cbn [parse_members].
  rewrite (@skip_ws_app w _ Hw), skip_ws_stop by reflexivity.
  change (ch_quote =? ch_quote)%N with true. cbv iota.
  change (js "': " ++ (c :: r) ++ after)
    with (ch_quote :: ch_colon :: ch_space :: c :: r ++ after).
  rewrite (@parse_string_plain key _ Hk).
  rewrite skip_ws_stop by reflexivity.
  change (ch_colon =? ch_colon)%N with true. cbv iota.
  change (ch_space :: c :: r ++ after) with ([ch_space] ++ c :: r ++ after).
  rewrite skip_ws_app by reflexivity. rewrite (@skip_ws_stop c _ Hc).
  reflexivity.
Qed.

(** ** Induction on schemas *)

Lemma Schema_induction (P : Schema -> Prop) :
  (forall ty de en it ps,
      match it with Some x => P x | None => True end ->
      match ps with Some l => Forall (fun kv => P (snd kv)) l | None => True end ->
      P (mkSchema ty de en it ps)) ->
  forall s, P s.
Proof.
  intros H. fix IH 1. intros [ty de en it ps]. apply H.
  - destruct it as [x |]; [apply IH | exact I].
  - destruct ps as [l |]; [| exact I].
    induction l as [| [k v] l IHl]; constructor; [apply IH | exact IHl].
Qed.

Lemma indent_is_ws (depth : nat) : forallb is_json_ws (indent_of depth) = true.
Proof.
  induction depth as [| d IH]; [reflexivity |].
  unfold indent_of in *. cbn [repeat concat]. rewrite forallb_app, IH. reflexivity.
Qed.

Lemma opens_value_app (text after : jsstring) :
  opens_value text -> opens_value (text ++ after).
Proof.
  intros (c & r & -> & H). exists c, (r ++ after). split; [reflexivity | exact H].
Qed.

Lemma example_opens (s : Schema) (depth : nat) :
  opens_value (schemaToJsonExample s depth).
Proof.
  destruct s as [ty de en it ps].
  destruct ty; cbn [schemaToJsonExample type enum items properties];
    try destruct en; try destruct it; try destruct ps;
    eexists _, _; (split; [reflexivity | repeat split]).
Qed.

(** ** Reading the members of an object of the example *)

Lemma entry_text (depth : nat) (key : jsstring) (val : Schema) (w after : jsstring) :
  w ++ entry_of depth (key, val) ++ after
  = (w ++ indent_of (S depth)) ++ ch_quote :: key ++ js "': "
    ++ schemaToJsonExample val (S depth) ++ after.
Proof.
  unfold entry_of. change (js "'") with [ch_quote].
  rewrite <- !app_assoc. reflexivity.
Qed.

Lemma members_read (depth : nat) (props : list (jsstring * Schema)) :
  Forall (fun kv => forall d, plain (snd kv) = true ->
                    reads (schemaToJsonExample (snd kv) d) (example_of (snd kv))) props ->
  forallb plain_entry props = true ->
  props <> [] ->
  forall w i2 rest,
    forallb is_json_ws w = true -> forallb is_json_ws i2 = true ->
    exists f0, forall f, (f0 <= f)%nat ->
      parse_members f (w ++ join (js "," ++ LF) (map (entry_of depth) props)
                         ++ ch_lf :: i2 ++ ch_rbrace :: rest)
      = POk (map member_of props) rest.
Proof.
  induction 1 as [| [key val] ps Hkv Hps IH]; intros Hplain Hne w i2 rest Hw Hi.
  { contradiction. }
  cbn [forallb plain_entry] in Hplain.
  apply andb_true_iff in Hplain. destruct Hplain as [Hkv' Hrest].
  apply andb_true_iff in Hkv'. destruct Hkv' as [Hk Hv].
  cbn [snd] in Hkv.
  assert (Hww : forallb is_json_ws (w ++ indent_of (S depth)) = true).
  { rewrite forallb_app, Hw. apply indent_is_ws. }
  pose proof (example_opens val (S depth)) as Ho.
  destruct ps as [| kv2 ps'].
  - cbn [map join member_of].
    destruct (Hkv (S depth) Hv (ch_lf :: i2 ++ ch_rbrace :: rest) eq_refl) as [f0 Hf0].
    exists (S f0). intros f Hf. destruct f as [| f]; [lia |].
    rewrite entry_text.
    rewrite (@read_member_head f _ key _ _ Hww Hk Ho).
    rewrite Hf0 by lia.
    change (ch_lf :: i2 ++ ch_rbrace :: rest) with ([ch_lf] ++ i2 ++ ch_rbrace :: rest).
    rewrite skip_ws_app by reflexivity. rewrite (@skip_ws_app i2 _ Hi).
    rewrite skip_ws_stop by reflexivity. reflexivity.
  - destruct (IH Hrest ltac:(discriminate) LF i2 rest eq_refl Hi) as [f1 Hf1].
    set (more := join (js "," ++ LF) (map (entry_of depth) (kv2 :: ps'))) in *.
    assert (J : join (js "," ++ LF) (map (entry_of depth) ((key, val) :: kv2 :: ps'))
                = entry_of depth (key, val) ++ ch_comma :: LF ++ more).
    { cbn [map]. unfold more. cbn [map join].
      change (js "," ++ LF) with [ch_comma; ch_lf]. reflexivity. }
    rewrite J. clear J.
    destruct (Hkv (S depth) Hv
                (ch_comma :: LF ++ more ++ ch_lf :: i2 ++ ch_rbrace :: rest) eq_refl)
      as [f0 Hf0].
    exists (S (Nat.max f0 f1)). intros f Hf. destruct f as [| f]; [lia |].
    replace (w ++ (entry_of depth (key, val) ++ ch_comma :: LF ++ more)
               ++ ch_lf :: i2 ++ ch_rbrace :: rest)
      with (w ++ entry_of depth (key, val)
              ++ ch_comma :: LF ++ more ++ ch_lf :: i2 ++ ch_rbrace :: rest)
      by (now rewrite <- !app_assoc).
    rewrite entry_text.
    rewrite (@read_member_head f _ key _ _ Hww Hk Ho).
    rewrite Hf0 by lia.
    rewrite skip_ws_stop by reflexivity.
    change (ch_comma =? ch_comma)%N with true. cbv iota.
    rewrite Hf1 by lia. reflexivity.
Qed.

(** ** Reading an example *)

Lemma skip_ws_idem (s : jsstring) : skip_ws (skip_ws s) = skip_ws s.
Proof.
  unfold skip_ws. induction s as [| c r IH]; [reflexivity |].
  cbn [dropWhile]. destruct (is_json_ws c) eqn:E; [exact IH |].
  cbn [dropWhile]. now rewrite E.
Qed.

Lemma parse_members_skip (f : nat) (s : jsstring) :
  parse_members f (skip_ws s) = parse_members f s.
Proof. destruct f; [reflexivity |]. cbn [parse_members]. now rewrite skip_ws_idem. Qed.

Lemma read_members (f : nat) (text more rest : jsstring) (ms : list (jsstring * json)) :
  skip_ws text = ch_quote :: more ->
  parse_members f text = POk ms rest ->
  parse_value (S f) (ch_lbrace :: text) = POk (JObject ms) rest.
Proof.
  intros Hs Hp. cbn [parse_value].
  change (ch_lbrace =? ch_lbrace)%N with true. cbv iota.
  rewrite Hs. change (ch_quote =? ch_rbrace)%N with false. cbv iota.
  rewrite <- Hs, parse_members_skip, Hp. reflexivity.
Qed.

Lemma desc_of_plain (s : Schema) : no_description s = true -> desc_of s = [].
Proof.
  unfold no_description, desc_of. destruct (description s) as [[| c d] |];
    (reflexivity || discriminate).
Qed.

Lemma join_plain (vals : list jsstring) :
  forallb plain_string vals = true -> plain_string (join (js " | ") vals) = true.
Proof.
  induction vals as [| x r IH]; [reflexivity |].
  cbn [forallb]. intros H. apply andb_true_iff in H. destruct H as [Hx Hr].
  destruct r as [| y r']; [exact Hx |].
  change (join (js " | ") (x :: y :: r')) with (x ++ js " | " ++ join (js " | ") (y :: r')).
  unfold plain_string in *. rewrite !forallb_app, Hx, (IH Hr). reflexivity.
Qed.

Lemma read_quoted (body rest : jsstring) :
  plain_string body = true ->
  exists f0, forall f, (f0 <= f)%nat ->
    parse_value f (ch_quote :: body ++ ch_quote :: rest) = POk (JString body) rest.
Proof.
  intros H. exists 1%nat. intros f Hf. destruct f as [| f]; [lia |].
  now apply read_string.
Qed.

Lemma example_reads (s : Schema) :
  forall depth, plain s = true -> reads (schemaToJsonExample s depth) (example_of s).
Proof.
  induction s as [ty de en it ps IHit IHps] using Schema_induction.
  intros depth Hp rest Hr.
  pose proof (indent_is_ws depth) as Wd.
  pose proof (indent_is_ws (S depth)) as Wi.
  destruct ty;
    cbn [plain schemaToJsonExample example_of type enum items properties] in *.
  - exact (@read_quoted (js "unknown") rest eq_refl).
  - apply andb_true_iff in Hp. destruct Hp as [Hd He].
    rewrite (@desc_of_plain _ Hd). destruct en as [vals |].
    + replace ((js "'one of: " ++ join (js " | ") vals ++ js "'" ++ []) ++ rest)
        with (ch_quote :: (js "one of: " ++ join (js " | ") vals) ++ ch_quote :: rest).
      * apply read_quoted. unfold plain_string. rewrite forallb_app.
        fold (plain_string (join (js " | ") vals)). now rewrite (@join_plain vals He).
      * rewrite app_nil_r. change (js "'one of: ") with (ch_quote :: js "one of: ").
        change (js "'") with [ch_quote]. cbn [app]. rewrite <- !app_assoc. reflexivity.
    + exact (@read_quoted (js "string") rest eq_refl).
  - rewrite (@desc_of_plain _ Hp). exists 1%nat. intros f Hf.
    destruct f as [| f]; [lia |]. now apply read_zero.
  - exact (@read_quoted (js "unknown") rest eq_refl).
  - exists 1%nat. intros f Hf. destruct f as [| f]; [lia |]. apply read_false.
  - destruct it as [x |].
    + destruct (IHit (S depth) Hp ((LF ++ indent_of depth) ++ ch_rbracket :: rest) eq_refl)
        as [f0 Hf0].
      exists (S (S f0)). intros f Hf. destruct f as [| [| f]]; try lia.
      replace ((js "[" ++ LF ++ indent_of (S depth) ++ schemaToJsonExample x (S depth)
                  ++ LF ++ indent_of depth ++ js "]") ++ rest)
        with (ch_lbracket :: (LF ++ indent_of (S depth)) ++ schemaToJsonExample x (S depth)
                ++ (LF ++ indent_of depth) ++ ch_rbracket :: rest).
      * apply read_array.
        -- exact Wi.
        -- exact Wd.
        -- apply example_opens.
        -- apply Hf0. lia.
      * change (js "[") with [ch_lbracket]. change (js "]") with [ch_rbracket].
        rewrite <- !app_assoc. reflexivity.
    + exists 1%nat. intros f Hf. destruct f as [| f]; [lia |].
      exact (@read_empty_array f [] rest eq_refl).
  - destruct ps as [[| kv l] |].
    + exists 1%nat. intros f Hf. destruct f as [| f]; [lia |].
      cbn [map join].
      replace ((js "{" ++ LF ++ [] ++ LF ++ indent_of depth ++ js "}") ++ rest)
        with (ch_lbrace :: (LF ++ LF ++ indent_of depth) ++ ch_rbrace :: rest).
      * apply read_empty_object. exact Wd.
      * change (js "{") with [ch_lbrace]. change (js "}") with [ch_rbrace].
        rewrite <- !app_assoc. reflexivity.
    + destruct (@members_read depth (kv :: l) IHps Hp ltac:(discriminate)
                  LF (indent_of depth) rest eq_refl Wd) as [f0 Hf0].
      exists (S f0). intros f Hf. destruct f as [| f]; [lia |].
      change (map _ (kv :: l)) with (map (entry_of depth) (kv :: l)) at 1.
      replace ((js "{" ++ LF ++ join (js "," ++ LF) (map (entry_of depth) (kv :: l))
                  ++ LF ++ indent_of depth ++ js "}") ++ rest)
        with (ch_lbrace :: LF ++ join (js "," ++ LF) (map (entry_of depth) (kv :: l))
                ++ ch_lf :: indent_of depth ++ ch_rbrace :: rest).
      * assert (Hs : exists more,
                  skip_ws (LF ++ join (js "," ++ LF) (map (entry_of depth) (kv :: l))
                             ++ ch_lf :: indent_of depth ++ ch_rbrace :: rest)
                  = ch_quote :: more).
        { destruct kv as [key val]. cbn [map].
          destruct l as [| kv2 l'].
          - cbn [map join]. rewrite entry_text. eexists.
            rewrite skip_ws_app by (now rewrite forallb_app, Wi).
            apply skip_ws_stop. reflexivity.
          - change (join (js "," ++ LF) (entry_of depth (key, val) :: map (entry_of depth) (kv2 :: l')))
              with (entry_of depth (key, val) ++ (js "," ++ LF)
                      ++ join (js "," ++ LF) (map (entry_of depth) (kv2 :: l'))).
            rewrite <- app_assoc. rewrite entry_text. eexists.
            rewrite skip_ws_app by (now rewrite forallb_app, Wi).
            apply skip_ws_stop. reflexivity. }
        destruct Hs as [more Hs].
        apply (@read_members f _ more rest _ Hs). apply Hf0. lia.
      * change (js "{") with [ch_lbrace]. change (js "}") with [ch_rbrace].
        change LF with [ch_lf]. repeat first [rewrite <- app_assoc | progress cbn [app]].
        reflexivity.
    + exists 1%nat. intros f Hf. destruct f as [| f]; [lia |].
      exact (@read_empty_object f [] rest eq_refl).
  - exact (@read_quoted (js "unknown") rest eq_refl).
Qed.

(** X14.  For a schema whose values carry no description and whose enum
    values and property names are made of plain characters, the example
    handed to the model is valid JSON: [JSON.parse] reads it as the value
    the schema describes, at every depth of indentation. *)
Theorem schema_example_is_valid_json (s : Schema) (depth : nat) :
  plain s = true ->
  JSON_parse (schemaToJsonExample s depth) = Normal (example_of s).
Proof.
  intros Hp.
  destruct (@example_reads s depth Hp [] eq_refl) as [f0 Hf0].
  specialize (Hf0 f0 (Nat.le_refl _)). rewrite app_nil_r in Hf0.
  apply (@JSON_parse_of_read _ _ f0); [| exact Hf0].
  destruct (example_opens s depth) as (c & r & -> & Hc & _).
  now apply skip_ws_stop.
Qed.

Lemma schema_example_is_valid_json_witness :
  JSON_parse
    (schemaToJsonExample
       (mkSchema OBJECT None None None
          (Some [(js "score", mkSchema NUMBER None None None None);
                 (js "tags",
                  mkSchema ARRAY None None
                    (Some (mkSchema STRING None (Some [js "a"; js "b"]) None None))
                    None)]))
       0)
  = Normal
      (JObject [(js "score", JNumber 0);
                (js "tags", JArray [JString (js "one of: a | b")])]).
Proof.
  apply (@schema_example_is_valid_json
           (mkSchema OBJECT None None None
              (Some [(js "score", mkSchema NUMBER None None None None);
                     (js "tags",
                      mkSchema ARRAY None None
                        (Some (mkSchema STRING None (Some [js "a"; js "b"]) None None))
                        None)]))
           0).
  vm_compute. reflexivity.
Defined.

Lemma desc_of_described (s : Schema) :
  no_description s = false -> exists d, desc_of s = ch_space :: ch_slash :: d.
Proof.
  unfold no_description, desc_of. destruct (description s) as [[| c d] |];
    try discriminate. intros _. eexists. reflexivity.
Qed.

Lemma JSON_parse_trailing (text : jsstring) (v : json) (f : nat) (d : jsstring) :
  skip_ws text = text ->
  parse_value f text = POk v (ch_space :: ch_slash :: d) ->
  JSON_parse text = Throw SyntaxError.
Proof.
  intros Hs Hp. unfold JSON_parse. rewrite Hs.
  assert (E : parse_value (budget text) text = POk v (ch_space :: ch_slash :: d)).
  { pose proof (JSON_parse_budget text) as B. rewrite Hs in B.
    destruct (Nat.le_ge_cases f (budget text)) as [L | L].
    - rewrite (proj1 (parse_fuel_mono f) _ _ L) by (rewrite Hp; discriminate).
      exact Hp.
    - rewrite <- (proj1 (parse_fuel_mono (budget text)) _ _ L B). exact Hp. }
  rewrite E. reflexivity.
Qed.

(** X15.  A description turns the example into something that is not
    JSON: for a number schema, or a string schema with plain enum values,
    that carries a non-empty description, [JSON.parse] of the example
    throws a SyntaxError at the comment. *)
Theorem described_example_is_not_json (s : Schema) (depth : nat) :
  described_scalar s = true ->
  JSON_parse (schemaToJsonExample s depth) = Throw SyntaxError.
Proof.
  unfold described_scalar. intros H.
  apply andb_true_iff in H. destruct H as [Hd Ht]. apply negb_true_iff in Hd.
  destruct (@desc_of_described s Hd) as [d Ed].
  destruct s as [ty de en it ps].
  destruct ty; try discriminate;
    cbn [schemaToJsonExample type enum] in *; rewrite Ed.
  - destruct en as [vals |].
    + apply (@JSON_parse_trailing _ (JString (js "one of: " ++ join (js " | ") vals)) 1%nat d).
      * reflexivity.
      * replace (js "'one of: " ++ join (js " | ") vals ++ js "'" ++ ch_space :: ch_slash :: d)
          with (ch_quote :: (js "one of: " ++ join (js " | ") vals)
                  ++ ch_quote :: ch_space :: ch_slash :: d).
        -- apply read_string. unfold plain_string. rewrite forallb_app.
           fold (plain_string (join (js " | ") vals)). now rewrite (@join_plain vals Ht).
        -- change (js "'one of: ") with (ch_quote :: js "one of: ").
           change (js "'") with [ch_quote]. cbn [app]. rewrite <- !app_assoc. reflexivity.
    + apply (@JSON_parse_trailing _ (JString (js "string")) 1%nat d); reflexivity.
  - apply (@JSON_parse_trailing _ (JNumber 0) 1%nat d); reflexivity.
Qed.

Lemma described_example_is_not_json_witness :
  JSON_parse
    (schemaToJsonExample
       (mkSchema NUMBER (Some (js "0 to 15")) None None None) 0)
  = Throw SyntaxError.
Proof.
  apply (@described_example_is_not_json
           (mkSchema NUMBER (Some (js "0 to 15")) None None None) 0).
  vm_compute. reflexivity.
Defined.

End SchemaFacts.

(* ===================================================================== *)
(** * Facts about the second step of gradeEssay                          *)
(* ===================================================================== *)

Module RetrainingFacts.
Import JsStr Json JsNum Normalizer Retraining.

Lemma complete_retraining_outcome (v : value) :
  (blocks_step2 v = true -> complete_retraining v = Throw TypeError)
  /\ (blocks_step2 v = false -> exists r, complete_retraining v = Normal r).
Proof.
  unfold complete_retraining.
  destruct v as [| | b | n | s | l | ms]; cbn [blocks_step2];
    try (split; [reflexivity | discriminate]);
    try (split; [discriminate | intros _; eexists; vm_compute; reflexivity]).
  cbn [member bind]. destruct (lookup (js "retraining") ms) as [r |].
  - unfold or_else. destruct (truthy r) eqn:T.
    + destruct r as [| | b | n | s | l | ms']; try discriminate;
        cbn [andb negb is_object member bind];
        (split; [reflexivity || discriminate | discriminate || (intros _; eexists; reflexivity)]).
    + cbn [andb]. split; [discriminate | intros _; eexists; vm_compute; reflexivity].
  - split; [discriminate | intros _; eexists; vm_compute; reflexivity].
Qed.

(** X16.  Step 2 of gradeEssay does not block the grading on a reply that
    is not JSON: it falls back to empty exercises and materials.  On a
    reply that is JSON it still throws a TypeError, and only then, when
    the reply is null or an object whose retraining is a truthy primitive
    (a Number other than 0, a non-empty string, true). *)
Theorem step2_blocks_exactly (step2Json : jsstring) :
  (forall e, JSON_parse step2Json = Throw e ->
             step2 step2Json = Normal (mkRetraining [] []))
  /\ (forall j, JSON_parse step2Json = Normal j ->
        (blocks_step2 (of_json j) = true -> step2 step2Json = Throw TypeError)
        /\ (blocks_step2 (of_json j) = false -> exists r, step2 step2Json = Normal r)).
Proof.
  split.
  - intros e H. unfold step2. rewrite H. reflexivity.
  - intros j H. unfold step2. rewrite H. apply complete_retraining_outcome.
Qed.

End RetrainingFacts.
